(** * purge-server: the room-multiplexed session broker

    A shallow embedding of the WebSocket coordination server
    ([src/server.ts], its earlier revisions, and the legacy
    [server.js]) together with the properties of its arena and battle
    rooms.

    Conventions of the embedding.
    - A JavaScript [Set<string>] or [Map<string, V>] whose iteration
      order the code observes ([Array.from(..)[0]], [find], [forEach]
      that sends frames) is an insertion-ordered list without duplicate
      keys; tables that are only looked up by key are [gmap]s.
    - A [WebSocket] is a handle (a number); the set of handles whose
      [readyState] is [OPEN] and the frames handed to [ws.send], in
      order, are part of the state.
    - [Date.now()] is an argument of every event.
    - [setTimeout] stores the callback under a fresh handle in the table
      of pending timers; firing a timer is an event of its own. *)

From stdpp Require Import gmap strings list fin_maps pretty.
From Stdlib Require Import ZArith Lia.

(** ** Insertion-ordered sets and maps (JavaScript [Set] and [Map]) *)

Module Js.

(** [Set.prototype.add]: a new element goes last, a present one stays. *)
Definition set_add {A} `{EqDecision A} (x : A) (s : list A) : list A :=
  if decide (x ∈ s) then s else s ++ [x].

(** [Set.prototype.delete]. *)
Definition set_delete {A} `{EqDecision A} (x : A) (s : list A) : list A :=
  filter (λ y, y ≠ x) s.

(** [Map.prototype.get]. *)
Fixpoint map_get {V} (k : string) (m : list (string * V)) : option V :=
  match m with
  | [] => None
  | (k', v) :: m' => if decide (k' = k) then Some v else map_get k m'
  end.

(** [Map.prototype.set]: a present key keeps its position. *)
Fixpoint map_set {V} (k : string) (v : V) (m : list (string * V))
  : list (string * V) :=
  match m with
  | [] => [(k, v)]
  | (k', v') :: m' =>
      if decide (k' = k) then (k, v) :: m' else (k', v') :: map_set k v m'
  end.

(** [Map.prototype.delete]. *)
Definition map_delete {V} (k : string) (m : list (string * V))
  : list (string * V) :=
  filter (λ kv, kv.1 ≠ k) m.

Definition keys {V} (m : list (string * V)) : list string := m.*1.
Definition values {V} (m : list (string * V)) : list V := m.*2.

(** Truthiness of a string: only the empty string is falsy. *)
Definition truthy (s : string) : bool := negb (bool_decide (s = "")).

End Js.

(** ** Shared data: player state and outbound frames *)

(** The fields of [interface PlayerState].  The server forwards the
    numeric fields without computing on them; they are integers here.
    It reads two properties of a stored state: [alive], for its
    truthiness, and [id], which is [None] when the object carries no
    string there. *)
Record PlayerFields := mkPlayerState {
  ps_id : option string;
  ps_x : Z;
  ps_y : Z;
  ps_hp : Z;
  ps_maxHp : Z;
  ps_alive : bool;
  ps_hasShield : bool;
  ps_hasSpeed : bool;
  ps_name : string;
  ps_color : string;
  ps_radius : Z;
  ps_vx : Z;
  ps_vy : Z
}.

(** A [PlayerState] as the server holds it: [message.data] of an
    [update] frame is stored and relayed without validation, so it can
    be [null] or absent, [None] here. *)
Definition PlayerState : Type := option PlayerFields.

Inductive Phase := waiting | countdown | active | ended.

Global Instance Phase_eq_dec : EqDecision Phase.
Proof. solve_decision. Defined.

Definition phase_name (p : Phase) : string :=
  match p with
  | waiting => "waiting"
  | countdown => "countdown"
  | active => "active"
  | ended => "ended"
  end.

(** The [gameState] payload of a [game_state_update] frame. *)
Record GameStateView := mkView {
  v_phase : Phase;
  v_countdownStartTime : option Z;
  v_countdownDuration : Z;
  v_readyPlayers : nat;
  v_totalPlayers : nat
}.

(** Every outbound frame of the repository, by its [type] field. *)
Inductive Msg :=
  | game_state_update (gameState : GameStateView)
  | sync (players : list PlayerState)
  | player_connected (playerId : string)
  | player_disconnected (playerId : string)
  | update (playerId : string) (data : PlayerState)
  | eliminated (playerId : string)
  | winner_msg (winnerId : option string)
  | error_msg (message : string)
  | heartbeat_ack (timestamp : Z)
  | player_joined (playerId : string) (playersCount : nat)
                  (challengeId : option string)
  | game_ready (challengeId : string) (players : list string)
  | opponent_moved (playerId : string)
  | round_complete (round : Z) (moves : list (string * string))
  | game_ended (winner : option string) (challengeId : string)
  | opponent_left (playerId : string).

(** A frame handed to [ws.send]: the socket and the message. *)
Definition Frame : Type := nat * Msg.

(** * Battle rooms ([class BattleManager]) *)

Module Battle.

Inductive Status := st_waiting | st_ready | st_in_progress | st_ended.

Global Instance Status_eq_dec : EqDecision Status.
Proof. solve_decision. Defined.

Record BattleMove := mkMove {
  playerId : string;
  move : string;
  round : Z;
  submittedAt : Z
}.

Record BattleSession := mkBattle {
  challengeId : string;
  players : list string;
  connections : list (string * nat);
  moves : gmap Z (list BattleMove);
  status : Status;
  winner : option string;
  createdAt : Z
}.

(** Callbacks handed to [setTimeout] by the battle manager. *)
Inductive Timer :=
  | t_in_progress (challengeId : string)   (* +1000 ms after [game_ready] *)
  | t_cleanup (challengeId : string).      (* +30000 ms after [game_ended] *)

Record State := mkState {
  battles : gmap string BattleSession;
  open : gset nat;
  sent : list Frame;
  pending : list Timer
}.

Definition init : State := mkState ∅ ∅ [] [].

Definition set_battles (f : gmap string BattleSession → gmap string BattleSession)
    (s : State) : State :=
  mkState (f (battles s)) (open s) (sent s) (pending s).

Definition put (id : string) (b : BattleSession) (s : State) : State :=
  set_battles (λ m, <[id := b]> m) s.

Definition setTimeout (t : Timer) (s : State) : State :=
  mkState (battles s) (open s) (sent s) (pending s ++ [t]).

(** [ws.close()]: the socket leaves the [OPEN] state. *)
Definition ws_close (ws : nat) (s : State) : State :=
  mkState (battles s) (open s ∖ {[ws]}) (sent s) (pending s).

(** A socket is [OPEN] when the server's [connection] handler runs. *)
Definition ws_open (ws : nat) (s : State) : State :=
  mkState (battles s) ({[ws]} ∪ open s) (sent s) (pending s).

(** [sendTo]: a frame goes out only on an [OPEN] socket. *)
Definition sendTo (ws : nat) (msg : Msg) (s : State) : State :=
  if decide (ws ∈ open s)
  then mkState (battles s) (open s) (sent s ++ [(ws, msg)]) (pending s)
  else s.

(** [broadcastToBattle]; [exclude] is the optional third argument. *)
Definition broadcastToBattle (id : string) (msg : Msg)
    (exclude : option string) (s : State) : State :=
  match battles s !! id with
  | None => s
  | Some battle =>
      foldl (λ acc '(pid, ws),
               if decide (Some pid ≠ exclude) then sendTo ws msg acc else acc)
            s (connections battle)
  end.

Definition cleanup (id : string) (s : State) : State :=
  match battles s !! id with
  | None => s
  | Some battle =>
      let s1 :=
        foldl (λ acc '(_, ws),
                 if decide (ws ∈ open acc) then ws_close ws acc else acc)
              s (connections battle) in
      set_battles (delete id) s1
  end.

(** Inbound battle frames, by [msg.type]. *)
Inductive Inbound :=
  | submit_move (round : Z) (move : string)
  | game_ended_in (winner : option string)
  | other (type : string).

Definition handleMessage (cid pid : string) (msg : Inbound) (now : Z)
    (s : State) : State :=
  match battles s !! cid with
  | None => s
  | Some battle =>
      match msg with
      | submit_move r mv =>
          let m := mkMove pid mv r now in
          let moves1 :=
            match moves battle !! r with
            | Some _ => moves battle
            | None => <[r := []]> (moves battle)
            end in
          let roundMoves := default [] (moves1 !! r) in
          if existsb (λ x, bool_decide (playerId x = pid)) roundMoves
          then put cid (mkBattle (challengeId battle) (players battle)
                          (connections battle) moves1 (status battle)
                          (winner battle) (createdAt battle)) s
          else
            let roundMoves' := roundMoves ++ [m] in
            let s1 := put cid (mkBattle (challengeId battle) (players battle)
                          (connections battle) (<[r := roundMoves']> moves1)
                          (status battle) (winner battle) (createdAt battle)) s in
            let s2 := broadcastToBattle cid (opponent_moved pid) (Some pid) s1 in
            if decide (length roundMoves' = 2)
            then broadcastToBattle cid
                   (round_complete r
                      (map (λ x, (playerId x, move x)) roundMoves')) None s2
            else s2
      | game_ended_in w =>
          let s1 := put cid (mkBattle (challengeId battle) (players battle)
                        (connections battle) (moves battle) st_ended w
                        (createdAt battle)) s in
          let s2 := broadcastToBattle cid (game_ended w cid) None s1 in
          setTimeout (t_cleanup cid) s2
      | other _ => s
      end
  end.

Definition handleDisconnect (cid pid : string) (s : State) : State :=
  match battles s !! cid with
  | None => s
  | Some battle =>
      let conns := Js.map_delete pid (connections battle) in
      let b1 := mkBattle (challengeId battle) (players battle) conns
                  (moves battle) (status battle) (winner battle)
                  (createdAt battle) in
      let s1 := put cid b1 s in
      let s2 := broadcastToBattle cid (opponent_left pid) (Some pid) s1 in
      let s3 :=
        if decide (status b1 = st_in_progress) then
          match find (λ p, bool_decide (p ≠ pid)) (players b1) with
          | Some remaining =>
              if Js.truthy remaining then
                let s' := put cid (mkBattle (challengeId b1) (players b1)
                              (connections b1) (moves b1) (status b1)
                              (Some remaining) (createdAt b1)) s2 in
                broadcastToBattle cid (game_ended (Some remaining) cid) None s'
              else s2
          | None => s2
          end
        else s2 in
      if decide (length conns = 0) then cleanup cid s3 else s3
  end.

Definition handleConnection (ws : nat) (cid pid : string) (now : Z)
    (s : State) : State :=
  let battle :=
    match battles s !! cid with
    | Some b => b
    | None => mkBattle cid [] [] ∅ st_waiting None now
    end in
  let b1 := mkBattle (challengeId battle) (Js.set_add pid (players battle))
              (Js.map_set pid ws (connections battle)) (moves battle)
              (status battle) (winner battle) (createdAt battle) in
  let s1 := put cid b1 s in
  let n := length (players b1) in
  let s2 := sendTo ws (player_joined pid n (Some cid)) s1 in
  let s3 := broadcastToBattle cid (player_joined pid n None) (Some pid) s2 in
  if decide (n = 2 ∧ status b1 = st_waiting) then
    let s4 := put cid (mkBattle (challengeId b1) (players b1) (connections b1)
                  (moves b1) st_ready (winner b1) (createdAt b1)) s3 in
    let s5 := broadcastToBattle cid (game_ready cid (players b1)) None s4 in
    setTimeout (t_in_progress cid) s5
  else s3.

(** [UnifiedServer.handleBattleConnection]: both query parameters must
    be non-empty, otherwise the socket is closed with code 1008. *)
Definition handleBattleConnection (ws : nat) (cid pid : string) (now : Z)
    (s : State) : State :=
  if negb (Js.truthy cid) || negb (Js.truthy pid)
  then ws_close ws s
  else handleConnection ws cid pid now s.

(** The body of a timer callback. *)
Definition run_timer (t : Timer) (s : State) : State :=
  match t with
  | t_in_progress cid =>
      match battles s !! cid with
      | Some b => put cid (mkBattle (challengeId b) (players b) (connections b)
                     (moves b) st_in_progress (winner b) (createdAt b)) s
      | None => s
      end
  | t_cleanup cid => cleanup cid s
  end.

(** The body of the [startCleanupTimer] interval. *)
Definition cleanup_scan (now : Z) (s : State) : State :=
  map_fold (λ id b acc,
              if decide ((now - createdAt b > 1800000)%Z
                         ∧ status b ≠ st_in_progress)
              then cleanup id acc else acc)
           s (battles s).

(** Events applied to the battle manager, one at a time. *)
Inductive Event :=
  | ev_connect (ws : nat) (challengeId playerId : string) (now : Z)
  | ev_message (challengeId playerId : string) (msg : Inbound) (now : Z)
  | ev_close (challengeId playerId : string)
  | ev_socket_down (ws : nat)
  | ev_fire (n : nat)
  | ev_scan (now : Z).

Definition step (s : State) (e : Event) : State :=
  match e with
  | ev_connect ws cid pid now =>
      handleBattleConnection ws cid pid now (ws_open ws s)
  | ev_message cid pid msg now => handleMessage cid pid msg now s
  | ev_close cid pid => handleDisconnect cid pid s
  | ev_socket_down ws => ws_close ws s
  | ev_fire n =>
      match pending s !! n with
      | Some t =>
          run_timer t (mkState (battles s) (open s) (sent s)
                         (delete n (pending s)))
      | None => s
      end
  | ev_scan now => cleanup_scan now s
  end.

Definition run (es : list Event) : State := foldl step init es.

Global Arguments run : simpl never.

Definition reachable (s : State) : Prop := ∃ es, s = run es.

(** Specification side: the frames a broadcast over [conns] hands to
    the sockets that are [OPEN], in iteration order. *)
Definition broadcast_frames (conns : list (string * nat)) (msg : Msg)
    (exclude : option string) (op : gset nat) : list Frame :=
  omap (λ '(pid, ws),
          if decide (Some pid ≠ exclude)
          then (if decide (ws ∈ op) then Some (ws, msg) else None)
          else None) conns.

(** Specification side: no round of any battle lists a peer twice. *)
Definition ledger_ok (m : gmap string BattleSession) : Prop :=
  ∀ cid b r l,
    m !! cid = Some b → moves b !! r = Some l → NoDup (playerId <$> l).

(** Specification side: the frames [broadcastToBattle] sends for
    battle [id], none when the battle is unknown. *)
Definition battle_frames (id : string) (msg : Msg) (exclude : option string)
    (s : State) : list Frame :=
  match battles s !! id with
  | Some b => broadcast_frames (connections b) msg exclude (open s)
  | None => []
  end.

(** [now - createdAt > 1800000 && status !== 'in_progress']. *)
Definition expired (now : Z) (b : BattleSession) : Prop :=
  (now - createdAt b > 1800000)%Z ∧ status b ≠ st_in_progress.

(** Specification side: what every stored battle satisfies.  It is
    stored under its own id, its player set and its connection map
    have no repeated peer, every connected peer is a player, somebody
    has joined, and a battle still waiting has a single player. *)
Definition battle_wf (cid : string) (b : BattleSession) : Prop :=
  challengeId b = cid
  ∧ NoDup (players b)
  ∧ NoDup (Js.keys (connections b))
  ∧ Js.keys (connections b) ⊆ players b
  ∧ players b ≠ []
  ∧ (status b = st_waiting → length (players b) = 1).

Definition battles_wf (m : gmap string BattleSession) : Prop :=
  ∀ cid b, m !! cid = Some b → battle_wf cid b.

End Battle.

(** * Arena rooms ([GameManager], [ConnectionManager], [MessageHandler],
      [UnifiedServer]) *)

Module Arena.

Record ClientConnection := mkConn {
  ws : nat;
  playerId : string;
  c_gameId : Z;
  lastHeartbeat : Z;
  isAlive : bool
}.

Record GameSession := mkGame {
  gameId : Z;
  phase : Phase;
  countdownStartTime : option Z;
  countdownDuration : Z;
  players : list (string * PlayerState);
  readyPlayers : list string;
  startTime : option Z;
  winner : option string
}.

(** Callbacks handed to [setTimeout]. *)
Inductive Timer :=
  | t_countdown (gameId : Z)    (* [startGame]: [transitionToActive] *)
  | t_auto_start (gameId : Z)   (* [checkAutoStart]: [startGame], +1000 ms *)
  | t_deadline (gameId : Z).    (* [startDeadlineMonitor]: [checkAutoStart] *)

(** The whole server.  A connection id, the string
    [`${gameId}-${playerId}`], is the pair it is printed from: the
    decimal [gameId] ends at the first [-] that follows a digit. *)
Record Server := mkServer {
  games : gmap Z GameSession;                      (* GameManager *)
  gameTimers : gmap Z nat;
  connections : gmap (Z * string) ClientConnection; (* ConnectionManager *)
  gameConnections : gmap Z (list (Z * string));
  gameDeadlineTimers : gmap Z nat;                 (* UnifiedServer *)
  open : gset nat;                                 (* sockets in OPEN *)
  sent : list Frame;                               (* frames sent so far *)
  pending : gmap nat (Timer * Z);                  (* armed timers, delay *)
  nextTimer : nat
}.

Definition init : Server := mkServer ∅ ∅ ∅ ∅ ∅ ∅ [] ∅ 0.

Definition with_games (m : gmap Z GameSession) (s : Server) : Server :=
  mkServer m (gameTimers s) (connections s) (gameConnections s)
    (gameDeadlineTimers s) (open s) (sent s) (pending s) (nextTimer s).

Definition with_gameTimers (m : gmap Z nat) (s : Server) : Server :=
  mkServer (games s) m (connections s) (gameConnections s)
    (gameDeadlineTimers s) (open s) (sent s) (pending s) (nextTimer s).

Definition with_connections (m : gmap (Z * string) ClientConnection)
    (s : Server) : Server :=
  mkServer (games s) (gameTimers s) m (gameConnections s)
    (gameDeadlineTimers s) (open s) (sent s) (pending s) (nextTimer s).

Definition with_gameConnections (m : gmap Z (list (Z * string)))
    (s : Server) : Server :=
  mkServer (games s) (gameTimers s) (connections s) m
    (gameDeadlineTimers s) (open s) (sent s) (pending s) (nextTimer s).

Definition with_gameDeadlineTimers (m : gmap Z nat) (s : Server) : Server :=
  mkServer (games s) (gameTimers s) (connections s) (gameConnections s)
    m (open s) (sent s) (pending s) (nextTimer s).

Definition with_open (o : gset nat) (s : Server) : Server :=
  mkServer (games s) (gameTimers s) (connections s) (gameConnections s)
    (gameDeadlineTimers s) o (sent s) (pending s) (nextTimer s).

Definition with_sent (l : list Frame) (s : Server) : Server :=
  mkServer (games s) (gameTimers s) (connections s) (gameConnections s)
    (gameDeadlineTimers s) (open s) l (pending s) (nextTimer s).

Definition with_pending (m : gmap nat (Timer * Z)) (s : Server) : Server :=
  mkServer (games s) (gameTimers s) (connections s) (gameConnections s)
    (gameDeadlineTimers s) (open s) (sent s) m (nextTimer s).

(** *** Sockets and timers *)

(** [ws.send]. *)
Definition send (w : nat) (msg : Msg) (s : Server) : Server :=
  with_sent (sent s ++ [(w, msg)]) s.

(** [ws.close()]. *)
Definition ws_close (w : nat) (s : Server) : Server :=
  with_open (open s ∖ {[w]}) s.

(** A socket is [OPEN] when the [connection] handler runs. *)
Definition ws_open (w : nat) (s : Server) : Server :=
  with_open ({[w]} ∪ open s) s.

Definition setTimeout (cb : Timer) (delay : Z) (s : Server) : nat * Server :=
  (nextTimer s,
   mkServer (games s) (gameTimers s) (connections s) (gameConnections s)
     (gameDeadlineTimers s) (open s) (sent s)
     (<[nextTimer s := (cb, delay)]> (pending s)) (S (nextTimer s))).

Definition clearTimeout (t : nat) (s : Server) : Server :=
  with_pending (delete t (pending s)) s.

(** *** ConnectionManager *)

Definition addConnection (w : nat) (p : string) (g : Z) (now : Z)
    (s : Server) : Server :=
  let s1 := with_connections
              (<[(g, p) := mkConn w p g now true]> (connections s)) s in
  let conns := default [] (gameConnections s1 !! g) in
  with_gameConnections
    (<[g := Js.set_add (g, p) conns]> (gameConnections s1)) s1.

Definition removeConnection (p : string) (g : Z) (s : Server) : Server :=
  let s1 := with_connections (delete (g, p) (connections s)) s in
  match gameConnections s1 !! g with
  | Some gameConns =>
      let conns := Js.set_delete (g, p) gameConns in
      if decide (length conns = 0)
      then with_gameConnections (delete g (gameConnections s1)) s1
      else with_gameConnections (<[g := conns]> (gameConnections s1)) s1
  | None => s1
  end.

Definition updateHeartbeat (p : string) (g : Z) (now : Z) (s : Server)
    : Server :=
  match connections s !! (g, p) with
  | Some conn =>
      with_connections
        (<[(g, p) := mkConn (ws conn) (playerId conn) (c_gameId conn)
                       now true]> (connections s)) s
  | None => s
  end.

(** [!excludePlayerId || conn.playerId !== excludePlayerId]. *)
Definition not_excluded (exclude : option string) (p : string) : bool :=
  match exclude with
  | None => true
  | Some e => negb (Js.truthy e) || negb (bool_decide (p = e))
  end.

Definition broadcastToGame (g : Z) (msg : Msg) (exclude : option string)
    (s : Server) : Server :=
  match gameConnections s !! g with
  | None => s
  | Some gameConns =>
      foldl (λ acc cid,
               match connections acc !! cid with
               | Some conn =>
                   if decide (ws conn ∈ open acc) then
                     if not_excluded exclude (playerId conn)
                     then send (ws conn) msg acc else acc
                   else acc
               | None => acc
               end)
            s gameConns
  end.

Definition sendToPlayer (p : string) (g : Z) (msg : Msg) (s : Server)
    : Server :=
  match connections s !! (g, p) with
  | Some conn => if decide (ws conn ∈ open s) then send (ws conn) msg s else s
  | None => s
  end.

Definition getGamePlayerIds (g : Z) (s : Server) : list string :=
  match gameConnections s !! g with
  | None => []
  | Some gameConns =>
      omap (λ cid, playerId <$> connections s !! cid) gameConns
  end.

Definition checkStaleConnections (now : Z) (s : Server) : Server :=
  map_fold (λ _ conn acc,
              if decide (now - lastHeartbeat conn > 60000)%Z then
                let acc1 := if decide (ws conn ∈ open acc)
                            then ws_close (ws conn) acc else acc in
                removeConnection (playerId conn) (c_gameId conn) acc1
              else acc)
           s (connections s).

(** *** GameManager *)

Definition put (g : Z) (game : GameSession) (s : Server) : Server :=
  with_games (<[g := game]> (games s)) s.

Definition new_game (g : Z) : GameSession :=
  mkGame g waiting None 15000 [] [] None None.

Definition getOrCreateGame (g : Z) (s : Server) : Server :=
  match games s !! g with
  | Some _ => s
  | None => put g (new_game g) s
  end.

(** [addPlayer] obtains the session and logs; it stores nothing. *)
Definition addPlayer (g : Z) (p : string) (s : Server) : Server :=
  getOrCreateGame g s.

Definition clearGameTimer (g : Z) (s : Server) : Server :=
  match gameTimers s !! g with
  | Some timer =>
      let s1 := clearTimeout timer s in
      with_gameTimers (delete g (gameTimers s1)) s1
  | None => s
  end.

Definition removePlayer (g : Z) (p : string) (s : Server) : Server :=
  match games s !! g with
  | None => s
  | Some game =>
      let game' := mkGame (gameId game) (phase game)
                     (countdownStartTime game) (countdownDuration game)
                     (Js.map_delete p (players game))
                     (Js.set_delete p (readyPlayers game))
                     (startTime game) (winner game) in
      let s1 := put g game' s in
      if decide (length (players game') = 0) then
        let s2 := clearGameTimer g s1 in
        with_games (delete g (games s2)) s2
      else s1
  end.

Definition updatePlayerState (g : Z) (p : string) (state : PlayerState)
    (s : Server) : Server :=
  match games s !! g with
  | None => s
  | Some game =>
      put g (mkGame (gameId game) (phase game) (countdownStartTime game)
               (countdownDuration game) (Js.map_set p state (players game))
               (readyPlayers game) (startTime game) (winner game)) s
  end.

Definition view (game : GameSession) (total : nat) : GameStateView :=
  mkView (phase game) (countdownStartTime game) (countdownDuration game)
    (length (readyPlayers game)) total.

(** [broadcastGameState], the same body in [MessageHandler] and in
    [UnifiedServer]; the latter is also the [onGameStateChange]
    callback the constructor installs. *)
Definition broadcastGameState (g : Z) (s : Server) : Server :=
  match games s !! g with
  | None => s
  | Some game =>
      broadcastToGame g
        (game_state_update (view game (length (getGamePlayerIds g s))))
        None s
  end.

Definition onGameStateChange (g : Z) (s : Server) : Server :=
  broadcastGameState g s.

Definition markPlayerReady (g : Z) (p : string) (s : Server) : Server :=
  let s1 := getOrCreateGame g s in
  match games s1 !! g with
  | Some game =>
      onGameStateChange g
        (put g (mkGame (gameId game) (phase game) (countdownStartTime game)
                  (countdownDuration game) (players game)
                  (Js.set_add p (readyPlayers game))
                  (startTime game) (winner game)) s1)
  | None => s1
  end.

Record CanStart := mkCanStart {
  canStart : bool;
  reason : string;
  readyCount : nat
}.

Definition canStartGame (g : Z) (s : Server) : CanStart :=
  match games s !! g with
  | None => mkCanStart false "Game not found" 0
  | Some game =>
      let n := length (readyPlayers game) in
      if decide (phase game ≠ waiting) then
        mkCanStart false
          ("Game already in phase: " +:+ phase_name (phase game)) n
      else if decide (n = 0) then mkCanStart false "No players ready" 0
      else if decide (n = 1) then
        mkCanStart true "Auto-winner (1 player ready)" 1
      else
        mkCanStart true (pretty n +:+ " players ready for battle") n
  end.

Record StartResult := mkResult {
  success : bool;
  message : string;
  gameState : option GameSession
}.

Definition startGame (g : Z) (now : Z) (s : Server) : StartResult * Server :=
  match games s !! g with
  | None => (mkResult false "Game not found" None, s)
  | Some game =>
      let c := canStartGame g s in
      if negb (canStart c) then (mkResult false (reason c) None, s)
      else if decide (readyCount c = 1) then
        let game' := mkGame (gameId game) ended (countdownStartTime game)
                       (countdownDuration game) (players game)
                       (readyPlayers game) (startTime game)
                       (head (readyPlayers game)) in
        (mkResult true "Auto-winner declared" (Some game'), put g game' s)
      else
        let game' := mkGame (gameId game) countdown (Some now)
                       (countdownDuration game) (players game)
                       (readyPlayers game) (startTime game) (winner game) in
        let '(timer, s1) :=
          setTimeout (t_countdown g) (countdownDuration game') (put g game' s) in
        (mkResult true "Countdown started" (Some game'),
         with_gameTimers (<[g := timer]> (gameTimers s1)) s1)
  end.

Definition transitionToActive (g : Z) (now : Z) (s : Server) : Server :=
  match games s !! g with
  | None => s
  | Some game =>
      onGameStateChange g
        (put g (mkGame (gameId game) active (countdownStartTime game)
                  (countdownDuration game) (players game)
                  (readyPlayers game) (Some now) (winner game)) s)
  end.

(** [declareWinner].  [winnerId] is [None] for a value that is no
    string: the session is written and the timer cleared before the
    log line throws on it; what the exception skips is in the
    callers. *)
Definition declareWinner (g : Z) (winnerId : option string) (s : Server)
    : Server :=
  match games s !! g with
  | None => s
  | Some game =>
      clearGameTimer g
        (put g (mkGame (gameId game) ended (countdownStartTime game)
                  (countdownDuration game) (players game)
                  (readyPlayers game) (startTime game) winnerId) s)
  end.

(** *** MessageHandler *)

(** Inbound arena frames, by [message.type]; payloads are the fields
    the handlers read. *)
Inductive Inbound :=
  | heartbeat
  | mark_ready
  | start_game
  | update_in (data : PlayerState)
  | eliminated_in
  | winner_in (winnerId : option string)
  | set_deadline (deadline : Z)
  | unknown (type : string).

Definition handleHeartbeat (p : string) (g : Z) (now : Z) (s : Server)
    : Server :=
  updateHeartbeat p g now s.

Definition handleMarkReady (p : string) (g : Z) (s : Server) : Server :=
  let s1 := markPlayerReady g p s in
  match games s1 !! g with
  | Some _ => broadcastGameState g s1
  | None => s1
  end.

Definition handleStartGame (p : string) (g : Z) (now : Z) (s : Server)
    : Server :=
  let '(result, s1) := startGame g now s in
  match success result, gameState result with
  | true, Some gs =>
      let s2 := broadcastGameState g s1 in
      if decide (phase gs = ended)
      then broadcastToGame g (winner_msg (winner gs)) None s2
      else s2
  | _, _ => sendToPlayer p g (error_msg (message result)) s1
  end.

Definition handlePlayerUpdate (p : string) (g : Z) (state : PlayerState)
    (s : Server) : Server :=
  broadcastToGame g (update p state) (Some p)
    (updatePlayerState g p state s).

(** [Array.from(game.players.values()).filter(p => p.alive)]: [None]
    when a stored state is [null] or absent, where reading [p.alive]
    throws. *)
Definition alive_players (states : list PlayerState)
    : option (list PlayerFields) :=
  filter (λ q, ps_alive q = true) <$> mapM id states.

(** An exception leaves the handler at once and is caught in
    [handleMessage]: after a throwing filter nothing more is done, and
    after a [declareWinner] that throws on a missing [id] the [winner]
    frame is not sent. *)
Definition handleEliminated (p : string) (g : Z) (s : Server) : Server :=
  let s1 := broadcastToGame g (eliminated p) None s in
  match games s1 !! g with
  | Some game =>
      if decide (phase game = active) then
        match alive_players (Js.values (players game)) with
        | Some [w] =>   (* length <= 1 && length > 0 *)
            let s2 := declareWinner g (ps_id w) s1 in
            match ps_id w with
            | Some winnerId =>
                broadcastToGame g (winner_msg (Some winnerId)) None s2
            | None => s2
            end
        | _ => s1
        end
      else s1
  | None => s1
  end.

(** A [winner] frame without a string [winnerId] throws in the
    handler's first statement; [handleMessage] catches it. *)
Definition handleWinner (g : Z) (winnerId : option string) (s : Server)
    : Server :=
  match winnerId with
  | Some w =>
      broadcastToGame g (winner_msg (Some w)) None (declareWinner g (Some w) s)
  | None => s
  end.

Definition handleMessage (p : string) (g : Z) (msg : Inbound) (now : Z)
    (s : Server) : Server :=
  match msg with
  | heartbeat => handleHeartbeat p g now s
  | mark_ready => handleMarkReady p g s
  | start_game => handleStartGame p g now s
  | update_in data => handlePlayerUpdate p g data s
  | eliminated_in => handleEliminated p g s
  | winner_in w => handleWinner g w s
  | set_deadline _ => s
  | unknown _ => s
  end.

(** *** UnifiedServer *)

Definition checkAutoStart (g : Z) (s : Server) : Server :=
  if canStart (canStartGame g s)
  then (setTimeout (t_auto_start g) 1000 s).2
  else s.

Definition startDeadlineMonitor (g : Z) (deadline : Z) (now : Z)
    (s : Server) : Server :=
  let s1 := match gameDeadlineTimers s !! g with
            | Some t => clearTimeout t s
            | None => s
            end in
  let timeUntilDeadline := (deadline - now)%Z in
  if decide (timeUntilDeadline ≤ 0)%Z then checkAutoStart g s1
  else
    let '(timer, s2) := setTimeout (t_deadline g) timeUntilDeadline s1 in
    with_gameDeadlineTimers (<[g := timer]> (gameDeadlineTimers s2)) s2.

Definition handlePhase3Message (p : string) (g : Z) (msg : Inbound)
    (now : Z) (s : Server) : Server :=
  match msg with
  | set_deadline deadline => startDeadlineMonitor g deadline now s
  | mark_ready => checkAutoStart g (handleMessage p g msg now s)
  | _ => handleMessage p g msg now s
  end.

Definition sendInitialGameState (w : nat) (g : Z) (s : Server) : Server :=
  match games s !! g with
  | None => s
  | Some game =>
      let msg := game_state_update
                   (view game (length (getGamePlayerIds g s))) in
      let s1 := if decide (w ∈ open s) then send w msg s else s in
      if decide (0 < length (players game)) then
        if decide (w ∈ open s1)
        then send w (sync (Js.values (players game))) s1 else s1
      else s1
  end.

(** [handlePhase3Connection]; [g] is [parseInt(query.gameId)], with
    [None] for [NaN]. *)
Definition handlePhase3Connection (w : nat) (g : option Z) (p : string)
    (now : Z) (s : Server) : Server :=
  match g with
  | Some g =>
      if bool_decide (g = 0%Z) || negb (Js.truthy p) then ws_close w s
      else
        let s1 := addConnection w p g now s in
        let s2 := addPlayer g p s1 in
        let s3 := sendInitialGameState w g s2 in
        broadcastToGame g (player_connected p) (Some p) s3
  | None => ws_close w s
  end.

(** The [close] handler registered by [handlePhase3Connection]. *)
Definition on_close (p : string) (g : Z) (s : Server) : Server :=
  let s1 := removeConnection p g s in
  let s2 := removePlayer g p s1 in
  broadcastToGame g (player_disconnected p) None s2.

(** The body of a timer callback. *)
Definition run_timer (t : Timer) (now : Z) (s : Server) : Server :=
  match t with
  | t_countdown g => transitionToActive g now s
  | t_auto_start g =>
      let '(result, s1) := startGame g now s in
      if success result then broadcastGameState g s1 else s1
  | t_deadline g => checkAutoStart g s
  end.

(** Events applied to the server, one at a time. *)
Inductive Event :=
  | ev_connect (w : nat) (gameId : option Z) (playerId : string) (now : Z)
  | ev_message (playerId : string) (gameId : Z) (msg : Inbound) (now : Z)
  | ev_close (playerId : string) (gameId : Z)
  | ev_fire (timer : nat) (now : Z)
  | ev_socket_down (w : nat)
  | ev_health_check (now : Z).

Definition step (s : Server) (e : Event) : Server :=
  match e with
  | ev_connect w g p now => handlePhase3Connection w g p now (ws_open w s)
  | ev_message p g msg now => handlePhase3Message p g msg now s
  | ev_close p g => on_close p g s
  | ev_fire t now =>
      match pending s !! t with
      | Some (cb, _) => run_timer cb now (clearTimeout t s)
      | None => s
      end
  | ev_socket_down w => ws_close w s
  | ev_health_check now => checkStaleConnections now s
  end.

Definition run (es : list Event) : Server := foldl step init es.

Global Arguments run : simpl never.

(** *** Specification side *)

(** The order [waiting < countdown < active < ended]. *)
Definition phase_rank (p : Phase) : nat :=
  match p with
  | waiting => 0
  | countdown => 1
  | active => 2
  | ended => 3
  end.

Definition phase_le (p q : Phase) : Prop := phase_rank p ≤ phase_rank q.

(** The frames a broadcast hands out over the connection ids [ids],
    in iteration order: one per registered connection whose socket is
    [OPEN] and whose peer is not excluded. *)
Definition frames_of (cs : gmap (Z * string) ClientConnection)
    (op : gset nat) (msg : Msg) (exclude : option string)
    (ids : list (Z * string)) : list Frame :=
  omap (λ cid,
          match cs !! cid with
          | Some conn =>
              if decide (ws conn ∈ op) then
                if not_excluded exclude (playerId conn)
                then Some (ws conn, msg) else None
              else None
          | None => None
          end) ids.

Definition room_frames (g : Z) (msg : Msg) (exclude : option string)
    (s : Server) : list Frame :=
  frames_of (connections s) (open s) msg exclude
    (default [] (gameConnections s !! g)).

(** The frame [sendToPlayer] hands out, if any. *)
Definition player_frames (p : string) (g : Z) (msg : Msg) (s : Server)
    : list Frame :=
  match connections s !! (g, p) with
  | Some conn => if decide (ws conn ∈ open s) then [(ws conn, msg)] else []
  | None => []
  end.

(** The frames of [broadcastGameState]. *)
Definition state_frames (g : Z) (s : Server) : list Frame :=
  match games s !! g with
  | Some game =>
      room_frames g
        (game_state_update (view game (length (getGamePlayerIds g s))))
        None s
  | None => []
  end.

(** The peer an event is an [update] frame of, for room [g]. *)
Definition is_update_from (g : Z) (e : Event) : option string :=
  match e with
  | ev_message p g' (update_in _) _ => if decide (g' = g) then Some p else None
  | _ => None
  end.

(** The peers that have sent [update] to room [g] since its current
    session was created, along the events [es] applied from [s];
    [acc] holds those of the events before [s].  Nothing is kept while
    the room has no session. *)
Fixpoint updaters_from (g : Z) (s : Server) (acc : list string)
    (es : list Event) : list string :=
  match es with
  | [] => acc
  | e :: es' =>
      let s' := step s e in
      let acc1 := match games s !! g with Some _ => acc | None => [] end in
      let acc2 := match is_update_from g e with
                  | Some p => p :: acc1
                  | None => acc1
                  end in
      let acc3 := match games s' !! g with Some _ => acc2 | None => [] end in
      updaters_from g s' acc3 es'
  end.

Definition updaters (g : Z) (es : list Event) : list string :=
  updaters_from g init [] es.

(** The session [markPlayerReady] stores for room [g]: the present
    one, or a new one, with [p] added to the ready set. *)
Definition ready_game (g : Z) (p : string) (s : Server) : GameSession :=
  let game := default (new_game g) (games s !! g) in
  mkGame (gameId game) (phase game) (countdownStartTime game)
    (countdownDuration game) (players game)
    (Js.set_add p (readyPlayers game)) (startTime game) (winner game).

(** Every armed countdown timer is the one [gameTimers] records for
    its room, and that room's session is in the countdown phase. *)
Definition timers_ok (s : Server) : Prop :=
  ∀ t g d,
    pending s !! t = Some (t_countdown g, d) →
    gameTimers s !! g = Some t
    ∧ ∃ game, games s !! g = Some game ∧ phase game = countdown.

(** From [s] to [s'] no session that persists moves back in phase. *)
Definition mono (s s' : Server) : Prop :=
  ∀ g a b,
    games s !! g = Some a → games s' !! g = Some b →
    phase_le (phase a) (phase b).

(** [s'] has the sessions and countdown handles of [s] and arms no
    countdown timer that [s] has not. *)
Definition pend_sub (s s' : Server) : Prop :=
  games s' = games s
  ∧ gameTimers s' = gameTimers s
  ∧ ∀ t g d,
      pending s' !! t = Some (t_countdown g, d) →
      pending s !! t = Some (t_countdown g, d).

(** A transition that keeps the timer invariant and moves no phase
    back. *)
Definition gm_ok (s s' : Server) : Prop :=
  timers_ok s → timers_ok s' ∧ mono s s'.

(** Peer [q] is on the roster of room [g] in [s'] only if it was in
    [s]. *)
Definition roster_sub (g : Z) (q : string) (s s' : Server) : Prop :=
  ∀ game',
    games s' !! g = Some game' → q ∈ Js.keys (players game') →
    ∃ game, games s !! g = Some game ∧ q ∈ Js.keys (players game).

(** What every stored session satisfies: it is stored under its own
    id, its countdown lasts 15 s, its roster and ready set list no peer
    twice, and until it has ended its time stamps fit its phase and it
    has no winner. *)
Definition session_wf (g : Z) (game : GameSession) : Prop :=
  gameId game = g
  ∧ countdownDuration game = 15000%Z
  ∧ NoDup (Js.keys (players game))
  ∧ NoDup (readyPlayers game)
  ∧ match phase game with
    | waiting =>
        countdownStartTime game = None ∧ startTime game = None
        ∧ winner game = None
    | countdown =>
        is_Some (countdownStartTime game) ∧ startTime game = None
        ∧ winner game = None
    | active =>
        is_Some (countdownStartTime game) ∧ is_Some (startTime game)
        ∧ winner game = None
    | ended => True
    end.

Definition sessions_wf (m : gmap Z GameSession) : Prop :=
  ∀ g game, m !! g = Some game → session_wf g game.

(** A transition that keeps the timer invariant together with the
    well-formedness of the sessions. *)
Definition keeps (s s' : Server) : Prop :=
  timers_ok s ∧ sessions_wf (games s) →
  timers_ok s' ∧ sessions_wf (games s').

(** The connection registry is consistent: a record is stored under
    the pair of its own [gameId] and [playerId] and is listed in the
    index of its room; an index entry is never empty, lists no id
    twice, and lists only ids of its room that have a record. *)
Definition registry_ok (s : Server) : Prop :=
  (∀ g p c, connections s !! (g, p) = Some c →
     c_gameId c = g ∧ playerId c = p
     ∧ ∃ ids, gameConnections s !! g = Some ids ∧ (g, p) ∈ ids)
  ∧ (∀ g ids, gameConnections s !! g = Some ids →
       ids ≠ [] ∧ NoDup ids
       ∧ ∀ cid, cid ∈ ids → cid.1 = g ∧ is_Some (connections s !! cid)).

(** [s'] has the connection registry of [s]. *)
Definition reg_same (s s' : Server) : Prop :=
  connections s' = connections s ∧ gameConnections s' = gameConnections s.

(** [now - conn.lastHeartbeat > staleTimeout]. *)
Definition stale (now : Z) (c : ClientConnection) : Prop :=
  (now - lastHeartbeat c > 60000)%Z.

(** The timer table is consistent: every armed timer has a handle
    below the next one to be issued, and an armed deadline timer is the
    one [gameDeadlineTimers] records for its room. *)
Definition deadlines_ok (s : Server) : Prop :=
  (∀ t cb d, pending s !! t = Some (cb, d) → t < nextTimer s)
  ∧ ∀ t g d,
      pending s !! t = Some (t_deadline g, d) →
      gameDeadlineTimers s !! g = Some t.

(** [s'] has the deadline handles of [s], and every timer armed in
    [s'] either was armed in [s] or is a new one that is no deadline
    timer. *)
Definition dl_sub (s s' : Server) : Prop :=
  gameDeadlineTimers s' = gameDeadlineTimers s
  ∧ nextTimer s ≤ nextTimer s'
  ∧ ∀ t cb d,
      pending s' !! t = Some (cb, d) →
      pending s !! t = Some (cb, d)
      ∨ (nextTimer s ≤ t < nextTimer s' ∧ ∀ g, cb ≠ t_deadline g).

End Arena.

(** * The other revisions of the server *)

(** ** The compact revision of [server.ts]: the auto-start gate *)

Module Clean.
Import Arena.

(** [GameManager.canStartGame] of the compact revision returns
    [{ canStart: readyCount >= 2, readyCount }]. *)
Definition canStartGame (g : Z) (s : Server) : bool * nat :=
  match games s !! g with
  | None => (false, 0)
  | Some game =>
      let n := length (readyPlayers game) in
      (bool_decide (2 ≤ n), n)
  end.

Definition checkAutoStart (g : Z) (s : Server) : Server :=
  if (canStartGame g s).1
  then (setTimeout (t_auto_start g) 1000 s).2
  else s.

End Clean.

(** ** The legacy [server.js]: [heartbeat] and [eliminated] *)

Module Legacy.

(** A JSON object as the legacy server handles player state: the
    fields in order, each a boolean, a number or a string. *)
Inductive JsValue :=
  | JBool (b : bool)
  | JNum (n : Z)
  | JStr (s : string).

Global Instance JsValue_eq_dec : EqDecision JsValue.
Proof. solve_decision. Defined.

(** An entry of [GameRoom.players]. *)
Record Player := mkPlayer {
  id : string;
  p_ws : nat;
  state : option (list (string * JsValue));
  lastUpdate : Z;
  alive : bool
}.

Record GameRoom := mkRoom {
  gameId : string;
  players : list (string * Player);
  clients : list nat;
  createdAt : Z
}.

(** The properties the server hangs on a socket object. *)
Record Socket := mkSocket {
  s_gameId : string;
  s_playerId : string;
  isAlive : bool;
  joinedAt : Z
}.

(** A legacy frame carries a [timestamp] next to its payload. *)
Record State := mkState {
  games : gmap string GameRoom;
  sockets : gmap nat Socket;
  open : gset nat;
  sent : list (nat * Msg * Z)
}.

Definition send (w : nat) (msg : Msg) (ts : Z) (s : State) : State :=
  mkState (games s) (sockets s) (open s) (sent s ++ [(w, msg, ts)]).

(** [state.alive !== false]. *)
Definition alive_of (st : list (string * JsValue)) : bool :=
  negb (bool_decide (Js.map_get "alive" st = Some (JBool false))).

(** [GameRoom.updatePlayerState]. *)
Definition updatePlayerState (pid : string) (st : list (string * JsValue))
    (now : Z) (room : GameRoom) : GameRoom :=
  match Js.map_get pid (players room) with
  | Some player =>
      mkRoom (gameId room)
        (Js.map_set pid (mkPlayer (id player) (p_ws player) (Some st) now
                           (alive_of st)) (players room))
        (clients room) (createdAt room)
  | None => room
  end.

(** [GameRoom.broadcast]. *)
Definition broadcast (room : GameRoom) (msg : Msg) (ts : Z)
    (exclude : option string) (s : State) : State :=
  foldl (λ acc client,
           if decide (client ∈ open acc) then
             let pid := default "" (s_playerId <$> sockets acc !! client) in
             if match exclude with
                | None => true
                | Some e => negb (Js.truthy e) || negb (bool_decide (pid = e))
                end
             then send client msg ts acc else acc
           else acc)
        s (clients room).

(** The two cases of [handleMessage] the arena protocol shares with
    the TypeScript server. *)
Inductive Inbound :=
  | heartbeat
  | eliminated_in.

Definition handleMessage (w : nat) (msg : Inbound) (now : Z) (s : State)
    : State :=
  match sockets s !! w with
  | None => s
  | Some sock =>
      match msg with
      | heartbeat =>
          let s1 := mkState (games s)
                      (<[w := mkSocket (s_gameId sock) (s_playerId sock) true
                                (joinedAt sock)]> (sockets s))
                      (open s) (sent s) in
          send w (heartbeat_ack now) now s1
      | eliminated_in =>
          match games s !! s_gameId sock with
          | None => s
          | Some room =>
              let pid := s_playerId sock in
              let old := default [] (Js.map_get pid (players room)
                                       ≫= state) in
              let room' := updatePlayerState pid
                             (Js.map_set "alive" (JBool false) old) now room in
              let s1 := mkState (<[s_gameId sock := room']> (games s))
                          (sockets s) (open s) (sent s) in
              broadcast room' (eliminated pid) now None s1
          end
      end
  end.

End Legacy.

(** * Properties *)

(** ** Insertion-ordered maps *)

Module JsFacts.

Lemma map_get_set {V} k (v : V) m : Js.map_get k (Js.map_set k v m) = Some v.
Proof.
  induction m as [|[k' v'] m IH]; simpl.
  - by rewrite decide_True.
  - destruct (decide (k' = k)) as [->|Hne]; simpl.
    + by rewrite decide_True.
    + by rewrite decide_False.
Qed.

Lemma map_get_set_ne {V} k k' (v : V) m :
  k' ≠ k → Js.map_get k' (Js.map_set k v m) = Js.map_get k' m.
Proof.
  intros Hne. induction m as [|[k0 v0] m IH]; simpl.
  - by rewrite decide_False.
  - destruct (decide (k0 = k)) as [->|Hne0]; simpl.
    + by rewrite !decide_False.
    + by rewrite IH.
Qed.

Lemma keys_map_set {V} k (v : V) m q :
  q ∈ Js.keys (Js.map_set k v m) ↔ q = k ∨ q ∈ Js.keys m.
Proof.
  unfold Js.keys. induction m as [|[k' v'] m IH]; simpl.
  - rewrite list_elem_of_singleton. split; [by left|].
    intros [?|H]; [done|]. by apply elem_of_nil in H.
  - destruct (decide (k' = k)) as [->|Hne]; simpl.
    + rewrite !elem_of_cons. tauto.
    + rewrite !elem_of_cons, IH. tauto.
Qed.

Lemma keys_map_delete {V} k (m : list (string * V)) q :
  q ∈ Js.keys (Js.map_delete k m) → q ∈ Js.keys m.
Proof.
  unfold Js.keys, Js.map_delete. rewrite !list_elem_of_fmap.
  intros (kv & -> & Hin). apply list_elem_of_filter in Hin as [_ Hin].
  by exists kv.
Qed.

Lemma NoDup_set_add {A} `{EqDecision A} (x : A) l :
  NoDup l → NoDup (Js.set_add x l).
Proof.
  intros Hl. unfold Js.set_add. case_decide; [done|].
  apply NoDup_app. split_and!; [done| |apply NoDup_singleton].
  intros y Hy Hy'. apply list_elem_of_singleton in Hy'. by subst.
Qed.

Lemma elem_of_set_add {A} `{EqDecision A} (x y : A) l :
  y ∈ Js.set_add x l ↔ y = x ∨ y ∈ l.
Proof.
  unfold Js.set_add. case_decide.
  - split; [by right|]. by intros [->|?].
  - rewrite elem_of_app, list_elem_of_singleton. tauto.
Qed.

(** [Set.prototype.add] twice is [add] once. *)
Lemma set_add_idemp {A} `{EqDecision A} (x : A) l :
  Js.set_add x (Js.set_add x l) = Js.set_add x l.
Proof.
  unfold Js.set_add at 1. rewrite decide_True; [done|].
  apply elem_of_set_add. by left.
Qed.

Lemma elem_of_set_delete {A} `{EqDecision A} (x y : A) l :
  y ∈ Js.set_delete x l ↔ y ≠ x ∧ y ∈ l.
Proof. unfold Js.set_delete. by rewrite list_elem_of_filter. Qed.

Lemma NoDup_set_delete {A} `{EqDecision A} (x : A) l :
  NoDup l → NoDup (Js.set_delete x l).
Proof. apply NoDup_filter. Qed.

Lemma keys_map_set_eq {V} k (v : V) m :
  Js.keys (Js.map_set k v m)
  = if decide (k ∈ Js.keys m) then Js.keys m else Js.keys m ++ [k].
Proof.
  unfold Js.keys. induction m as [|[k' v'] m IH]; cbn.
  - by rewrite decide_False by apply not_elem_of_nil.
  - destruct (decide (k' = k)) as [->|Hne]; cbn.
    + rewrite decide_True; [done|apply list_elem_of_here].
    + rewrite IH. destruct (decide (k ∈ m.*1)) as [Hin|Hnin].
      * rewrite decide_True; [done|by apply list_elem_of_further].
      * rewrite decide_False; [done|].
        rewrite elem_of_cons. intros [->|?]; done.
Qed.

Lemma NoDup_keys_map_set {V} k (v : V) m :
  NoDup (Js.keys m) → NoDup (Js.keys (Js.map_set k v m)).
Proof.
  intros Hm. rewrite keys_map_set_eq. case_decide; [done|].
  apply NoDup_app. split_and!; [done| |apply NoDup_singleton].
  intros y Hy Hy'. apply list_elem_of_singleton in Hy'. by subst.
Qed.

Lemma keys_map_delete_iff {V} k (m : list (string * V)) q :
  q ∈ Js.keys (Js.map_delete k m) ↔ q ≠ k ∧ q ∈ Js.keys m.
Proof.
  unfold Js.keys, Js.map_delete. rewrite !list_elem_of_fmap. split.
  - intros (kv & -> & Hin). apply list_elem_of_filter in Hin as [Hne Hin].
    split; [done|]. by exists kv.
  - intros (Hne & kv & -> & Hin). exists kv. split; [done|].
    by apply list_elem_of_filter.
Qed.

Lemma keys_map_delete_eq {V} k (m : list (string * V)) :
  Js.keys (Js.map_delete k m) = filter (λ q, q ≠ k) (Js.keys m).
Proof.
  unfold Js.keys, Js.map_delete. induction m as [|[k' v'] m IH]; [done|].
  rewrite fmap_cons, !filter_cons. cbn [fst].
  destruct (decide (k' ≠ k)); [|done]. rewrite fmap_cons. cbn [fst].
  by rewrite IH.
Qed.

Lemma NoDup_keys_map_delete {V} k (m : list (string * V)) :
  NoDup (Js.keys m) → NoDup (Js.keys (Js.map_delete k m)).
Proof. rewrite keys_map_delete_eq. apply NoDup_filter. Qed.

(** [Map.prototype.get] after [delete]. *)
Lemma map_get_delete {V} k (m : list (string * V)) :
  Js.map_get k (Js.map_delete k m) = None.
Proof.
  unfold Js.map_delete. induction m as [|[k' v'] m IH]; [done|].
  rewrite filter_cons. cbn [fst].
  destruct (decide (k' ≠ k)); [|done]. cbn. by rewrite decide_False.
Qed.

Lemma map_get_Some_keys {V} k (v : V) m :
  Js.map_get k m = Some v → k ∈ Js.keys m.
Proof.
  unfold Js.keys. induction m as [|[k' v'] m IH]; cbn; [done|].
  case_decide as Hk; [subst; intros _; apply list_elem_of_here|].
  intros H. by apply list_elem_of_further, IH.
Qed.

Lemma length_set_add {A} `{EqDecision A} (x : A) l :
  length (Js.set_add x l) = length l ∨ length (Js.set_add x l) = S (length l).
Proof.
  unfold Js.set_add. case_decide; [by left|right].
  rewrite length_app. cbn. lia.
Qed.

Lemma set_add_not_nil {A} `{EqDecision A} (x : A) l : Js.set_add x l ≠ [].
Proof.
  unfold Js.set_add. case_decide as Hin.
  - intros ->. by apply elem_of_nil in Hin.
  - by destruct l.
Qed.

End JsFacts.
(** ** Battle rooms: frame lemmas *)

Module BattleFacts.
Import Battle.

Lemma battle_run_snoc es e : run (es ++ [e]) = step (run es) e.
Proof. unfold run. by rewrite foldl_snoc. Qed.

Lemma sendTo_fields ws msg s :
  battles (sendTo ws msg s) = battles s
  ∧ open (sendTo ws msg s) = open s
  ∧ pending (sendTo ws msg s) = pending s.
Proof. unfold sendTo. by case_decide. Qed.

Lemma battle_broadcast_loop (conns : list (string * nat)) msg ex s :
  let s' := foldl (λ acc '(pid, ws),
              if decide (Some pid ≠ ex) then sendTo ws msg acc else acc)
            s conns in
  battles s' = battles s ∧ open s' = open s ∧ pending s' = pending s
  ∧ sent s' = sent s ++ broadcast_frames conns msg ex (open s).
Proof.
  revert s. induction conns as [|[pid ws] conns IH]; intros s; simpl.
  - by rewrite app_nil_r.
  - destruct (IH (if decide (Some pid ≠ ex) then sendTo ws msg s else s))
      as (Hb & Ho & Hp & Hs).
    rewrite Hb, Ho, Hp, Hs. clear IH Hb Ho Hp Hs.
    case_decide; [|done]. unfold sendTo.
    case_decide; simpl; [|done]. by rewrite <- app_assoc.
Qed.

Lemma broadcast_fields id msg ex s :
  battles (broadcastToBattle id msg ex s) = battles s
  ∧ open (broadcastToBattle id msg ex s) = open s
  ∧ pending (broadcastToBattle id msg ex s) = pending s.
Proof.
  unfold broadcastToBattle. destruct (battles s !! id); [|done].
  destruct (battle_broadcast_loop (connections b) msg ex s) as (?&?&?&?). done.
Qed.

Lemma broadcast_sent id msg ex s b :
  battles s !! id = Some b →
  sent (broadcastToBattle id msg ex s)
  = sent s ++ broadcast_frames (connections b) msg ex (open s).
Proof.
  intros Hb. unfold broadcastToBattle. rewrite Hb.
  by destruct (battle_broadcast_loop (connections b) msg ex s) as (?&?&?&?).
Qed.

Lemma battles_broadcast id msg ex s :
  battles (broadcastToBattle id msg ex s) = battles s.
Proof. apply broadcast_fields. Qed.

Lemma battles_sendTo ws msg s : battles (sendTo ws msg s) = battles s.
Proof. apply sendTo_fields. Qed.

Lemma close_loop (conns : list (string * nat)) s :
  let s' := foldl (λ acc '(_, ws),
              if decide (ws ∈ open acc) then ws_close ws acc else acc)
            s conns in
  battles s' = battles s ∧ sent s' = sent s ∧ pending s' = pending s.
Proof.
  revert s. induction conns as [|[pid ws] conns IH]; intros s; simpl; [done|].
  destruct (IH (if decide (ws ∈ open s) then ws_close ws s else s))
    as (Hb & Hs & Hp).
  rewrite Hb, Hs, Hp. by case_decide.
Qed.

Lemma battles_cleanup id s :
  battles (cleanup id s) = delete id (battles s).
Proof.
  unfold cleanup. destruct (battles s !! id) as [b|] eqn:Hb.
  - unfold set_battles; simpl.
    by destruct (close_loop (connections b) s) as (-> & _).
  - symmetry. by apply delete_id.
Qed.

Lemma sent_cleanup id s : sent (cleanup id s) = sent s.
Proof.
  unfold cleanup. destruct (battles s !! id) as [b|]; [|done].
  unfold set_battles; simpl.
  by destruct (close_loop (connections b) s) as (_ & -> & _).
Qed.

Lemma battles_cleanup_scan now s :
  battles (cleanup_scan now s) ⊆ battles s.
Proof.
  unfold cleanup_scan.
  apply (map_fold_weak_ind (λ r _, battles r ⊆ battles s)); [done|].
  intros id b m r _ IH. case_decide; [|done].
  rewrite battles_cleanup. etrans; [apply delete_subseteq|done].
Qed.

Lemma session_eta (b : BattleSession) :
  mkBattle (challengeId b) (players b) (connections b) (moves b)
    (status b) (winner b) (createdAt b) = b.
Proof. by destruct b. Qed.

Lemma put_same id b s : battles s !! id = Some b → put id b s = s.
Proof.
  intros Hb. destruct s as [bs op se pe]; unfold put, set_battles; simpl in *.
  f_equal. by apply insert_id.
Qed.

End BattleFacts.

(** ** Battle rooms: the roster, the move ledger and disconnects *)

Module BattleClaims.
Import Battle BattleFacts.

(** Three distinct peers join challenge [x]; the +1 s timer has
    already moved the battle to [in_progress]. *)
Definition three_peers : list Event :=
  [ev_connect 1 "x" "A" 0; ev_connect 2 "x" "B" 5; ev_fire 0;
   ev_connect 3 "x" "C" 10].

(** C1, as stated, fails: after a third distinct peer connects to a
    full battle in progress, [players] has three members and the new
    peer has been told so. *)
Lemma third_peer_is_admitted :
  (players <$> battles (run three_peers) !! "x") = Some ["A"; "B"; "C"]
  ∧ (status <$> battles (run three_peers) !! "x") = Some st_in_progress
  ∧ (players <$> battles (run (take 3 three_peers)) !! "x") = Some ["A"; "B"]
  ∧ (3, player_joined "C" 3 (Some "x")) ∈ sent (run three_peers).
Proof.
  split_and!; [by vm_compute..|].
  vm_compute. do 5 apply list_elem_of_further. apply list_elem_of_here.
Qed.

(** C1 (amended): [handleConnection] has no cap on [players].  A
    third distinct peer that connects to a battle holding two peers is
    appended to [players] and registered in [connections], and is sent
    [player_joined] with [playersCount = 3]; the attempt leaves the
    status, the winner and the move ledger as they were. *)
Theorem handleConnection_third_peer ws cid pid now s b :
  battles s !! cid = Some b →
  length (players b) = 2 →
  pid ∉ players b →
  ws ∈ open s →
  ∃ b', battles (handleConnection ws cid pid now s) !! cid = Some b'
    ∧ players b' = players b ++ [pid]
    ∧ length (players b') = 3
    ∧ Js.map_get pid (connections b') = Some ws
    ∧ status b' = status b ∧ winner b' = winner b ∧ moves b' = moves b
    ∧ sent (handleConnection ws cid pid now s)
      = sent s ++ (ws, player_joined pid 3 (Some cid))
               :: broadcast_frames (connections b')
                    (player_joined pid 3 None) (Some pid) (open s).
Proof.
  intros Hb Hlen Hnotin Hopen.
  unfold handleConnection. rewrite Hb; simpl.
  assert (Hadd : Js.set_add pid (players b) = players b ++ [pid]).
  { unfold Js.set_add. by rewrite decide_False. }
  rewrite Hadd, length_app, Hlen; simpl.
  set (b1 := mkBattle _ _ _ _ _ _ _).
  exists b1. split_and!; try done.
  - rewrite battles_broadcast, battles_sendTo. apply lookup_insert_eq.
  - subst b1; simpl. by rewrite length_app, Hlen.
  - apply JsFacts.map_get_set.
  - erewrite broadcast_sent.
    2: { rewrite battles_sendTo. apply lookup_insert_eq. }
    destruct (sendTo_fields ws (player_joined pid 3 (Some cid)) (put cid b1 s))
      as (_ & -> & _).
    unfold sendTo; simpl. rewrite decide_True by done. simpl.
    by rewrite <- app_assoc.
Qed.

Lemma handleConnection_third_peer_witness :
  ∃ b', battles (handleConnection 3 "x" "C" 10
                   (ws_open 3 (run (take 3 three_peers)))) !! "x" = Some b'
    ∧ players b' = ["A"; "B"; "C"].
Proof.
  destruct (handleConnection_third_peer 3 "x" "C" 10
              (ws_open 3 (run (take 3 three_peers)))
              (mkBattle "x" ["A"; "B"] [("A", 1); ("B", 2)] ∅
                 st_in_progress None 0))
    as (b' & Hb' & Hp & _).
  - by vm_compute.
  - reflexivity.
  - cbn [players]. rewrite !not_elem_of_cons.
    split_and!; [done..|apply not_elem_of_nil].
  - unfold ws_open. cbn [open]. apply elem_of_union_l, elem_of_singleton.
    reflexivity.
  - exists b'. split; [exact Hb'|exact Hp].
Defined.


(** *** The move ledger *)

Lemma ledger_ok_insert m cid b :
  ledger_ok m →
  (∀ r l, moves b !! r = Some l → NoDup (playerId <$> l)) →
  ledger_ok (<[cid := b]> m).
Proof.
  intros Hm Hb c b' r l Hc Hl.
  destruct (decide (cid = c)) as [->|Hne].
  - rewrite lookup_insert_eq in Hc. injection Hc as <-. eauto.
  - rewrite lookup_insert_ne in Hc by done. eauto.
Qed.

Lemma ledger_ok_sub m m' : m' ⊆ m → ledger_ok m → ledger_ok m'.
Proof.
  intros Hsub Hm c b r l Hc Hl.
  eapply Hm; [|exact Hl]. eapply lookup_weaken; eauto.
Qed.

Lemma ledger_ok_same_moves m cid b b' :
  ledger_ok m → m !! cid = Some b → moves b' = moves b →
  ledger_ok (<[cid := b']> m).
Proof.
  intros Hm Hb Heq. apply ledger_ok_insert; [done|].
  intros r l. rewrite Heq. eauto.
Qed.

Ltac battles_norm :=
  repeat first
    [ rewrite battles_broadcast | rewrite battles_sendTo
    | rewrite battles_cleanup
    | progress (unfold put, set_battles, setTimeout; simpl)
    | rewrite insert_insert_eq ].

Lemma existsb_playerId pid (l : list BattleMove) :
  existsb (λ x, bool_decide (playerId x = pid)) l = true
  ↔ pid ∈ playerId <$> l.
Proof.
  rewrite existsb_exists, list_elem_of_fmap. split.
  - intros (x & Hin & Hx). apply bool_decide_eq_true in Hx.
    exists x. split; [done|]. by apply list_elem_of_In.
  - intros (x & -> & Hin). exists x. split; [by apply list_elem_of_In|].
    by apply bool_decide_eq_true.
Qed.

Lemma ledger_handleConnection ws cid pid now s :
  ledger_ok (battles s) →
  ledger_ok (battles (handleConnection ws cid pid now s)).
Proof.
  intros Hs. unfold handleConnection.
  destruct (battles s !! cid) as [b|] eqn:Hb; cbv zeta;
    destruct (decide (_ ∧ _)); battles_norm;
    (eapply ledger_ok_same_moves; [done..|reflexivity])
    || (apply ledger_ok_insert; [done|]; simpl; intros r l Hl;
        by rewrite lookup_empty in Hl).
Qed.

Lemma ledger_handleMessage cid pid msg now s :
  ledger_ok (battles s) →
  ledger_ok (battles (handleMessage cid pid msg now s)).
Proof.
  intros Hs. unfold handleMessage.
  destruct (battles s !! cid) as [b|] eqn:Hb; [|done].
  destruct msg as [r mv|w|ty]; [| |done].
  - set (moves1 := match moves b !! r with
                   | Some _ => moves b | None => <[r:=[]]> (moves b) end).
    assert (Hm1 : ∀ r' l, moves1 !! r' = Some l → NoDup (playerId <$> l)).
    { intros r' l. subst moves1. destruct (moves b !! r) eqn:Hr; [by eauto|].
      destruct (decide (r = r')) as [->|Hne].
      - rewrite lookup_insert_eq. intros [= <-]. constructor.
      - rewrite lookup_insert_ne by done. eauto. }
    destruct (existsb _ _) eqn:Hex.
    + battles_norm. by apply ledger_ok_insert.
    + assert (Hfresh : pid ∉ playerId <$> default [] (moves1 !! r)).
      { intros Hin. apply existsb_playerId in Hin. congruence. }
      case_decide; battles_norm; (apply ledger_ok_insert; [done|]); simpl;
        intros r' l; (destruct (decide (r = r')) as [->|Hne];
          [rewrite lookup_insert_eq; intros [= <-];
           rewrite fmap_app; simpl; apply NoDup_app; split_and!;
           [ destruct (moves1 !! r') eqn:Hr; simpl; [by eauto|constructor]
           | intros x Hx Hx'; apply list_elem_of_singleton in Hx'; by subst
           | apply NoDup_singleton ]
          | rewrite lookup_insert_ne by done; eauto ]).
  - battles_norm. by eapply ledger_ok_same_moves.
Qed.

Lemma ledger_handleDisconnect cid pid s :
  ledger_ok (battles s) →
  ledger_ok (battles (handleDisconnect cid pid s)).
Proof.
  intros Hs. unfold handleDisconnect.
  destruct (battles s !! cid) as [b|] eqn:Hb; [|done]. simpl.
  assert (Hgoal : ∀ s3, (∃ b', battles s3 = <[cid := b']> (battles s)
                            ∧ moves b' = moves b) →
            ledger_ok (battles
              (if decide (length (Js.map_delete pid (connections b)) = 0)
               then cleanup cid s3 else s3))).
  { intros s3 (b' & Hs3 & Hmv). case_decide; battles_norm; rewrite Hs3.
    - eapply ledger_ok_sub; [apply delete_subseteq|].
      by eapply ledger_ok_same_moves.
    - by eapply ledger_ok_same_moves. }
  apply Hgoal. clear Hgoal.
  destruct (decide (status b = st_in_progress)); [|battles_norm; eauto].
  destruct (find _ _) as [rem|]; [|battles_norm; eauto].
  destruct (Js.truthy rem); battles_norm; eauto.
Qed.

Lemma ledger_step s e : ledger_ok (battles s) → ledger_ok (battles (step s e)).
Proof.
  intros Hs. destruct e as [ws cid pid now|cid pid msg now|cid pid|ws|n|now];
    simpl.
  - unfold handleBattleConnection. destruct (_ || _); [done|].
    by apply ledger_handleConnection.
  - by apply ledger_handleMessage.
  - by apply ledger_handleDisconnect.
  - done.
  - destruct (pending s !! n) as [[cid|cid]|]; simpl; [| |done].
    + destruct (battles s !! cid) as [b|] eqn:Hb; simpl; [|done].
      battles_norm. by eapply ledger_ok_same_moves.
    + battles_norm. eapply ledger_ok_sub; [apply delete_subseteq|done].
  - eapply ledger_ok_sub; [apply battles_cleanup_scan|done].
Qed.

Lemma ledger_reachable es : ledger_ok (battles (run es)).
Proof.
  induction es as [|e es IH] using rev_ind.
  - intros c b r l Hc. unfold run in Hc; simpl in Hc.
    by rewrite lookup_empty in Hc.
  - rewrite battle_run_snoc. by apply ledger_step.
Qed.

Lemma duplicate_submit_ignored cid pid r mv now s b l :
  battles s !! cid = Some b →
  moves b !! r = Some l →
  pid ∈ playerId <$> l →
  handleMessage cid pid (submit_move r mv) now s = s.
Proof.
  intros Hb Hl Hin. unfold handleMessage. rewrite Hb, Hl; simpl.
  rewrite Hl; simpl.
  apply existsb_playerId in Hin. rewrite Hin.
  rewrite session_eta. by apply put_same.
Qed.

(** C8: in every state the battle manager can reach, each round of
    each battle holds at most one move per peer, and a second
    [submit_move] of a peer for a round it has already played returns
    the state as it was: the ledger is the same and no frame is
    sent. *)
Theorem one_move_per_peer_per_round (es : list Event) cid b r l :
  battles (run es) !! cid = Some b →
  moves b !! r = Some l →
  NoDup (playerId <$> l)
  ∧ ∀ pid mv now,
      pid ∈ playerId <$> l →
      handleMessage cid pid (submit_move r mv) now (run es) = run es.
Proof.
  intros Hb Hl. split.
  - eapply ledger_reachable; eauto.
  - intros pid mv now Hin. eapply duplicate_submit_ignored; eauto.
Qed.

Definition first_move : list Event :=
  [ev_connect 1 "x" "A" 0; ev_connect 2 "x" "B" 5; ev_fire 0;
   ev_message "x" "A" (submit_move 0 "rock") 7].

Lemma one_move_per_peer_per_round_witness :
  handleMessage "x" "A" (submit_move 0 "paper") 8 (run first_move)
  = run first_move
  ∧ sent (step (run first_move) (ev_message "x" "A" (submit_move 0 "paper") 8))
    = sent (run first_move).
Proof.
  assert (H : handleMessage "x" "A" (submit_move 0 "paper") 8 (run first_move)
              = run first_move).
  { eapply (one_move_per_peer_per_round first_move "x"
              (mkBattle "x" ["A"; "B"] [("A", 1); ("B", 2)]
                 (<[0%Z := [mkMove "A" "rock" 0 7]]> ∅) st_in_progress None 0)
              0 [mkMove "A" "rock" 0 7]).
    - by vm_compute.
    - by vm_compute.
    - simpl. apply list_elem_of_here. }
  split; [exact H|]. exact (f_equal sent H).
Defined.

(** *** A peer leaves a battle in progress *)

(** [handleDisconnect] never writes [status]: whenever the battle
    survives the disconnect, its status is the one it had. *)
Lemma handleDisconnect_status cid pid s b b' :
  battles s !! cid = Some b →
  battles (handleDisconnect cid pid s) !! cid = Some b' →
  status b' = status b.
Proof.
  intros Hb. unfold handleDisconnect. rewrite Hb. cbv zeta.
  assert (Hgoal : ∀ s3 b3, battles s3 = <[cid := b3]> (battles s) →
            status b3 = status b →
            battles (if decide (length (Js.map_delete pid (connections b)) = 0)
                     then cleanup cid s3 else s3) !! cid = Some b' →
            status b' = status b).
  { intros s3 b3 Hs3 Hst. case_decide; battles_norm; rewrite Hs3.
    - by rewrite lookup_delete_eq.
    - rewrite lookup_insert_eq. by intros [= <-]. }
  simpl.
  destruct (decide (status b = st_in_progress)) as [Hip|Hn].
  - destruct (find _ _) as [rem|].
    + destruct (Js.truthy rem); eapply Hgoal; battles_norm; reflexivity.
    + eapply Hgoal; battles_norm; reflexivity.
  - eapply Hgoal; battles_norm; reflexivity.
Qed.

Definition two_peers_playing : list Event :=
  [ev_connect 1 "x" "A" 0; ev_connect 2 "x" "B" 5; ev_fire 0].

(** C3 at its failing input: two peers play challenge [x] and [A]'s
    socket closes.  [B] is sent [opponent_left] and then [game_ended]
    naming [B], and [winner] is [B], but the status is still
    [in_progress]; the [game_ended] branch of [handleMessage], on the
    same battle, does set it to [ended]. *)
Lemma disconnect_leaves_status_in_progress :
  let s := run two_peers_playing in
  let s' := step s (ev_close "x" "A") in
  (status <$> battles s !! "x") = Some st_in_progress
  ∧ (status <$> battles s' !! "x") = Some st_in_progress
  ∧ (winner <$> battles s' !! "x") = Some (Some "B")
  ∧ sent s' = sent s ++ [(2, opponent_left "A"); (2, game_ended (Some "B") "x")]
  ∧ (status <$> battles (step s (ev_message "x" "B" (game_ended_in (Some "B")) 9))
                  !! "x") = Some st_ended.
Proof. split_and!; by vm_compute. Qed.

End BattleClaims.

(** ** Battle rooms: joining, moves, endings and cleanup *)

Module BattleExtras.
Import Battle BattleFacts BattleClaims.

Lemma state_eta (s : State) :
  mkState (battles s) (open s) (sent s) (pending s) = s.
Proof. by destruct s. Qed.

Lemma sendTo_eq ws msg s :
  sendTo ws msg s
  = mkState (battles s) (open s)
      (sent s ++ if decide (ws ∈ open s) then [(ws, msg)] else [])
      (pending s).
Proof.
  unfold sendTo. case_decide; [done|]. by rewrite app_nil_r, state_eta.
Qed.

Lemma broadcast_eq id msg ex s :
  broadcastToBattle id msg ex s
  = mkState (battles s) (open s) (sent s ++ battle_frames id msg ex s)
      (pending s).
Proof.
  unfold broadcastToBattle, battle_frames.
  destruct (battles s !! id) as [b|]; [|by rewrite app_nil_r, state_eta].
  pose proof (battle_broadcast_loop (connections b) msg ex s) as H.
  cbv zeta in H. destruct H as (Hb & Ho & Hp & Hs).
  rewrite <- (state_eta (foldl _ s (connections b))).
  by rewrite Hb, Ho, Hp, Hs.
Qed.

(** X1: who receives a battle broadcast: the frames it sends go to
    the sockets that are open and registered in the battle under a
    peer other than the excluded one, and to nobody else. *)
Theorem battle_broadcast_recipients id msg ex s w m :
  (w, m) ∈ drop (length (sent s)) (sent (broadcastToBattle id msg ex s))
  ↔ m = msg
    ∧ ∃ b pid, battles s !! id = Some b
        ∧ (pid, w) ∈ connections b ∧ Some pid ≠ ex ∧ w ∈ open s.
Proof.
  rewrite broadcast_eq. cbn [sent]. rewrite drop_app_length.
  unfold battle_frames, broadcast_frames. split.
  - destruct (battles s !! id) as [b|]; [|by intros ?%elem_of_nil].
    rewrite list_elem_of_omap. intros ([pid w'] & Hin & Hf).
    case_decide; [|done]. case_decide; [|done]. injection Hf as <- <-.
    split; [done|]. by exists b, pid.
  - intros (-> & b & pid & -> & Hin & Hex & Hop).
    rewrite list_elem_of_omap. exists (pid, w). split; [done|].
    by rewrite !decide_True.
Qed.

(** X2: the second distinct peer joining a waiting battle makes it
    ready: both peers are players, the newcomer is sent its own
    [player_joined], the others theirs, everybody [game_ready] with the
    two players in joining order, and the one-second timer is armed;
    when that timer fires the battle is in progress. *)
Theorem second_peer_makes_ready ws cid pid now s b a :
  battles s !! cid = Some b →
  players b = [a] →
  a ≠ pid →
  status b = st_waiting →
  let s' := handleConnection ws cid pid now s in
  ∃ b', battles s' !! cid = Some b'
    ∧ players b' = [a; pid]
    ∧ connections b' = Js.map_set pid ws (connections b)
    ∧ status b' = st_ready
    ∧ pending s' = pending s ++ [t_in_progress cid]
    ∧ sent s'
      = sent s
        ++ (if decide (ws ∈ open s)
            then [(ws, player_joined pid 2 (Some cid))] else [])
        ++ broadcast_frames (connections b') (player_joined pid 2 None)
             (Some pid) (open s)
        ++ broadcast_frames (connections b') (game_ready cid [a; pid])
             None (open s)
    ∧ (status <$> battles (run_timer (t_in_progress cid) s') !! cid)
      = Some st_in_progress.
Proof.
  intros Hb Hpl Hne Hst s'. subst s'. unfold handleConnection.
  rewrite Hb. cbv zeta. cbn [players status connections challengeId moves
    winner createdAt].
  assert (Hadd : Js.set_add pid (players b) = [a; pid]).
  { unfold Js.set_add. rewrite Hpl.
    rewrite decide_False; [done|]. rewrite list_elem_of_singleton. congruence. }
  rewrite Hadd. cbn [length]. rewrite decide_True by done.
  rewrite !broadcast_eq, sendTo_eq. unfold battle_frames, put, set_battles,
    setTimeout. cbn. rewrite !lookup_insert_eq. cbn.
  rewrite !insert_insert_eq, lookup_insert_eq.
  eexists. split; [reflexivity|]. cbn. split_and!; try done.
  by rewrite <- !app_assoc.
Qed.

Definition one_waiting : list Event := [ev_connect 1 "x" "A" 0].

Lemma second_peer_makes_ready_witness :
  (status <$> battles (handleConnection 2 "x" "B" 5
                         (ws_open 2 (run one_waiting))) !! "x")
  = Some st_ready
  ∧ pending (handleConnection 2 "x" "B" 5 (ws_open 2 (run one_waiting)))
    = [t_in_progress "x"].
Proof.
  destruct (second_peer_makes_ready 2 "x" "B" 5 (ws_open 2 (run one_waiting))
              (mkBattle "x" ["A"] [("A", 1)] ∅ st_waiting None 0) "A")
    as (b' & Hb' & _ & _ & Hst & Hp & _).
  - by vm_compute.
  - reflexivity.
  - done.
  - reflexivity.
  - split; [by rewrite Hb'; cbn; rewrite Hst|].
    etrans; [exact Hp|]. by vm_compute.
Defined.

(** X3: a peer that is already a player and connects again changes
    neither the player set nor the status: its entry in the connection
    map now holds the new socket, every other entry is as before, and
    no [game_ready] is sent and no timer armed. *)
Theorem reconnect_replaces_socket ws cid pid now s b :
  battles s !! cid = Some b →
  pid ∈ players b →
  length (players b) ≠ 2 ∨ status b ≠ st_waiting →
  let s' := handleConnection ws cid pid now s in
  ∃ b', battles s' !! cid = Some b'
    ∧ players b' = players b
    ∧ status b' = status b
    ∧ Js.map_get pid (connections b') = Some ws
    ∧ (∀ q, q ≠ pid →
         Js.map_get q (connections b') = Js.map_get q (connections b))
    ∧ pending s' = pending s
    ∧ ∀ w players', (w, game_ready cid players') ∈ sent s' →
                    (w, game_ready cid players') ∈ sent s.
Proof.
  intros Hb Hin Hnot s'. subst s'. unfold handleConnection.
  rewrite Hb. cbv zeta. cbn [players status connections challengeId moves
    winner createdAt].
  assert (Hadd : Js.set_add pid (players b) = players b).
  { unfold Js.set_add. by rewrite decide_True. }
  rewrite Hadd. rewrite decide_False by tauto.
  rewrite broadcast_eq, sendTo_eq. unfold put, set_battles. cbn.
  rewrite lookup_insert_eq. eexists. split; [reflexivity|]. cbn.
  split_and!; try done.
  - apply JsFacts.map_get_set.
  - intros q Hq. by apply JsFacts.map_get_set_ne.
  - intros w pl. rewrite !elem_of_app. intros [[?|Hself]|Hothers]; [done| |].
    + case_decide; [|by apply elem_of_nil in Hself].
      apply list_elem_of_singleton in Hself. discriminate Hself.
    + unfold battle_frames in Hothers. cbn in Hothers.
      rewrite lookup_insert_eq in Hothers. unfold broadcast_frames in Hothers.
      apply list_elem_of_omap in Hothers as ([q w'] & _ & Hf).
      repeat case_decide; try done; discriminate Hf.
Qed.

Lemma reconnect_replaces_socket_witness :
  ∃ b', battles (handleConnection 9 "x" "A" 20
                   (ws_open 9 (run two_peers_playing))) !! "x" = Some b'
    ∧ players b' = ["A"; "B"]
    ∧ Js.map_get "A" (connections b') = Some 9.
Proof.
  destruct (reconnect_replaces_socket 9 "x" "A" 20
              (ws_open 9 (run two_peers_playing))
              (mkBattle "x" ["A"; "B"] [("A", 1); ("B", 2)] ∅
                 st_in_progress None 0))
    as (b' & Hb' & Hp & _ & Hc & _).
  - by vm_compute.
  - cbn [players]. apply list_elem_of_here.
  - right. discriminate.
  - exists b'. split; [exact Hb'|]. split; [exact Hp|exact Hc].
Defined.

(** X4: a [submit_move] of a peer that has not yet played the round is
    recorded at the end of the round's list, whatever the status of the
    battle and whether or not the peer is one of its players.  The
    other connected peers are sent [opponent_moved]; [round_complete],
    listing the moves in submission order, goes to everybody exactly
    when this is the second move of the round. *)
Theorem submit_move_accepted cid pid r mv now s b :
  battles s !! cid = Some b →
  pid ∉ playerId <$> default [] (moves b !! r) →
  let l := default [] (moves b !! r) in
  let l' := l ++ [mkMove pid mv r now] in
  let s' := handleMessage cid pid (submit_move r mv) now s in
  ∃ b', battles s' !! cid = Some b'
    ∧ moves b' = <[r := l']> (moves b)
    ∧ status b' = status b ∧ players b' = players b
    ∧ connections b' = connections b ∧ winner b' = winner b
    ∧ pending s' = pending s
    ∧ sent s'
      = sent s
        ++ broadcast_frames (connections b) (opponent_moved pid) (Some pid)
             (open s)
        ++ (if decide (length l = 1)
            then broadcast_frames (connections b)
                   (round_complete r (map (λ x, (playerId x, move x)) l'))
                   None (open s)
            else []).
Proof.
  intros Hb Hfresh l l' s'. subst s'. unfold handleMessage. rewrite Hb.
  cbv zeta.
  set (moves1 := match moves b !! r with
                 | Some _ => moves b | None => <[r:=[]]> (moves b) end).
  assert (Hm1 : default [] (moves1 !! r) = l).
  { subst moves1 l. destruct (moves b !! r) eqn:Hr; [by rewrite Hr|].
    by rewrite lookup_insert_eq. }
  assert (Hins : <[r := l']> moves1 = <[r := l']> (moves b)).
  { subst moves1. destruct (moves b !! r); [done|apply insert_insert_eq]. }
  rewrite Hm1. fold l'.
  assert (Hex : existsb (λ x, bool_decide (playerId x = pid)) l = false).
  { apply not_true_is_false. intros Hex. by apply existsb_playerId in Hex. }
  rewrite Hex, Hins.
  assert (Hlen : length l' = 2 ↔ length l = 1).
  { subst l'. rewrite length_app. cbn. lia. }
  destruct (decide (length l' = 2)) as [H2|H2];
    [rewrite (decide_True (P := length l = 1)) by tauto
    |rewrite (decide_False (P := length l = 1)) by tauto];
    rewrite !broadcast_eq; unfold battle_frames, put, set_battles; cbn;
    rewrite !lookup_insert_eq; cbn;
    (eexists; split; [reflexivity|]); cbn; split_and!; try done.
  - by rewrite <- app_assoc.
  - by rewrite app_nil_r.
Qed.

Lemma submit_move_accepted_witness :
  sent (handleMessage "x" "B" (submit_move 0 "paper") 9 (run first_move))
  = sent (run first_move)
    ++ [(1, opponent_moved "B");
        (1, round_complete 0 [("A", "rock"); ("B", "paper")]);
        (2, round_complete 0 [("A", "rock"); ("B", "paper")])].
Proof.
  destruct (submit_move_accepted "x" "B" 0 "paper" 9 (run first_move)
              (mkBattle "x" ["A"; "B"] [("A", 1); ("B", 2)]
                 (<[0%Z := [mkMove "A" "rock" 0 7]]> ∅) st_in_progress None 0))
    as (b' & _ & _ & _ & _ & _ & _ & _ & Hsent).
  - by vm_compute.
  - intros Hin. vm_compute in Hin.
    apply list_elem_of_singleton in Hin. discriminate Hin.
  - etrans; [exact Hsent|]. by vm_compute.
Defined.

(** *** Cleanup *)

Lemma close_loop_eq (conns : list (string * nat)) s :
  foldl (λ acc '(_, ws),
           if decide (ws ∈ open acc) then ws_close ws acc else acc) s conns
  = mkState (battles s) (open s ∖ list_to_set conns.*2) (sent s) (pending s).
Proof.
  revert s. induction conns as [|[pid ws] conns IH]; intros s; cbn.
  - rewrite difference_empty_L. by rewrite state_eta.
  - rewrite IH. case_decide as Hws; cbn; f_equal; apply set_eq; intros x;
      rewrite !elem_of_difference, elem_of_union, elem_of_singleton.
    + tauto.
    + split; [|tauto]. intros [Hx Hn]. split; [done|].
      intros [->|Hin]; tauto.
Qed.

Lemma cleanup_eq id s b :
  battles s !! id = Some b →
  cleanup id s
  = mkState (delete id (battles s))
      (open s ∖ list_to_set (connections b).*2) (sent s) (pending s).
Proof. unfold cleanup. intros ->. by rewrite close_loop_eq. Qed.

(** X5: [cleanup] of a stored battle closes the sockets of its
    connection map, removes that battle and no other, and sends
    nothing; of an unknown id it does nothing. *)
Theorem cleanup_closes_and_deletes id s :
  (∀ b, battles s !! id = Some b →
        cleanup id s
        = mkState (delete id (battles s))
            (open s ∖ list_to_set (connections b).*2) (sent s) (pending s))
  ∧ (battles s !! id = None → cleanup id s = s).
Proof.
  split.
  - intros b Hb. by apply cleanup_eq.
  - unfold cleanup. by intros ->.
Qed.

Lemma game_ended_eq cid pid w now s b :
  battles s !! cid = Some b →
  handleMessage cid pid (game_ended_in w) now s
  = mkState
      (<[cid := mkBattle (challengeId b) (players b) (connections b)
                  (moves b) st_ended w (createdAt b)]> (battles s))
      (open s)
      (sent s ++ broadcast_frames (connections b) (game_ended w cid)
                   None (open s))
      (pending s ++ [t_cleanup cid]).
Proof.
  intros Hb. unfold handleMessage. rewrite Hb. cbv zeta.
  rewrite broadcast_eq. unfold battle_frames, put, set_battles, setTimeout.
  cbn. by rewrite lookup_insert_eq.
Qed.

(** X6: a [game_ended] frame from any connected socket ends the
    battle with the winner it names, tells every open connection, and
    arms the cleanup timer; when that timer fires the battle is
    deleted, its sockets are closed and nothing more is sent. *)
Theorem game_ended_then_cleanup cid pid w now s b :
  battles s !! cid = Some b →
  let s1 := handleMessage cid pid (game_ended_in w) now s in
  let s2 := step s1 (ev_fire (length (pending s))) in
  battles s1 !! cid
  = Some (mkBattle (challengeId b) (players b) (connections b) (moves b)
            st_ended w (createdAt b))
  ∧ sent s1
    = sent s ++ broadcast_frames (connections b) (game_ended w cid) None
                  (open s)
  ∧ pending s1 = pending s ++ [t_cleanup cid]
  ∧ battles s2 !! cid = None
  ∧ (∀ q ws, (q, ws) ∈ connections b → ws ∉ open s2)
  ∧ sent s2 = sent s1.
Proof.
  intros Hb s1 s2.
  assert (Hs1 : s1 = mkState
            (<[cid := mkBattle (challengeId b) (players b) (connections b)
                        (moves b) st_ended w (createdAt b)]> (battles s))
            (open s)
            (sent s ++ broadcast_frames (connections b) (game_ended w cid)
                         None (open s))
            (pending s ++ [t_cleanup cid])).
  { subst s1. by apply game_ended_eq. }
  assert (Hs2 : s2 = mkState (delete cid (battles s))
            (open s ∖ list_to_set (connections b).*2)
            (sent s1) (pending s)).
  { subst s2. rewrite Hs1. cbn [step pending].
    rewrite list_lookup_middle by done. unfold run_timer.
    erewrite cleanup_eq; [|cbn; apply lookup_insert_eq].
    cbn. f_equal.
    - by rewrite delete_insert_eq.
    - rewrite delete_middle. by rewrite app_nil_r. }
  rewrite Hs2. rewrite Hs1 at 1 2 3. cbn. split_and!; try done.
  - apply lookup_insert_eq.
  - apply lookup_delete_eq.
  - intros q ws Hin. rewrite elem_of_difference, elem_of_list_to_set.
    intros [_ Hn]. apply Hn. apply list_elem_of_fmap. by exists (q, ws).
Qed.

Lemma game_ended_then_cleanup_witness :
  battles (step (handleMessage "x" "B" (game_ended_in (Some "B")) 9
                   (run two_peers_playing))
             (ev_fire (length (pending (run two_peers_playing))))) !! "x"
  = None.
Proof.
  destruct (game_ended_then_cleanup "x" "B" (Some "B") 9
              (run two_peers_playing)
              (mkBattle "x" ["A"; "B"] [("A", 1); ("B", 2)] ∅
                 st_in_progress None 0))
    as (_ & _ & _ & Hgone & _).
  - by vm_compute.
  - exact Hgone.
Defined.

(** X7: when the peer that disconnects holds the only entry of the
    connection map, the battle is deleted on the spot and no frame is
    sent: nobody is left to tell. *)
Theorem last_disconnect_deletes_battle cid pid s b :
  battles s !! cid = Some b →
  Js.map_delete pid (connections b) = [] →
  handleDisconnect cid pid s
  = mkState (delete cid (battles s)) (open s) (sent s) (pending s).
Proof.
  intros Hb Hlast. unfold handleDisconnect. rewrite Hb. cbv zeta.
  rewrite Hlast. cbn [length connections status players challengeId moves
    winner createdAt].
  rewrite decide_True by done.
  assert (Hfin : ∀ b1 s0, connections b1 = [] →
    s0 = mkState (<[cid := b1]> (battles s)) (open s) (sent s) (pending s) →
    cleanup cid s0
    = mkState (delete cid (battles s)) (open s) (sent s) (pending s)).
  { intros b1 s0 Hc ->.
    erewrite cleanup_eq; [|cbn; apply lookup_insert_eq].
    cbn. rewrite Hc. cbn. rewrite delete_insert_eq.
    f_equal. apply difference_empty_L. }
  assert (Hfin' : ∀ b1, connections b1 = [] →
    cleanup cid (mkState (<[cid := b1]> (battles s)) (open s) (sent s)
                   (pending s))
    = mkState (delete cid (battles s)) (open s) (sent s) (pending s)).
  { intros b1 Hc. by eapply Hfin. }
  clear Hfin.
  rewrite broadcast_eq. unfold battle_frames, put, set_battles. cbn.
  rewrite lookup_insert_eq. cbn. rewrite app_nil_r.
  destruct (decide (status b = st_in_progress)).
  - destruct (find _ _) as [rem|]; [|by apply Hfin'].
    destruct (Js.truthy rem); [|by apply Hfin'].
    rewrite broadcast_eq. unfold battle_frames. cbn.
    rewrite lookup_insert_eq. cbn. rewrite app_nil_r, insert_insert_eq.
    by apply Hfin'.
  - by apply Hfin'.
Qed.

Lemma last_disconnect_deletes_battle_witness :
  battles (handleDisconnect "x" "A" (run one_waiting)) !! "x" = None
  ∧ sent (handleDisconnect "x" "A" (run one_waiting)) = sent (run one_waiting).
Proof.
  rewrite (last_disconnect_deletes_battle "x" "A" (run one_waiting)
             (mkBattle "x" ["A"] [("A", 1)] ∅ st_waiting None 0)).
  - split; [apply lookup_delete_eq|reflexivity].
  - by vm_compute.
  - reflexivity.
Defined.

(** X8: the one-second timer armed by [game_ready] does not look at
    the status: if [game_ended] arrives while it is pending, the battle
    is first ended and then, when the timer fires, back in progress,
    with the winner still set. *)
Theorem hold_timer_reopens_ended_battle cid pid w now n s b :
  battles s !! cid = Some b →
  pending s !! n = Some (t_in_progress cid) →
  let s1 := handleMessage cid pid (game_ended_in w) now s in
  let s2 := step s1 (ev_fire n) in
  (status <$> battles s1 !! cid) = Some st_ended
  ∧ battles s2 !! cid
    = Some (mkBattle (challengeId b) (players b) (connections b) (moves b)
              st_in_progress w (createdAt b)).
Proof.
  intros Hb Hn s1 s2. subst s2 s1. rewrite (game_ended_eq _ _ _ _ _ _ Hb).
  split; [cbn; by rewrite lookup_insert_eq|].
  cbn [step pending]. rewrite (lookup_app_l_Some _ _ _ _ Hn). cbn.
  rewrite lookup_insert_eq. cbn. apply lookup_insert_eq.
Qed.

Definition two_peers_ready : list Event :=
  [ev_connect 1 "x" "A" 0; ev_connect 2 "x" "B" 5].

Lemma hold_timer_reopens_ended_battle_witness :
  (status <$> battles
     (step (handleMessage "x" "A" (game_ended_in (Some "A")) 6
              (run two_peers_ready)) (ev_fire 0)) !! "x")
  = Some st_in_progress.
Proof.
  destruct (hold_timer_reopens_ended_battle "x" "A" (Some "A") 6 0
              (run two_peers_ready)
              (mkBattle "x" ["A"; "B"] [("A", 1); ("B", 2)] ∅ st_ready
                 None 0)) as (_ & Hb2).
  - by vm_compute.
  - by vm_compute.
  - by rewrite Hb2.
Defined.

(** X9: the periodic scan deletes exactly the battles that are more
    than 30 minutes old and not in progress; a battle in progress is
    kept however old it is, and the scan sends nothing. *)
Theorem cleanup_scan_reaps_expired now s id b :
  battles s !! id = Some b →
  (expired now b → battles (cleanup_scan now s) !! id = None)
  ∧ (¬ expired now b → battles (cleanup_scan now s) !! id = Some b)
  ∧ (status b = st_in_progress →
     battles (cleanup_scan now s) !! id = Some b)
  ∧ sent (cleanup_scan now s) = sent s.
Proof.
  intros Hb.
  assert (H : sent (cleanup_scan now s) = sent s
    ∧ ∀ i, battles (cleanup_scan now s) !! i
           = match battles s !! i with
             | Some x => if decide (expired now x) then None
                         else battles s !! i
             | None => battles s !! i
             end).
  { unfold cleanup_scan.
    apply (map_fold_weak_ind
             (λ r m, sent r = sent s
                ∧ ∀ i, battles r !! i
                       = match m !! i with
                         | Some x => if decide (expired now x) then None
                                     else battles s !! i
                         | None => battles s !! i
                         end)).
    - split; [done|]. intros i. by rewrite lookup_empty.
    - intros i x m r Hi [Hsent IH]. unfold expired in *. split.
      + case_decide; [by rewrite sent_cleanup|done].
      + intros j. destruct (decide (i = j)) as [->|Hne].
        * rewrite lookup_insert_eq. case_decide.
          -- rewrite battles_cleanup. apply lookup_delete_eq.
          -- rewrite IH, Hi. done.
        * rewrite lookup_insert_ne by done. case_decide; [|apply IH].
          rewrite battles_cleanup, lookup_delete_ne by done. apply IH. }
  destruct H as [Hsent Hlook]. specialize (Hlook id). rewrite Hb in Hlook.
  split_and!; [| | |done].
  - intros Hexp. by rewrite Hlook, decide_True.
  - intros Hexp. by rewrite Hlook, decide_False.
  - intros Hst. rewrite Hlook, decide_False; [done|].
    intros [_ Hne]. done.
Qed.

Lemma cleanup_scan_reaps_expired_witness :
  battles (cleanup_scan 2000000 (run one_waiting)) !! "x" = None
  ∧ (status <$> battles (cleanup_scan 2000000 (run two_peers_playing)) !! "x")
    = Some st_in_progress.
Proof.
  split.
  - refine (proj1 (cleanup_scan_reaps_expired 2000000 (run one_waiting) "x"
                     (mkBattle "x" ["A"] [("A", 1)] ∅ st_waiting None 0) _) _).
    + by vm_compute.
    + split; [reflexivity|discriminate].
  - destruct (cleanup_scan_reaps_expired 2000000 (run two_peers_playing) "x"
                (mkBattle "x" ["A"; "B"] [("A", 1); ("B", 2)] ∅
                   st_in_progress None 0)) as (_ & _ & Hkeep & _).
    + by vm_compute.
    + by rewrite Hkeep.
Defined.

(** *** What every stored battle satisfies *)

Lemma wf_insert m cid b :
  battles_wf m → battle_wf cid b → battles_wf (<[cid := b]> m).
Proof.
  intros Hm Hb c b' Hc. destruct (decide (cid = c)) as [->|Hne].
  - rewrite lookup_insert_eq in Hc. by injection Hc as <-.
  - rewrite lookup_insert_ne in Hc by done. eauto.
Qed.

Lemma wf_sub m m' : m' ⊆ m → battles_wf m → battles_wf m'.
Proof. intros Hsub Hm c b Hc. eapply Hm, lookup_weaken; eauto. Qed.

(** Changing the ledger, the winner, dropping connections or leaving
    the waiting status keeps a battle well formed. *)
Lemma battle_wf_ext cid b b' :
  battle_wf cid b →
  challengeId b' = challengeId b →
  players b' = players b →
  NoDup (Js.keys (connections b')) →
  Js.keys (connections b') ⊆ Js.keys (connections b) →
  status b' = status b ∨ status b' ≠ st_waiting →
  battle_wf cid b'.
Proof.
  intros (Hid & Hnd & Hndc & Hsub & Hne & Hw) Hid' Hpl Hndc' Hsub' Hst.
  unfold battle_wf. rewrite Hid', Hpl. split_and!; try done.
  - by etrans.
  - intros Hw'. apply Hw. destruct Hst as [<-|?]; done.
Qed.

Lemma battle_wf_join cid b pid ws st :
  battle_wf cid b
  ∨ (challengeId b = cid ∧ players b = [] ∧ connections b = []
     ∧ status b = st_waiting) →
  st = (if decide (length (Js.set_add pid (players b)) = 2
                   ∧ status b = st_waiting)
        then st_ready else status b) →
  battle_wf cid (mkBattle (challengeId b) (Js.set_add pid (players b))
                   (Js.map_set pid ws (connections b)) (moves b) st
                   (winner b) (createdAt b)).
Proof.
  intros Hb ->. unfold battle_wf. cbn.
  assert (Hfacts : challengeId b = cid ∧ NoDup (players b)
            ∧ NoDup (Js.keys (connections b))
            ∧ Js.keys (connections b) ⊆ players b
            ∧ (status b = st_waiting → length (players b) ≤ 1)).
  { destruct Hb as [(? & ? & ? & ? & ? & Hw)|(? & Hp & Hc & ?)].
    - split_and!; try done. intros Hst. rewrite (Hw Hst). lia.
    - rewrite Hp, Hc. split_and!; try done; try constructor. cbn. lia. }
  destruct Hfacts as (Hid & Hnd & Hndc & Hsub & Hw).
  split_and!.
  - done.
  - by apply JsFacts.NoDup_set_add.
  - by apply JsFacts.NoDup_keys_map_set.
  - intros q Hq. apply JsFacts.keys_map_set in Hq.
    apply JsFacts.elem_of_set_add. destruct Hq as [->|Hq]; [by left|].
    right. by apply Hsub.
  - apply JsFacts.set_add_not_nil.
  - pose proof (JsFacts.length_set_add pid (players b)) as Hlen.
    pose proof (JsFacts.set_add_not_nil pid (players b)) as Hnn.
    destruct (Js.set_add pid (players b)) as [|x l] eqn:Hadd; [done|].
    case_decide as Hd; [done|]. intros Hst. specialize (Hw Hst).
    cbn in *. destruct l as [|y l]; [done|].
    destruct l; cbn in *; [destruct Hd; done|lia].
Qed.

Lemma wf_handleConnection ws cid pid now s :
  battles_wf (battles s) →
  battles_wf (battles (handleConnection ws cid pid now s)).
Proof.
  intros Hs. unfold handleConnection.
  set (b0 := match battles s !! cid with
             | Some b => b | None => mkBattle cid [] [] ∅ st_waiting None now
             end).
  assert (Hb0 : battle_wf cid b0
            ∨ (challengeId b0 = cid ∧ players b0 = [] ∧ connections b0 = []
               ∧ status b0 = st_waiting)).
  { subst b0. destruct (battles s !! cid) eqn:Hb; [left; eauto|by right]. }
  cbv zeta. cbn [players status connections challengeId moves winner
    createdAt].
  destruct (decide (_ ∧ _)) as [Hd|Hd]; battles_norm;
    (apply wf_insert; [done|]); apply battle_wf_join; try done.
  - by rewrite decide_True.
  - by rewrite decide_False.
Qed.

Lemma wf_handleMessage cid pid msg now s :
  battles_wf (battles s) →
  battles_wf (battles (handleMessage cid pid msg now s)).
Proof.
  intros Hs. unfold handleMessage.
  destruct (battles s !! cid) as [b|] eqn:Hb; [|done].
  pose proof (Hs cid b Hb) as Hwf.
  assert (Hndc : NoDup (Js.keys (connections b))) by apply Hwf.
  destruct msg as [r mv|w|ty]; [| |done]; cbv zeta.
  - destruct (existsb _ _); [|case_decide]; battles_norm;
      (apply wf_insert; [done|]);
      (eapply battle_wf_ext; [exact Hwf|done..|by left]).
  - battles_norm. apply wf_insert; [done|].
    eapply battle_wf_ext; [exact Hwf|done..|by right].
Qed.

Lemma wf_handleDisconnect cid pid s :
  battles_wf (battles s) →
  battles_wf (battles (handleDisconnect cid pid s)).
Proof.
  intros Hs. unfold handleDisconnect.
  destruct (battles s !! cid) as [b|] eqn:Hb; [|done].
  pose proof (Hs cid b Hb) as Hwf.
  assert (Hleave : ∀ w, battle_wf cid
            (mkBattle (challengeId b) (players b)
               (Js.map_delete pid (connections b)) (moves b) (status b) w
               (createdAt b))).
  { intros w. eapply battle_wf_ext; [exact Hwf|done..| | |by left]; cbn.
    - apply JsFacts.NoDup_keys_map_delete, Hwf.
    - intros q. apply JsFacts.keys_map_delete. }
  cbv zeta. cbn [players status connections challengeId moves winner
    createdAt].
  assert (Hgoal : ∀ s3 w,
            battles s3
            = <[cid := mkBattle (challengeId b) (players b)
                         (Js.map_delete pid (connections b)) (moves b)
                         (status b) w (createdAt b)]> (battles s) →
            battles_wf (battles
              (if decide (length (Js.map_delete pid (connections b)) = 0)
               then cleanup cid s3 else s3))).
  { intros s3 w Hs3. case_decide; battles_norm; rewrite Hs3.
    - eapply wf_sub; [apply delete_subseteq|]. by apply wf_insert.
    - by apply wf_insert. }
  destruct (decide (status b = st_in_progress)).
  - destruct (find _ _) as [rem|]; [|eapply Hgoal; by battles_norm].
    destruct (Js.truthy rem); eapply Hgoal; by battles_norm.
  - eapply Hgoal; by battles_norm.
Qed.

Lemma wf_step s e : battles_wf (battles s) → battles_wf (battles (step s e)).
Proof.
  intros Hs. destruct e as [ws cid pid now|cid pid msg now|cid pid|ws|n|now];
    cbn [step].
  - unfold handleBattleConnection. destruct (_ || _); [done|].
    by apply wf_handleConnection.
  - by apply wf_handleMessage.
  - by apply wf_handleDisconnect.
  - done.
  - destruct (pending s !! n) as [[cid|cid]|]; cbn; [| |done].
    + destruct (battles s !! cid) as [b|] eqn:Hb; cbn; [|done].
      apply wf_insert; [done|].
      eapply battle_wf_ext; [exact (Hs cid b Hb)|done..| | |by right]; cbn;
        [apply (Hs cid b Hb)|done].
    + battles_norm. eapply wf_sub; [apply delete_subseteq|done].
  - eapply wf_sub; [apply battles_cleanup_scan|done].
Qed.

(** X10: every battle the manager can hold is stored under its own
    challenge id; its player set and its connection map list no peer
    twice; every connected peer is one of its players; it has at least
    one player; and while it is still waiting it has exactly one. *)
Theorem battle_wf_reachable es cid b :
  battles (run es) !! cid = Some b → battle_wf cid b.
Proof.
  revert cid b. induction es as [|e es IH] using rev_ind; intros cid b.
  - unfold run; cbn. by rewrite lookup_empty.
  - rewrite battle_run_snoc. apply (wf_step (run es) e). exact IH.
Qed.

Lemma battle_wf_reachable_witness :
  battle_wf "x" (mkBattle "x" ["A"; "B"; "C"] [("A", 1); ("B", 2); ("C", 3)]
                   ∅ st_in_progress None 0).
Proof.
  apply (battle_wf_reachable three_peers). by vm_compute.
Defined.

End BattleExtras.

(** ** Arena rooms: what the broadcasts send *)

Module ArenaFacts.
Import Arena.

Lemma arena_run_snoc es e : run (es ++ [e]) = step (run es) e.
Proof. unfold run. by rewrite foldl_snoc. Qed.

Lemma with_sent_id s : with_sent (sent s) s = s.
Proof. by destruct s. Qed.

Lemma with_sent_nil s : with_sent (sent s ++ []) s = s.
Proof. rewrite app_nil_r. apply with_sent_id. Qed.

Lemma with_sent_twice l l' s :
  with_sent (sent (with_sent l s) ++ l') (with_sent l s)
  = with_sent (l ++ l') s.
Proof. done. Qed.

Lemma arena_broadcast_loop msg ex (ids : list (Z * string)) s :
  foldl (λ acc cid,
           match connections acc !! cid with
           | Some conn =>
               if decide (ws conn ∈ open acc) then
                 if not_excluded ex (playerId conn)
                 then send (ws conn) msg acc else acc
               else acc
           | None => acc
           end) s ids
  = with_sent (sent s ++ frames_of (connections s) (open s) msg ex ids) s.
Proof.
  revert s. induction ids as [|cid ids IH]; intros s; simpl.
  - by rewrite with_sent_nil.
  - rewrite IH. clear IH.
    destruct (connections s !! cid) as [conn|]; [|done].
    destruct (decide (ws conn ∈ open s)); [|done].
    destruct (not_excluded ex (playerId conn)); [|done].
    unfold send, with_sent; simpl. by rewrite <- app_assoc.
Qed.

Lemma broadcastToGame_eq g msg ex s :
  broadcastToGame g msg ex s
  = with_sent (sent s ++ room_frames g msg ex s) s.
Proof.
  unfold broadcastToGame, room_frames.
  destruct (gameConnections s !! g) as [ids|]; simpl.
  - apply arena_broadcast_loop.
  - by rewrite with_sent_nil.
Qed.

Lemma sendToPlayer_eq p g msg s :
  sendToPlayer p g msg s = with_sent (sent s ++ player_frames p g msg s) s.
Proof.
  unfold sendToPlayer, player_frames.
  destruct (connections s !! (g, p)) as [conn|]; [|by rewrite with_sent_nil].
  destruct (decide (ws conn ∈ open s)); [done|by rewrite with_sent_nil].
Qed.

Lemma broadcastGameState_eq g s :
  broadcastGameState g s = with_sent (sent s ++ state_frames g s) s.
Proof.
  unfold broadcastGameState, state_frames.
  destruct (games s !! g); [apply broadcastToGame_eq|by rewrite with_sent_nil].
Qed.

(** Who receives a broadcast. *)
Lemma elem_of_room_frames g msg ex s w m :
  (w, m) ∈ room_frames g msg ex s
  ↔ m = msg
    ∧ ∃ cid conn, cid ∈ default [] (gameConnections s !! g)
        ∧ connections s !! cid = Some conn
        ∧ ws conn = w ∧ w ∈ open s
        ∧ not_excluded ex (playerId conn) = true.
Proof.
  unfold room_frames, frames_of. rewrite list_elem_of_omap. split.
  - intros (cid & Hin & Hf).
    destruct (connections s !! cid) as [conn|] eqn:Hc; [|done].
    destruct (decide (ws conn ∈ open s)); [|done].
    destruct (not_excluded ex (playerId conn)) eqn:Hex; [|done].
    injection Hf as <- <-. split; [done|]. by exists cid, conn.
  - intros (-> & cid & conn & Hin & Hc & <- & Hop & Hex).
    exists cid. split; [done|]. rewrite Hc.
    rewrite decide_True by done. by rewrite Hex.
Qed.

Lemma not_excluded_peer p q :
  p ≠ "" → not_excluded (Some p) q = true ↔ q ≠ p.
Proof.
  intros Hp. unfold not_excluded, Js.truthy.
  rewrite (bool_decide_eq_false_2 (p = "")) by done. simpl.
  rewrite negb_true_iff, bool_decide_eq_false. done.
Qed.

End ArenaFacts.

(** ** Arena rooms: single messages *)

Module ArenaClaims.
Import Arena ArenaFacts.

(** *** [start_game] with nobody ready *)

(** C6: in a waiting room with an empty ready set, [start_game] from a
    peer whose connection is open sends one frame, the error
    [No players ready], on that peer's socket, and returns the server
    state otherwise as it was: no broadcast, and the session, the
    registries and the timers are the same. *)
Theorem start_game_nobody_ready p g now s game conn :
  games s !! g = Some game →
  phase game = waiting →
  readyPlayers game = [] →
  connections s !! (g, p) = Some conn →
  ws conn ∈ open s →
  handlePhase3Message p g start_game now s
  = with_sent (sent s ++ [(ws conn, error_msg "No players ready")]) s.
Proof.
  intros Hg Hph Hready Hc Hopen. simpl.
  unfold handleStartGame, startGame, canStartGame. rewrite Hg.
  rewrite decide_False by (by rewrite Hph; intros ?).
  rewrite Hready; simpl.
  rewrite sendToPlayer_eq. unfold player_frames. rewrite Hc.
  by rewrite decide_True.
Qed.

Definition two_connected : list Event :=
  [ev_connect 1 (Some 7%Z) "alice" 0; ev_connect 2 (Some 7%Z) "bob" 100].

Lemma start_game_nobody_ready_witness :
  step (run two_connected) (ev_message "alice" 7 start_game 200)
  = with_sent (sent (run two_connected)
                 ++ [(1, error_msg "No players ready")])
      (run two_connected).
Proof.
  apply (start_game_nobody_ready "alice" 7 200 (run two_connected)
           (new_game 7) (mkConn 1 "alice" 7 0 true)).
  - by vm_compute.
  - reflexivity.
  - reflexivity.
  - by vm_compute.
  - apply (bool_decide_unpack _). by vm_compute.
Defined.

(** *** [update] *)

(** C9: an [update] frame from a peer [p] stores the data under [p]
    in the roster of the room's session and changes nothing else of
    the session or of the server: phase, ready set, winner, both
    start times and every timer are as before.  The frames sent are
    the [update] of [p] with that data, one on each open socket
    registered in the room under a peer other than [p]. *)
Theorem update_changes_only_the_roster p g d now s :
  p ≠ "" →
  let s' := handlePhase3Message p g (update_in d) now s in
  s' = with_sent (sent s ++ room_frames g (update p d) (Some p) s)
         (updatePlayerState g p d s)
  ∧ (∀ game, games s !! g = Some game →
       ∃ game', games s' = <[g := game']> (games s)
         ∧ players game' = Js.map_set p d (players game)
         ∧ Js.map_get p (players game') = Some d
         ∧ (∀ q, q ≠ p →
              Js.map_get q (players game') = Js.map_get q (players game))
         ∧ phase game' = phase game
         ∧ readyPlayers game' = readyPlayers game
         ∧ winner game' = winner game
         ∧ countdownStartTime game' = countdownStartTime game
         ∧ startTime game' = startTime game
         ∧ countdownDuration game' = countdownDuration game)
  ∧ (games s !! g = None → games s' = games s)
  ∧ gameTimers s' = gameTimers s
  ∧ gameDeadlineTimers s' = gameDeadlineTimers s
  ∧ pending s' = pending s
  ∧ (∀ w m, (w, m) ∈ room_frames g (update p d) (Some p) s
       ↔ m = update p d
         ∧ ∃ cid conn, cid ∈ default [] (gameConnections s !! g)
             ∧ connections s !! cid = Some conn
             ∧ ws conn = w ∧ w ∈ open s ∧ playerId conn ≠ p).
Proof.
  intros Hp s'.
  assert (Hs' : s' = with_sent
                       (sent s ++ room_frames g (update p d) (Some p) s)
                       (updatePlayerState g p d s)).
  { subst s'; simpl. unfold handlePlayerUpdate. rewrite broadcastToGame_eq.
    unfold updatePlayerState. by destruct (games s !! g). }
  split; [exact Hs'|]. rewrite Hs'. unfold updatePlayerState.
  split_and!.
  - intros game Hg. rewrite Hg. eexists. split; [reflexivity|]. simpl.
    split_and!; try done.
    + apply JsFacts.map_get_set.
    + intros q Hq. by apply JsFacts.map_get_set_ne.
  - by intros ->.
  - by destruct (games s !! g).
  - by destruct (games s !! g).
  - by destruct (games s !! g).
  - intros w m. rewrite elem_of_room_frames.
    split; intros (-> & cid & conn & ? & ? & ? & ? & Hex);
      (split; [done|]); exists cid, conn; split_and!; try done;
      by apply (not_excluded_peer p (playerId conn) Hp).
Qed.

Definition alice_state : PlayerState :=
  Some (mkPlayerState (Some "alice") 10 20 100 100 true false false "Alice"
          "red" 12 0 0).

Lemma update_changes_only_the_roster_witness :
  sent (step (run two_connected)
          (ev_message "alice" 7 (update_in alice_state) 300))
  = sent (run two_connected) ++ [(2, update "alice" alice_state)].
Proof.
  destruct (update_changes_only_the_roster "alice" 7 alice_state 300
              (run two_connected)) as (Heq & _); [done|].
  etrans; [exact (f_equal sent Heq)|]. by vm_compute.
Defined.

(** *** [heartbeat] *)

Definition alice_connected : list Event :=
  [ev_connect 1 (Some 7%Z) "alice" 0].

(** C5, as stated, fails on the TypeScript server: a [heartbeat] from
    a connected peer updates the connection record and sends
    nothing. *)
Lemma heartbeat_sends_no_ack :
  let s := run alice_connected in
  let s' := step s (ev_message "alice" 7 heartbeat 50) in
  sent s' = sent s
  ∧ length (sent s') = 1
  ∧ connections s !! (7%Z, "alice") = Some (mkConn 1 "alice" 7 0 true)
  ∧ connections s' !! (7%Z, "alice") = Some (mkConn 1 "alice" 7 50 true)
  ∧ ¬ ∃ ts, (1, heartbeat_ack ts) ∈ sent s'.
Proof.
  split_and!; [by vm_compute..|].
  intros (ts & Hin). vm_compute in Hin.
  apply list_elem_of_singleton in Hin. discriminate Hin.
Qed.

Lemma legacy_send_fields w msg ts s :
  Legacy.sockets (Legacy.send w msg ts s) = Legacy.sockets s
  ∧ Legacy.games (Legacy.send w msg ts s) = Legacy.games s.
Proof. done. Qed.

(** C5 (amended): on a [heartbeat] from a connected peer the
    TypeScript server sets the connection's [lastHeartbeat] to the
    current time and [isAlive] to [true], and sends no frame; the
    legacy [server.js] sets the socket's [isAlive] and sends exactly
    one frame, a [heartbeat_ack], on the socket the heartbeat came
    from. *)
Theorem heartbeat_touch_and_reply p g now s conn w ls sock :
  connections s !! (g, p) = Some conn →
  Legacy.sockets ls !! w = Some sock →
  let s' := handlePhase3Message p g heartbeat now s in
  let ls' := Legacy.handleMessage w Legacy.heartbeat now ls in
  (s' = with_connections
          (<[(g, p) := mkConn (ws conn) (playerId conn) (c_gameId conn)
                         now true]> (connections s)) s
   ∧ sent s' = sent s)
  ∧ (Legacy.sent ls' = Legacy.sent ls ++ [(w, heartbeat_ack now, now)]
     ∧ (Legacy.isAlive <$> Legacy.sockets ls' !! w) = Some true
     ∧ Legacy.games ls' = Legacy.games ls).
Proof.
  intros Hc Hw s' ls'. subst s' ls'; simpl.
  unfold handleHeartbeat, updateHeartbeat, Legacy.handleMessage.
  rewrite Hc, Hw; simpl. split_and!; try done.
  by rewrite lookup_insert_eq.
Qed.

Lemma heartbeat_touch_and_reply_witness :
  sent (step (run alice_connected) (ev_message "alice" 7 heartbeat 50))
  = sent (run alice_connected)
  ∧ Legacy.sent
      (Legacy.handleMessage 1 Legacy.heartbeat 50
         (Legacy.mkState ∅ {[1 := Legacy.mkSocket "7" "alice" false 0]}
            {[1]} []))
    = [(1, heartbeat_ack 50, 50%Z)].
Proof.
  destruct (heartbeat_touch_and_reply "alice" 7 50 (run alice_connected)
              (mkConn 1 "alice" 7 0 true) 1
              (Legacy.mkState ∅ {[1 := Legacy.mkSocket "7" "alice" false 0]}
                 {[1]} [])
              (Legacy.mkSocket "7" "alice" false 0))
    as ((_ & Hts) & (Hjs & _)).
  - by vm_compute.
  - by vm_compute.
  - split; [exact Hts|exact Hjs].
Defined.

(** *** [mark_ready] and the auto-start *)

Lemma length_set_add_pos (x : string) l : 0 < length (Js.set_add x l).
Proof.
  unfold Js.set_add. case_decide as Hin.
  - destruct l; [by apply elem_of_nil in Hin|simpl; lia].
  - rewrite length_app; simpl; lia.
Qed.

(** After [mark_ready] in a waiting (or new) room, [checkAutoStart]
    finds [canStart] set and arms the +1000 ms auto-start timer,
    whatever the size of the ready set. *)
Lemma mark_ready_always_schedules p g now s :
  (∀ game, games s !! g = Some game → phase game = waiting) →
  pending (handlePhase3Message p g mark_ready now s) !! nextTimer s
  = Some (t_auto_start g, 1000%Z).
Proof.
  intros Hw. simpl. unfold handleMarkReady, markPlayerReady, getOrCreateGame.
  unfold onGameStateChange.
  assert (Hgoal : ∀ game s0, phase game = waiting →
    nextTimer s0 = nextTimer s →
    games s0 !! g = Some game →
    pending (checkAutoStart g
      (let s1 := broadcastGameState g
          (put g (mkGame (gameId game) (phase game) (countdownStartTime game)
                    (countdownDuration game) (players game)
                    (Js.set_add p (readyPlayers game)) (startTime game)
                    (winner game)) s0) in
       match games s1 !! g with
       | Some _ => broadcastGameState g s1
       | None => s1
       end)) !! nextTimer s = Some (t_auto_start g, 1000%Z)).
  { intros game s0 Hph Hnt Hg0. cbv zeta.
    rewrite !broadcastGameState_eq; simpl. rewrite lookup_insert_eq.
    rewrite ?broadcastGameState_eq; simpl.
    unfold checkAutoStart, canStartGame; simpl. rewrite lookup_insert_eq.
    simpl. rewrite decide_False by (by rewrite Hph; intros ?).
    pose proof (length_set_add_pos p (readyPlayers game)) as Hpos.
    rewrite decide_False by lia.
    case_decide; simpl; rewrite Hnt; apply lookup_insert_eq. }
  destruct (games s !! g) as [game|] eqn:Hg.
  - rewrite Hg. apply Hgoal; auto.
  - unfold put at 2; simpl. rewrite lookup_insert_eq.
    apply (Hgoal (new_game g) (put g (new_game g) s)); try done.
    unfold put; simpl. apply lookup_insert_eq.
Qed.

(** The compact revision arms the timer exactly when two peers are
    ready. *)
Lemma clean_auto_start_needs_two g s game :
  games s !! g = Some game →
  (pending (Clean.checkAutoStart g s) !! nextTimer s
     = Some (t_auto_start g, 1000%Z)
   ∧ 2 ≤ length (readyPlayers game))
  ∨ (Clean.checkAutoStart g s = s ∧ length (readyPlayers game) < 2).
Proof.
  intros Hg. unfold Clean.checkAutoStart, Clean.canStartGame. rewrite Hg.
  simpl. case_bool_decide.
  - left. split; [apply lookup_insert_eq|done].
  - right. split; [done|lia].
Qed.

Definition alice_ready : list Event :=
  [ev_connect 1 (Some 7%Z) "alice" 0; ev_message "alice" 7 mark_ready 200].

(** C4 at its failing input: one peer connects to room 7 and sends
    [mark_ready].  The ready set has one member, yet the +1000 ms
    auto-start timer is armed, and when it fires the room ends with
    that peer as winner.  The gate of the compact revision rejects the
    same state. *)
Lemma single_ready_peer_arms_auto_start :
  let s := run alice_ready in
  (readyPlayers <$> games s !! 7%Z) = Some ["alice"]
  ∧ (phase <$> games (run alice_connected) !! 7%Z) = Some waiting
  ∧ pending (run alice_connected) = ∅
  ∧ map_to_list (pending s) = [(0, (t_auto_start 7, 1000%Z))]
  ∧ canStart (canStartGame 7 s) = true
  ∧ Clean.canStartGame 7 s = (false, 1)
  ∧ ((λ game, (phase game, winner game))
       <$> games (step s (ev_fire 0 1200)) !! 7%Z)
    = Some (ended, Some "alice").
Proof. split_and!; by vm_compute. Qed.

(** *** [eliminated] *)

Definition player (name : string) (alive : bool) : PlayerState :=
  Some (mkPlayerState (Some name) 0 0 100 100 alive false false name "red"
          12 0 0).

(** Two peers join room 7, report themselves alive, become ready; the
    auto-start and the countdown timers fire: the room is active. *)
Definition two_playing : list Event :=
  [ev_connect 1 (Some 7%Z) "alice" 0; ev_connect 2 (Some 7%Z) "bob" 100;
   ev_message "alice" 7 mark_ready 200; ev_message "bob" 7 mark_ready 300;
   ev_message "alice" 7 (update_in (player "alice" true)) 400;
   ev_message "bob" 7 (update_in (player "bob" true)) 500;
   ev_fire 0 1200; ev_fire 2 16200].


(** The same slip, seen from the other side: when [bob] is already
    stored dead, [eliminated] from [alice] makes the check find her
    as the only peer alive and declare her, the peer just eliminated,
    the winner. *)
Lemma eliminated_peer_declared_winner :
  let s := step (run two_playing)
             (ev_message "bob" 7 (update_in (player "bob" false)) 16500) in
  let s' := step s (ev_message "alice" 7 eliminated_in 17000) in
  ((λ game, (phase game, winner game)) <$> games s !! 7%Z)
  = Some (active, None)
  ∧ ((λ game, (phase game, winner game)) <$> games s' !! 7%Z)
    = Some (ended, Some "alice").
Proof. split_and!; by vm_compute. Qed.







End ArenaClaims.

(** ** Arena rooms: operations that leave the sessions alone *)

Module ArenaFrames.
Import Arena ArenaFacts.

Lemma phase_le_refl p : phase_le p p.
Proof. unfold phase_le. lia. Qed.

Lemma phase_le_trans p q r : phase_le p q → phase_le q r → phase_le p r.
Proof. unfold phase_le. lia. Qed.

Lemma phase_le_ended p : phase_le p ended.
Proof. unfold phase_le. destruct p; simpl; lia. Qed.

Lemma pend_sub_refl s : pend_sub s s.
Proof. by split_and!. Qed.

Lemma pend_sub_trans s1 s2 s3 :
  pend_sub s1 s2 → pend_sub s2 s3 → pend_sub s1 s3.
Proof.
  intros (Hg1 & Ht1 & Hp1) (Hg2 & Ht2 & Hp2). split_and!.
  - by rewrite Hg2.
  - by rewrite Ht2.
  - eauto.
Qed.

Lemma pend_sub_timers_ok s s' : pend_sub s s' → timers_ok s → timers_ok s'.
Proof.
  intros (Hg & Ht & Hp) Hok t g d Hpend.
  rewrite Hg, Ht. apply (Hok t g d). eauto.
Qed.

Lemma mono_games_eq s s' : games s' = games s → mono s s'.
Proof.
  intros Heq g a b Ha Hb. rewrite Heq, Ha in Hb. injection Hb as <-.
  apply phase_le_refl.
Qed.

Lemma pend_sub_gm_ok s s' : pend_sub s s' → gm_ok s s'.
Proof.
  intros H Hok. split; [by apply (pend_sub_timers_ok s)|].
  apply mono_games_eq, H.
Qed.

Lemma gm_ok_pre s s1 s2 : pend_sub s s1 → gm_ok s1 s2 → gm_ok s s2.
Proof.
  intros Hps H Hok.
  destruct (H (pend_sub_timers_ok _ _ Hps Hok)) as [Hok2 Hmono].
  split; [done|].
  intros g a b Ha Hb. destruct Hps as (Hg & _).
  apply (Hmono g a b); [by rewrite Hg|done].
Qed.

Lemma gm_ok_post s s1 s2 : gm_ok s s1 → pend_sub s1 s2 → gm_ok s s2.
Proof.
  intros H Hps Hok. destruct (H Hok) as [Hok1 Hmono]. split.
  - by apply (pend_sub_timers_ok s1).
  - intros g a b Ha Hb. destruct Hps as (Hg & _).
    apply (Hmono g a b); [done|by rewrite <- Hg].
Qed.

Lemma roster_sub_refl g q s : roster_sub g q s s.
Proof. intros game' ? ?. by exists game'. Qed.

Lemma roster_sub_trans g q s1 s2 s3 :
  roster_sub g q s1 s2 → roster_sub g q s2 s3 → roster_sub g q s1 s3.
Proof.
  intros H12 H23 game3 Hg3 Hq3.
  destruct (H23 game3 Hg3 Hq3) as (game2 & Hg2 & Hq2). eauto.
Qed.

Lemma roster_sub_games_eq g q s s' : games s' = games s → roster_sub g q s s'.
Proof. intros Heq game' Hg' Hq. rewrite Heq in Hg'. eauto. Qed.

Lemma pend_sub_roster g q s s' : pend_sub s s' → roster_sub g q s s'.
Proof. intros (Hg & _). by apply roster_sub_games_eq. Qed.

(** The operations of the connection registry and of the sockets. *)

Lemma pend_sub_with_sent l s : pend_sub s (with_sent l s).
Proof. by split_and!. Qed.

Lemma pend_sub_ws_close w s : pend_sub s (ws_close w s).
Proof. by split_and!. Qed.

Lemma pend_sub_ws_open w s : pend_sub s (ws_open w s).
Proof. by split_and!. Qed.

Lemma pend_sub_addConnection w p g now s :
  pend_sub s (addConnection w p g now s).
Proof. by split_and!. Qed.

Lemma pend_sub_removeConnection p g s : pend_sub s (removeConnection p g s).
Proof.
  unfold removeConnection; simpl.
  destruct (gameConnections s !! g); [|by split_and!].
  case_decide; by split_and!.
Qed.

Lemma pend_sub_updateHeartbeat p g now s :
  pend_sub s (updateHeartbeat p g now s).
Proof.
  unfold updateHeartbeat. destruct (connections s !! (g, p)); by split_and!.
Qed.

Lemma pend_sub_broadcastToGame g msg ex s :
  pend_sub s (broadcastToGame g msg ex s).
Proof. rewrite broadcastToGame_eq. apply pend_sub_with_sent. Qed.

Lemma pend_sub_broadcastGameState g s : pend_sub s (broadcastGameState g s).
Proof. rewrite broadcastGameState_eq. apply pend_sub_with_sent. Qed.

Lemma pend_sub_sendToPlayer p g msg s : pend_sub s (sendToPlayer p g msg s).
Proof. rewrite sendToPlayer_eq. apply pend_sub_with_sent. Qed.

Lemma pend_sub_sendInitialGameState w g s :
  pend_sub s (sendInitialGameState w g s).
Proof.
  unfold sendInitialGameState. destruct (games s !! g); [|apply pend_sub_refl].
  cbv zeta. repeat case_decide; by split_and!.
Qed.

Lemma pend_sub_checkStaleConnections now s :
  pend_sub s (checkStaleConnections now s).
Proof.
  unfold checkStaleConnections.
  apply (map_fold_weak_ind (λ r _, pend_sub s r)); [apply pend_sub_refl|].
  intros cid conn m r _ IH. case_decide; [|done].
  eapply pend_sub_trans; [exact IH|].
  eapply pend_sub_trans; [|apply pend_sub_removeConnection].
  case_decide; [apply pend_sub_ws_close|apply pend_sub_refl].
Qed.

Lemma pend_sub_clearTimeout t s : pend_sub s (clearTimeout t s).
Proof.
  split_and!; [done..|]. simpl. intros t' g d H.
  apply lookup_delete_Some in H. tauto.
Qed.

(** Arming a timer that is not a countdown. *)
Lemma pend_sub_setTimeout cb delay s :
  (∀ g, cb ≠ t_countdown g) → pend_sub s (setTimeout cb delay s).2.
Proof.
  intros Hcb. split_and!; [done..|]. intros t g d H.
  unfold setTimeout in H. cbn in H.
  destruct (decide (nextTimer s = t)) as [Heq|Hne].
  - rewrite Heq, lookup_insert_eq in H. injection H as -> _.
    by destruct (Hcb g).
  - by rewrite lookup_insert_ne in H.
Qed.

Lemma pend_sub_checkAutoStart g s : pend_sub s (checkAutoStart g s).
Proof.
  unfold checkAutoStart. destruct (canStart _); [|apply pend_sub_refl].
  by apply pend_sub_setTimeout.
Qed.

Lemma pend_sub_startDeadlineMonitor g deadline now s :
  pend_sub s (startDeadlineMonitor g deadline now s).
Proof.
  unfold startDeadlineMonitor.
  set (s1 := match gameDeadlineTimers s !! g with
             | Some t => clearTimeout t s | None => s end).
  assert (H1 : pend_sub s s1).
  { subst s1. destruct (gameDeadlineTimers s !! g);
      [apply pend_sub_clearTimeout|apply pend_sub_refl]. }
  cbv zeta. case_decide.
  - eapply pend_sub_trans; [exact H1|apply pend_sub_checkAutoStart].
  - eapply pend_sub_trans; [exact H1|].
    pose proof (pend_sub_setTimeout (t_deadline g) (deadline - now) s1) as H2.
    simpl in *. destruct H2 as (? & ? & ?); [done|]. by split_and!.
Qed.

(** Peel one registry or socket operation off the state of a
    [pend_sub] goal. *)
Ltac pend_peel1 :=
  eapply pend_sub_trans;
  [| first [ apply pend_sub_broadcastToGame
           | apply pend_sub_broadcastGameState
           | apply pend_sub_sendToPlayer
           | apply pend_sub_sendInitialGameState
           | apply pend_sub_checkAutoStart
           | apply pend_sub_startDeadlineMonitor
           | apply pend_sub_updateHeartbeat
           | apply pend_sub_removeConnection
           | apply pend_sub_addConnection
           | apply pend_sub_clearTimeout
           | apply pend_sub_ws_close
           | apply pend_sub_ws_open
           | apply pend_sub_checkStaleConnections
           | apply pend_sub_with_sent ] ].

Ltac pend_frames := repeat first [ apply pend_sub_refl | pend_peel1 ].

(** [roster_frames] closes a goal between two known states;
    [roster_peel] finds the state under the outer operations. *)
Ltac roster_frames := solve [apply pend_sub_roster; pend_frames].

Ltac roster_peel :=
  apply pend_sub_roster; repeat pend_peel1; apply pend_sub_refl.

End ArenaFrames.

(** ** Arena rooms: the operations of the game manager *)

Module ArenaSessions.
Import Arena ArenaFacts ArenaFrames.

Lemma put_put g x y s : put g x (put g y s) = put g x s.
Proof. unfold put, with_games; simpl. by rewrite insert_insert_eq. Qed.

Lemma put_same_phase_ok g game game' s :
  games s !! g = Some game → phase game' = phase game →
  gm_ok s (put g game' s).
Proof.
  intros Hg Hph Hok. split.
  - intros t g0 d Hp. simpl in Hp.
    destruct (Hok t g0 d Hp) as (Ht & game0 & Hg0 & Hc).
    split; [done|]. simpl. destruct (decide (g = g0)) as [->|Hne].
    + exists game'. rewrite lookup_insert_eq. split; [done|].
      rewrite Hph. congruence.
    + exists game0. by rewrite lookup_insert_ne.
  - intros g0 a b Ha Hb. simpl in Hb.
    destruct (decide (g = g0)) as [->|Hne].
    + rewrite lookup_insert_eq in Hb. injection Hb as <-.
      rewrite Hg in Ha. injection Ha as <-. rewrite Hph.
      apply phase_le_refl.
    + rewrite lookup_insert_ne, Ha in Hb by done. injection Hb as <-.
      apply phase_le_refl.
Qed.

Lemma put_fresh_ok g game' s :
  games s !! g = None → gm_ok s (put g game' s).
Proof.
  intros Hg Hok. split.
  - intros t g0 d Hp. simpl in Hp.
    destruct (Hok t g0 d Hp) as (Ht & game0 & Hg0 & Hc).
    split; [done|]. simpl. exists game0.
    rewrite lookup_insert_ne by congruence. done.
  - intros g0 a b Ha Hb. simpl in Hb.
    rewrite lookup_insert_ne, Ha in Hb by congruence. injection Hb as <-.
    apply phase_le_refl.
Qed.

Lemma getOrCreateGame_ok g s : gm_ok s (getOrCreateGame g s).
Proof.
  unfold getOrCreateGame. destruct (games s !! g) eqn:Hg.
  - apply pend_sub_gm_ok, pend_sub_refl.
  - by apply put_fresh_ok.
Qed.

Lemma markPlayerReady_eq g p s :
  markPlayerReady g p s
  = broadcastGameState g (put g (ready_game g p s) s).
Proof.
  unfold markPlayerReady, getOrCreateGame, onGameStateChange, ready_game.
  destruct (games s !! g) as [game|] eqn:Hg; cbv zeta.
  - by rewrite Hg.
  - assert (Hn : games (put g (new_game g) s) !! g = Some (new_game g))
      by apply lookup_insert_eq.
    rewrite Hn. by rewrite put_put.
Qed.

Lemma markPlayerReady_ok g p s : gm_ok s (markPlayerReady g p s).
Proof.
  rewrite markPlayerReady_eq.
  eapply gm_ok_post; [|apply pend_sub_broadcastGameState].
  unfold ready_game. destruct (games s !! g) as [game|] eqn:Hg.
  - by eapply put_same_phase_ok.
  - by apply put_fresh_ok.
Qed.

Lemma updatePlayerState_ok g p d s : gm_ok s (updatePlayerState g p d s).
Proof.
  unfold updatePlayerState. destruct (games s !! g) as [game|] eqn:Hg.
  - by eapply put_same_phase_ok.
  - apply pend_sub_gm_ok, pend_sub_refl.
Qed.

Lemma clearGameTimer_with_games g m s :
  clearGameTimer g (with_games m s) = with_games m (clearGameTimer g s).
Proof. unfold clearGameTimer; simpl. by destruct (gameTimers s !! g). Qed.

(** Forgetting the countdown handle of room [g], whatever becomes of
    its session. *)
Lemma clear_ok g s m :
  timers_ok s →
  (∀ g0, g0 ≠ g → m !! g0 = games s !! g0) →
  timers_ok (with_games m (clearGameTimer g s)).
Proof.
  intros Hok Hm t g0 d Hp. unfold clearGameTimer in *.
  destruct (gameTimers s !! g) as [timer|] eqn:Ht; simpl in *.
  - apply lookup_delete_Some in Hp as [Hne Hp].
    destruct (Hok t g0 d Hp) as (Ht0 & game0 & Hg0 & Hc).
    assert (g0 ≠ g) by congruence.
    rewrite lookup_delete_ne by done. split; [done|].
    exists game0. by rewrite Hm.
  - destruct (Hok t g0 d Hp) as (Ht0 & game0 & Hg0 & Hc).
    assert (g0 ≠ g) by congruence.
    split; [done|]. exists game0. by rewrite Hm.
Qed.

Lemma games_clearGameTimer g s : games (clearGameTimer g s) = games s.
Proof. unfold clearGameTimer. by destruct (gameTimers s !! g). Qed.

Lemma removePlayer_ok g p s : gm_ok s (removePlayer g p s).
Proof.
  unfold removePlayer. destruct (games s !! g) as [game|] eqn:Hg;
    [|apply pend_sub_gm_ok, pend_sub_refl].
  cbv zeta. case_decide as Hempty; [|by eapply put_same_phase_ok].
  intros Hok. unfold put. rewrite clearGameTimer_with_games.
  change (with_games ?m (with_games ?m' ?x)) with (with_games m x).
  cbn [games with_games]. split.
  - apply clear_ok; [done|]. intros g0 Hne.
    by rewrite lookup_delete_ne, lookup_insert_ne.
  - intros g0 a b Ha Hb. simpl in Hb.
    destruct (decide (g = g0)) as [->|Hne].
    + by rewrite lookup_delete_eq in Hb.
    + rewrite lookup_delete_ne, lookup_insert_ne, Ha in Hb by done.
      injection Hb as <-. apply phase_le_refl.
Qed.

Lemma declareWinner_ok g w s : gm_ok s (declareWinner g w s).
Proof.
  unfold declareWinner. destruct (games s !! g) as [game|] eqn:Hg;
    [|apply pend_sub_gm_ok, pend_sub_refl].
  intros Hok. unfold put. rewrite clearGameTimer_with_games. split.
  - apply clear_ok; [done|]. intros g0 Hne. by rewrite lookup_insert_ne.
  - intros g0 a b Ha Hb. simpl in Hb.
    destruct (decide (g = g0)) as [->|Hne].
    + rewrite lookup_insert_eq in Hb. injection Hb as <-.
      apply phase_le_ended.
    + rewrite lookup_insert_ne, Ha in Hb by done.
      injection Hb as <-. apply phase_le_refl.
Qed.

(** A session that is still waiting has no countdown timer armed. *)
Lemma waiting_has_no_countdown s g game t d :
  timers_ok s → games s !! g = Some game → phase game = waiting →
  pending s !! t ≠ Some (t_countdown g, d).
Proof.
  intros Hok Hg Hph Hp. destruct (Hok t g d Hp) as (_ & game0 & Hg0 & Hc).
  congruence.
Qed.

Lemma startGame_ok g now s : gm_ok s (startGame g now s).2.
Proof.
  unfold startGame, canStartGame.
  destruct (games s !! g) as [game|] eqn:Hg;
    [|apply pend_sub_gm_ok, pend_sub_refl].
  cbv zeta.
  destruct (decide (phase game ≠ waiting)) as [Hnw|Hw];
    [apply pend_sub_gm_ok, pend_sub_refl|].
  assert (Hph : phase game = waiting).
  { destruct (decide (phase game = waiting)); [done|by destruct Hw]. }
  clear Hw.
  destruct (decide (length (readyPlayers game) = 0));
    [apply pend_sub_gm_ok, pend_sub_refl|].
  assert (Hmono : ∀ game' s', games s' = <[g := game']> (games s) →
            mono s s').
  { intros game' s' Hs' g0 a b Ha Hb. rewrite Hs' in Hb.
    destruct (decide (g = g0)) as [->|Hne].
    - rewrite Hg in Ha. injection Ha as <-. rewrite Hph.
      unfold phase_le; simpl; lia.
    - rewrite lookup_insert_ne, Ha in Hb by done. injection Hb as <-.
      apply phase_le_refl. }
  destruct (decide (length (readyPlayers game) = 1)) as [H1|H1]; simpl;
    [|rewrite (decide_False (P := length (readyPlayers game) = 1)) by done;
      simpl];
    intros Hok; (split; [|eapply Hmono; reflexivity]).
  - intros t g0 d Hp. simpl in Hp.
    destruct (Hok t g0 d Hp) as (Ht0 & game0 & Hg0 & Hc).
    assert (g0 ≠ g) by congruence.
    split; [done|]. simpl. exists game0. by rewrite lookup_insert_ne.
  - intros t g0 d Hp. simpl in Hp.
    destruct (decide (nextTimer s = t)) as [Heq|Hne].
    + rewrite Heq, lookup_insert_eq in Hp. injection Hp as <- <-. simpl.
      rewrite Heq, !lookup_insert_eq. split; [done|]. by eexists.
    + rewrite lookup_insert_ne in Hp by done.
      destruct (Hok t g0 d Hp) as (Ht0 & game0 & Hg0 & Hc).
      assert (g0 ≠ g) by congruence. simpl.
      rewrite !lookup_insert_ne by done. split; [done|]. by exists game0.
Qed.

(** The countdown timer [t] of room [g] fires. *)
Lemma transitionToActive_ok t g d now s :
  pending s !! t = Some (t_countdown g, d) →
  gm_ok s (transitionToActive g now (clearTimeout t s)).
Proof.
  intros Hp Hok. destruct (Hok t g d Hp) as (Ht & game & Hg & Hc).
  unfold transitionToActive, onGameStateChange; simpl. rewrite Hg.
  rewrite broadcastGameState_eq. split.
  - intros t' g0 d' Hp'. simpl in Hp'.
    apply lookup_delete_Some in Hp' as [Hne Hp'].
    destruct (Hok t' g0 d' Hp') as (Ht0 & game0 & Hg0 & Hc0).
    assert (g0 ≠ g) by congruence. simpl.
    rewrite lookup_insert_ne by done. split; [done|]. by exists game0.
  - intros g0 a b Ha Hb. simpl in Hb.
    destruct (decide (g = g0)) as [->|Hne].
    + rewrite lookup_insert_eq in Hb. injection Hb as <-.
      rewrite Hg in Ha. injection Ha as <-. rewrite Hc.
      unfold phase_le; simpl; lia.
    + rewrite lookup_insert_ne, Ha in Hb by done. injection Hb as <-.
      apply phase_le_refl.
Qed.

End ArenaSessions.

(** ** Arena rooms: every event keeps the invariants *)

Module ArenaSteps.
Import Arena ArenaFacts ArenaFrames ArenaSessions.

Lemma handleMessage_ok p g msg now s : gm_ok s (handleMessage p g msg now s).
Proof.
  destruct msg as [| | |data| |w|deadline|ty]; simpl.
  - apply pend_sub_gm_ok, pend_sub_updateHeartbeat.
  - unfold handleMarkReady. cbv zeta.
    destruct (games (markPlayerReady g p s) !! g).
    + eapply gm_ok_post; [apply markPlayerReady_ok|].
      apply pend_sub_broadcastGameState.
    + apply markPlayerReady_ok.
  - unfold handleStartGame.
    pose proof (startGame_ok g now s) as Hst.
    destruct (startGame g now s) as [result s1]. simpl in Hst.
    destruct (success result), (gameState result) as [gs|];
      try (eapply gm_ok_post; [exact Hst|apply pend_sub_sendToPlayer]).
    eapply gm_ok_post; [exact Hst|].
    case_decide.
    + eapply pend_sub_trans; [apply pend_sub_broadcastGameState|].
      apply pend_sub_broadcastToGame.
    + apply pend_sub_broadcastGameState.
  - unfold handlePlayerUpdate.
    eapply gm_ok_post; [apply updatePlayerState_ok|].
    apply pend_sub_broadcastToGame.
  - unfold handleEliminated. cbv zeta.
    pose proof (pend_sub_broadcastToGame g (eliminated p) None s) as Hb.
    destruct (games _ !! g) as [game|]; [|by apply pend_sub_gm_ok].
    case_decide; [|by apply pend_sub_gm_ok].
    destruct (alive_players _) as [[|w [|w' l]]|];
      try by apply pend_sub_gm_ok.
    eapply gm_ok_pre; [exact Hb|].
    destruct (ps_id w) as [winnerId|]; [|apply declareWinner_ok].
    eapply gm_ok_post; [apply declareWinner_ok|].
    apply pend_sub_broadcastToGame.
  - unfold handleWinner. destruct w as [w|];
      [|apply pend_sub_gm_ok, pend_sub_refl].
    eapply gm_ok_post; [apply declareWinner_ok|].
    apply pend_sub_broadcastToGame.
  - apply pend_sub_gm_ok, pend_sub_refl.
  - apply pend_sub_gm_ok, pend_sub_refl.
Qed.

Lemma step_ok s e : gm_ok s (step s e).
Proof.
  destruct e as [w g p now|p g msg now|p g|t now|w|now]; simpl.
  - eapply gm_ok_pre; [apply (pend_sub_ws_open w)|].
    unfold handlePhase3Connection.
    destruct g as [g|]; [|apply pend_sub_gm_ok, pend_sub_ws_close].
    destruct (_ || _); [apply pend_sub_gm_ok, pend_sub_ws_close|].
    cbv zeta. unfold addPlayer.
    eapply gm_ok_pre; [apply (pend_sub_addConnection w p g now)|].
    eapply gm_ok_post; [apply getOrCreateGame_ok|].
    eapply pend_sub_trans; [apply pend_sub_sendInitialGameState|].
    apply pend_sub_broadcastToGame.
  - unfold handlePhase3Message.
    destruct msg as [| | |data| |w|deadline|ty];
      try apply handleMessage_ok.
    + eapply gm_ok_post; [apply handleMessage_ok|].
      apply pend_sub_checkAutoStart.
    + apply pend_sub_gm_ok, pend_sub_startDeadlineMonitor.
  - unfold on_close. cbv zeta.
    eapply gm_ok_pre; [apply (pend_sub_removeConnection p g)|].
    eapply gm_ok_post; [apply removePlayer_ok|].
    apply pend_sub_broadcastToGame.
  - destruct (pending s !! t) as [[cb d]|] eqn:Hp;
      [|apply pend_sub_gm_ok, pend_sub_refl].
    destruct cb as [g|g|g]; simpl.
    + by eapply transitionToActive_ok.
    + eapply gm_ok_pre; [apply (pend_sub_clearTimeout t)|].
      pose proof (startGame_ok g now (clearTimeout t s)) as Hst.
      destruct (startGame g now (clearTimeout t s)) as [result s1].
      simpl in Hst. destruct (success result); [|done].
      eapply gm_ok_post; [exact Hst|apply pend_sub_broadcastGameState].
    + eapply gm_ok_pre; [apply (pend_sub_clearTimeout t)|].
      apply pend_sub_gm_ok, pend_sub_checkAutoStart.
  - apply pend_sub_gm_ok, pend_sub_ws_close.
  - apply pend_sub_gm_ok, pend_sub_checkStaleConnections.
Qed.

Lemma timers_ok_init : timers_ok init.
Proof. intros t g d H. cbn in H. by rewrite lookup_empty in H. Qed.

Lemma timers_ok_run es : timers_ok (run es).
Proof.
  induction es as [|e es IH] using rev_ind.
  - apply timers_ok_init.
  - rewrite arena_run_snoc. by apply step_ok.
Qed.

Lemma step_mono es e : mono (run es) (step (run es) e).
Proof. apply step_ok, timers_ok_run. Qed.

(** *** The roster *)

Lemma roster_sub_put_fresh g q g0 game' s :
  games s !! g0 = None → players game' = [] →
  roster_sub g q s (put g0 game' s).
Proof.
  intros Hnone Hnil game1 Hg1 Hq. simpl in Hg1.
  destruct (decide (g0 = g)) as [->|Hne].
  - rewrite lookup_insert_eq in Hg1. injection Hg1 as <-.
    rewrite Hnil in Hq. by apply elem_of_nil in Hq.
  - rewrite lookup_insert_ne in Hg1 by done. eauto.
Qed.

Lemma roster_sub_put g q g0 game game' s :
  games s !! g0 = Some game →
  (q ∈ Js.keys (players game') → q ∈ Js.keys (players game)) →
  roster_sub g q s (put g0 game' s).
Proof.
  intros Hg0 Hsub game1 Hg1 Hq. simpl in Hg1.
  destruct (decide (g0 = g)) as [->|Hne].
  - rewrite lookup_insert_eq in Hg1. injection Hg1 as <-. eauto.
  - rewrite lookup_insert_ne in Hg1 by done. eauto.
Qed.

Lemma roster_sub_delete g q g0 s s' :
  games s' = delete g0 (games s) → roster_sub g q s s'.
Proof.
  intros Heq game1 Hg1 Hq. rewrite Heq in Hg1.
  apply lookup_delete_Some in Hg1 as [_ Hg1]. eauto.
Qed.

Lemma roster_getOrCreateGame g q g0 s :
  roster_sub g q s (getOrCreateGame g0 s).
Proof.
  unfold getOrCreateGame. destruct (games s !! g0) eqn:Hg0.
  - apply roster_sub_refl.
  - by apply roster_sub_put_fresh.
Qed.

Lemma roster_markPlayerReady g q g0 p s :
  roster_sub g q s (markPlayerReady g0 p s).
Proof.
  rewrite markPlayerReady_eq.
  eapply roster_sub_trans;
    [|apply pend_sub_roster, pend_sub_broadcastGameState].
  unfold ready_game. destruct (games s !! g0) as [game|] eqn:Hg0.
  - by eapply roster_sub_put.
  - by apply roster_sub_put_fresh.
Qed.

Lemma roster_removePlayer g q g0 p s :
  roster_sub g q s (removePlayer g0 p s).
Proof.
  unfold removePlayer. destruct (games s !! g0) as [game|] eqn:Hg0;
    [|apply roster_sub_refl].
  cbv zeta. case_decide.
  - eapply (roster_sub_delete g q g0). unfold put.
    rewrite clearGameTimer_with_games. cbn [games with_games].
    by rewrite delete_insert_eq.
  - eapply roster_sub_put; [done|]. simpl. apply JsFacts.keys_map_delete.
Qed.

Lemma roster_declareWinner g q g0 w s :
  roster_sub g q s (declareWinner g0 w s).
Proof.
  unfold declareWinner. destruct (games s !! g0) as [game|] eqn:Hg0;
    [|apply roster_sub_refl].
  eapply roster_sub_trans;
    [|apply roster_sub_games_eq, games_clearGameTimer].
  by eapply roster_sub_put.
Qed.

Lemma roster_startGame g q g0 now s :
  roster_sub g q s (startGame g0 now s).2.
Proof.
  unfold startGame. destruct (games s !! g0) as [game|] eqn:Hg0;
    [|apply roster_sub_refl].
  cbv zeta. destruct (negb _); [apply roster_sub_refl|].
  case_decide; simpl.
  - by eapply roster_sub_put.
  - eapply roster_sub_trans; [|by apply roster_sub_games_eq].
    by eapply roster_sub_put.
Qed.

Lemma roster_transitionToActive g q g0 now s :
  roster_sub g q s (transitionToActive g0 now s).
Proof.
  unfold transitionToActive, onGameStateChange.
  destruct (games s !! g0) as [game|] eqn:Hg0; [|apply roster_sub_refl].
  eapply roster_sub_trans;
    [|apply pend_sub_roster, pend_sub_broadcastGameState].
  by eapply roster_sub_put.
Qed.

Lemma roster_updatePlayerState g q g0 p d s :
  (g0, p) ≠ (g, q) → roster_sub g q s (updatePlayerState g0 p d s).
Proof.
  intros Hne. unfold updatePlayerState.
  destruct (games s !! g0) as [game|] eqn:Hg0; [|apply roster_sub_refl].
  intros game1 Hg1 Hq. simpl in Hg1.
  destruct (decide (g0 = g)) as [->|Hg].
  - rewrite lookup_insert_eq in Hg1. injection Hg1 as <-. simpl in Hq.
    apply JsFacts.keys_map_set in Hq as [->|Hq]; [congruence|eauto].
  - rewrite lookup_insert_ne in Hg1 by done. eauto.
Qed.

Lemma roster_step g q s e :
  is_update_from g e ≠ Some q → roster_sub g q s (step s e).
Proof.
  intros Hupd.
  destruct e as [w g0 p now|p g0 msg now|p g0|t now|w|now]; simpl.
  - unfold handlePhase3Connection.
    destruct g0 as [g0|]; [|roster_peel].
    destruct (_ || _); [roster_frames|]. cbv zeta. unfold addPlayer.
    eapply roster_sub_trans; [|roster_peel].
    eapply roster_sub_trans; [|apply roster_getOrCreateGame].
    roster_frames.
  - unfold handlePhase3Message.
    destruct msg as [| | |data| |w|deadline|ty]; simpl.
    + roster_frames.
    + eapply roster_sub_trans; [|roster_peel].
      unfold handleMarkReady. cbv zeta.
      destruct (games (markPlayerReady g0 p s) !! g0).
      * eapply roster_sub_trans; [|roster_peel].
        apply roster_markPlayerReady.
      * apply roster_markPlayerReady.
    + unfold handleStartGame.
      pose proof (roster_startGame g q g0 now s) as Hst.
      destruct (startGame g0 now s) as [result s1]. simpl in Hst.
      destruct (success result), (gameState result) as [gs|];
        try (eapply roster_sub_trans; [exact Hst|roster_frames]).
      eapply roster_sub_trans; [exact Hst|].
      case_decide; roster_frames.
    + unfold handlePlayerUpdate.
      eapply roster_sub_trans; [|roster_peel].
      apply roster_updatePlayerState. simpl in Hupd.
      intros [= -> ->]. by rewrite decide_True in Hupd.
    + unfold handleEliminated. cbv zeta.
      pose proof (pend_sub_roster g q _ _
                    (pend_sub_broadcastToGame g0 (eliminated p) None s)) as Hb.
      destruct (games _ !! g0) as [game|]; [|done].
      case_decide; [|done].
      destruct (alive_players _) as [[|w [|w' l]]|]; try done.
      eapply roster_sub_trans; [exact Hb|].
      destruct (ps_id w) as [winnerId|]; [|apply roster_declareWinner].
      eapply roster_sub_trans; [|roster_peel].
      apply roster_declareWinner.
    + unfold handleWinner. destruct w as [w|]; [|roster_peel].
      eapply roster_sub_trans; [|roster_peel].
      apply roster_declareWinner.
    + roster_frames.
    + roster_frames.
  - unfold on_close. cbv zeta.
    eapply roster_sub_trans; [|roster_peel].
    eapply roster_sub_trans; [|apply roster_removePlayer].
    roster_frames.
  - destruct (pending s !! t) as [[cb d]|] eqn:Hp; [|roster_peel].
    eapply roster_sub_trans;
      [apply pend_sub_roster, (pend_sub_clearTimeout t)|].
    destruct cb as [g1|g1|g1]; simpl.
    + apply roster_transitionToActive.
    + pose proof (roster_startGame g q g1 now (clearTimeout t s)) as Hst.
      destruct (startGame g1 now (clearTimeout t s)) as [result s1].
      simpl in Hst. destruct (success result); [|done].
      eapply roster_sub_trans; [exact Hst|roster_frames].
    + roster_frames.
  - roster_frames.
  - roster_frames.
Qed.

End ArenaSteps.

(** ** Arena rooms: the phase order and the roster *)

Module ArenaInvariants.
Import Arena ArenaFacts ArenaFrames ArenaSessions ArenaSteps ArenaClaims.

(** *** The phase never moves back *)

(** A room ended by its single ready peer; then a second peer connects
    and leaves, which deletes the session, its roster being empty; the
    first peer, still connected, becomes ready again. *)
Definition ended_room : list Event :=
  [ev_connect 1 (Some 7%Z) "alice" 0; ev_message "alice" 7 mark_ready 100;
   ev_message "alice" 7 start_game 200].

Definition room_again : list Event :=
  [ev_connect 2 (Some 7%Z) "bob" 300; ev_close "bob" 7;
   ev_message "alice" 7 mark_ready 400].

(** C7, as stated, fails: the phase of a room is not monotone over
    every sequence of events.  A disconnect that leaves the roster
    empty deletes the session, and the next [mark_ready] creates a new
    one in [waiting]: room 7 goes from [ended] back to [waiting] while
    its first peer stays connected. *)
Lemma phase_back_to_waiting :
  (phase <$> games (run ended_room) !! 7%Z) = Some ended
  ∧ games (run (ended_room ++ take 2 room_again)) !! 7%Z = None
  ∧ (phase <$> games (run (ended_room ++ room_again)) !! 7%Z) = Some waiting
  ∧ ¬ phase_le ended waiting
  ∧ connections (run (ended_room ++ room_again)) !! (7%Z, "alice")
    = Some (mkConn 1 "alice" 7 0 true).
Proof.
  split_and!; try by vm_compute. unfold phase_le. cbn. lia.
Qed.

(** C7 (amended): along any run of events (connections, frames, timer
    firings, disconnects, health checks), as long as the session of a
    room is not deleted its phase only moves forward in
    [waiting < countdown < active < ended].  No countdown timer is
    armed for a room whose session has ended, and right after
    [declareWinner] none is armed for that room: the countdown's
    transition to [active] cannot fire once a winner is declared. *)
Theorem phase_monotone es es' g a b :
  games (run es) !! g = Some a →
  (∀ k, is_Some (games (run (es ++ take k es')) !! g)) →
  games (run (es ++ es')) !! g = Some b →
  phase_le (phase a) (phase b)
  ∧ (∀ t d, phase b = ended →
       pending (run (es ++ es')) !! t ≠ Some (t_countdown g, d))
  ∧ (∀ w t d,
       pending (declareWinner g w (run (es ++ es'))) !! t
       ≠ Some (t_countdown g, d)).
Proof.
  intros Ha Halive Hb. split_and!.
  - revert b Hb Halive. induction es' as [|e es' IH] using rev_ind;
      intros b Hb Halive.
    + rewrite app_nil_r, Ha in Hb. injection Hb as <-. apply phase_le_refl.
    + destruct (Halive (length es')) as [c Hc].
      rewrite take_app_le, take_ge in Hc by lia.
      eapply phase_le_trans.
      * apply (IH c Hc). intros k.
        destruct (decide (k ≤ length es')) as [Hk|Hk].
        -- specialize (Halive k). by rewrite take_app_le in Halive.
        -- rewrite take_ge by lia. by exists c.
      * rewrite app_assoc, arena_run_snoc in Hb.
        by apply (step_mono (es ++ es') e g c b).
  - intros t d Hend Hp.
    destruct (timers_ok_run (es ++ es') t g d Hp) as (_ & game & Hg & Hc).
    congruence.
  - intros w t d Hp.
    destruct (declareWinner_ok g w (run (es ++ es'))
                (timers_ok_run (es ++ es'))) as [Hok _].
    destruct (Hok t g d Hp) as (_ & game & Hg & Hc).
    unfold declareWinner in Hg. rewrite Hb in Hg.
    rewrite games_clearGameTimer in Hg. cbn in Hg.
    rewrite lookup_insert_eq in Hg. injection Hg as <-. discriminate Hc.
Qed.

Definition two_ready : list Event := take 6 two_playing.

Lemma phase_monotone_witness :
  (phase <$> games (run two_ready) !! 7%Z) = Some waiting
  ∧ (phase <$> games (run two_playing) !! 7%Z) = Some active
  ∧ phase_le waiting active.
Proof.
  split; [by vm_compute|]. split; [by vm_compute|].
  refine (proj1 (phase_monotone two_ready [ev_fire 0 1200; ev_fire 2 16200] 7
            (mkGame 7 waiting None 15000
               [("alice", player "alice" true); ("bob", player "bob" true)]
               ["alice"; "bob"] None None)
            (mkGame 7 active (Some 1200%Z) 15000
               [("alice", player "alice" true); ("bob", player "bob" true)]
               ["alice"; "bob"] (Some 16200%Z) None) _ _ _)).
  - by vm_compute.
  - intros [|[|k]].
    + vm_compute. eauto.
    + vm_compute. eauto.
    + rewrite (take_ge _ (S (S k))) by (cbn; lia). vm_compute. eauto.
  - by vm_compute.
Defined.

(** *** The roster holds only peers that sent [update] *)

Lemma updaters_from_sound g es :
  ∀ s acc,
    (∀ game q, games s !! g = Some game →
               q ∈ Js.keys (players game) → q ∈ acc) →
    ∀ game q, games (foldl step s es) !! g = Some game →
              q ∈ Js.keys (players game) → q ∈ updaters_from g s acc es.
Proof.
  induction es as [|e es IH]; intros s acc Hacc game q Hg Hq; simpl in *.
  - eauto.
  - eapply IH; [|exact Hg|exact Hq]. clear game q Hg Hq IH.
    intros game' q Hg' Hq. rewrite Hg'.
    assert (Hold : is_update_from g e ≠ Some q →
              q ∈ match games s !! g with Some _ => acc | None => [] end).
    { intros Hne.
      destruct (roster_step g q s e Hne game' Hg' Hq) as (game & Hgs & Hqs).
      rewrite Hgs. eauto. }
    destruct (is_update_from g e) as [p|] eqn:Hupd.
    + destruct (decide (p = q)) as [->|Hne]; [apply list_elem_of_here|].
      apply list_elem_of_further, Hold. congruence.
    + by apply Hold.
Qed.

Lemma connections_removePlayer g p s :
  connections (removePlayer g p s) = connections s.
Proof.
  unfold removePlayer. destruct (games s !! g); [|done]. cbv zeta.
  case_decide; [|done]. unfold put. rewrite clearGameTimer_with_games.
  cbn. unfold clearGameTimer. by destruct (gameTimers s !! g).
Qed.

Lemma connections_removeConnection p g s :
  connections (removeConnection p g s) = delete (g, p) (connections s).
Proof.
  unfold removeConnection; cbn.
  destruct (gameConnections s !! g); [|done]. by case_decide.
Qed.

(** C10: in every reachable state of the TypeScript server a peer is
    a key of a session's roster only if it has sent [update] to that
    room since the session was created.  Connecting leaves the roster
    as it is (empty for a new session).  When the roster without the
    leaving peer is empty, which includes every room where nobody has
    sent [update] yet, a disconnect deletes the session, while the
    connection records of the other peers stay registered. *)
Theorem roster_only_from_updates es g :
  (∀ game q, games (run es) !! g = Some game →
             q ∈ Js.keys (players game) → q ∈ updaters g es)
  ∧ (∀ p, (players <$> games (addPlayer g p (run es)) !! g)
          = Some (default [] (players <$> games (run es) !! g)))
  ∧ (∀ game p, games (run es) !! g = Some game →
               Js.map_delete p (players game) = [] →
               games (step (run es) (ev_close p g)) !! g = None
               ∧ ∀ q, q ≠ p →
                   connections (step (run es) (ev_close p g)) !! (g, q)
                   = connections (run es) !! (g, q)).
Proof.
  split_and!.
  - intros game q Hg Hq. unfold updaters.
    eapply updaters_from_sound; [|exact Hg|exact Hq].
    intros game' q' Hg'. cbn in Hg'. by rewrite lookup_empty in Hg'.
  - intros p. unfold addPlayer, getOrCreateGame.
    destruct (games (run es) !! g) as [game|] eqn:Hg.
    + by rewrite Hg.
    + cbn. by rewrite lookup_insert_eq.
  - intros game p Hg Hdel. cbn [step]. unfold on_close. cbv zeta.
    rewrite broadcastToGame_eq. cbn [games connections with_sent].
    split.
    + unfold removePlayer.
      destruct (pend_sub_removeConnection p g (run es)) as (-> & _ & _).
      rewrite Hg. cbv zeta. cbn [players]. rewrite Hdel.
      rewrite decide_True by done. cbn [games with_games].
      apply lookup_delete_eq.
    + intros q Hq. rewrite connections_removePlayer,
        connections_removeConnection.
      apply lookup_delete_ne. congruence.
Qed.

(** Two peers are connected to room 7 and nobody has sent [update]:
    the roster is empty; [alice] leaves and the session is gone while
    [bob] is still registered. *)
Lemma roster_only_from_updates_witness :
  (players <$> games (run two_connected) !! 7%Z) = Some []
  ∧ games (step (run two_connected) (ev_close "alice" 7)) !! 7%Z = None
  ∧ connections (step (run two_connected) (ev_close "alice" 7))
      !! (7%Z, "bob") = Some (mkConn 2 "bob" 7 100 true).
Proof.
  split; [by vm_compute|].
  destruct (roster_only_from_updates two_connected 7) as (_ & _ & Hclose).
  destruct (Hclose (new_game 7) "alice") as [Hgone Hkept].
  - by vm_compute.
  - reflexivity.
  - split; [exact Hgone|]. rewrite Hkept by done. by vm_compute.
Defined.

End ArenaInvariants.

(** ** Arena rooms: starting, ending, joining and leaving *)

Module ArenaExtras.
Import Arena ArenaFacts ArenaFrames ArenaSessions ArenaSteps ArenaClaims.
Import ArenaInvariants.

Lemma with_sent_with_sent l l' s :
  with_sent l' (with_sent l s) = with_sent l' s.
Proof. done. Qed.

(** X11: [start_game] in a waiting room with exactly one ready peer
    ends the room at once with that peer as winner: no countdown is
    run and no timer armed; every open connection of the room is sent
    the new state and then the [winner] frame. *)
Theorem start_game_single_ready p g now s game p0 :
  games s !! g = Some game →
  phase game = waiting →
  readyPlayers game = [p0] →
  let game' := mkGame (gameId game) ended (countdownStartTime game)
                 (countdownDuration game) (players game) [p0]
                 (startTime game) (Some p0) in
  handlePhase3Message p g start_game now s
  = with_sent
      (sent s
       ++ room_frames g
            (game_state_update
               (view game' (length (getGamePlayerIds g s)))) None s
       ++ room_frames g (winner_msg (Some p0)) None s)
      (put g game' s).
Proof.
  intros Hg Hph Hready game'. cbn [handlePhase3Message handleMessage].
  unfold handleStartGame, startGame, canStartGame. rewrite Hg.
  rewrite decide_False by (by rewrite Hph; intros ?).
  rewrite Hready. simpl.
  rewrite broadcastToGame_eq, broadcastGameState_eq.
  unfold state_frames. cbn. rewrite lookup_insert_eq.
  unfold with_sent, put, with_games. cbn. by rewrite <- app_assoc.
Qed.

Lemma start_game_single_ready_witness :
  (λ game, (phase game, winner game))
    <$> games (handlePhase3Message "alice" 7 start_game 300 (run alice_ready))
          !! 7%Z
  = Some (ended, Some "alice").
Proof.
  rewrite (start_game_single_ready "alice" 7 300 (run alice_ready)
             (mkGame 7 waiting None 15000 [] ["alice"] None None) "alice").
  - cbn. by rewrite lookup_insert_eq.
  - by vm_compute.
  - reflexivity.
  - reflexivity.
Defined.

(** X12: [start_game] in a waiting room with two or more ready peers
    starts the countdown: the phase is [countdown], the start time is
    the current time, the countdown timer is armed with the session's
    [countdownDuration] and recorded for the room, and the room is sent
    the new state.  When that timer fires the phase is [active], the
    game's start time is the time of firing, and the room is sent the
    state again. *)
Theorem start_game_countdown p g now now' s game :
  games s !! g = Some game →
  phase game = waiting →
  2 ≤ length (readyPlayers game) →
  let n := length (getGamePlayerIds g s) in
  let game1 := mkGame (gameId game) countdown (Some now)
                 (countdownDuration game) (players game) (readyPlayers game)
                 (startTime game) (winner game) in
  let game2 := mkGame (gameId game) active (Some now)
                 (countdownDuration game) (players game) (readyPlayers game)
                 (Some now') (winner game) in
  let s1 := handlePhase3Message p g start_game now s in
  let s2 := step s1 (ev_fire (nextTimer s) now') in
  games s1 = <[g := game1]> (games s)
  ∧ pending s1
    = <[nextTimer s := (t_countdown g, countdownDuration game)]> (pending s)
  ∧ gameTimers s1 = <[g := nextTimer s]> (gameTimers s)
  ∧ sent s1 = sent s ++ room_frames g (game_state_update (view game1 n)) None s
  ∧ games s2 = <[g := game2]> (games s)
  ∧ pending s2 = delete (nextTimer s) (pending s)
  ∧ sent s2 = sent s1 ++ room_frames g (game_state_update (view game2 n)) None s.
Proof.
  intros Hg Hph Hready n game1 game2 s1 s2.
  assert (Hs1 : s1 = with_sent
            (sent s ++ room_frames g (game_state_update (view game1 n)) None s)
            (with_gameTimers (<[g := nextTimer s]> (gameTimers s))
               (setTimeout (t_countdown g) (countdownDuration game)
                  (put g game1 s)).2)).
  { subst s1. cbn [handlePhase3Message handleMessage].
    unfold handleStartGame, startGame, canStartGame. rewrite Hg.
    rewrite decide_False by (by rewrite Hph; intros ?).
    rewrite decide_False by lia. rewrite decide_False by lia. simpl.
    rewrite decide_False by lia. simpl.
    rewrite broadcastGameState_eq. unfold state_frames. cbn.
    by rewrite lookup_insert_eq. }
  assert (Hs2 : s2 = with_sent
            (sent s1 ++ room_frames g (game_state_update (view game2 n)) None s)
            (put g game2 (clearTimeout (nextTimer s) s1))).
  { subst s2. cbn [step]. rewrite Hs1 at 1. cbn [pending with_sent
      with_gameTimers setTimeout snd]. rewrite lookup_insert_eq.
    cbn [run_timer]. unfold transitionToActive, onGameStateChange.
    rewrite Hs1 at 1. cbn [games clearTimeout with_pending with_sent
      with_gameTimers setTimeout snd put with_games].
    rewrite lookup_insert_eq. rewrite broadcastGameState_eq.
    unfold state_frames. rewrite Hs1. cbn. rewrite !lookup_insert_eq.
    unfold with_sent, put, with_games. cbn. rewrite !insert_insert_eq.
    reflexivity. }
  clearbody s1 s2. subst s2 s1. cbn.
  split_and!; rewrite ?insert_insert_eq, ?delete_insert_eq; done.
Qed.

Lemma start_game_countdown_witness :
  (phase <$> games (handlePhase3Message "alice" 7 start_game 700
                      (run two_ready)) !! 7%Z) = Some countdown.
Proof.
  destruct (start_game_countdown "alice" 7 700 800 (run two_ready)
              (mkGame 7 waiting None 15000
                 [("alice", player "alice" true); ("bob", player "bob" true)]
                 ["alice"; "bob"] None None)) as (Hg1 & _).
  - by vm_compute.
  - reflexivity.
  - cbn. lia.
  - rewrite Hg1. by rewrite lookup_insert_eq.
Defined.

(** X13: [start_game] for a room that is past waiting is answered to
    the requester alone with the error [Game already in phase: ...]
    naming the phase, and for a room without a session with
    [Game not found]; the server state is otherwise unchanged. *)
Theorem start_game_rejected p g now s :
  (∀ game, games s !! g = Some game → phase game ≠ waiting →
     handlePhase3Message p g start_game now s
     = with_sent
         (sent s ++ player_frames p g
                      (error_msg ("Game already in phase: "
                                  +:+ phase_name (phase game))) s) s)
  ∧ (games s !! g = None →
     handlePhase3Message p g start_game now s
     = with_sent (sent s ++ player_frames p g (error_msg "Game not found") s)
         s).
Proof.
  split.
  - intros game Hg Hph. cbn [handlePhase3Message handleMessage].
    unfold handleStartGame, startGame, canStartGame. rewrite Hg.
    rewrite decide_True by done. simpl. apply sendToPlayer_eq.
  - intros Hg. cbn [handlePhase3Message handleMessage].
    unfold handleStartGame, startGame. rewrite Hg. simpl.
    apply sendToPlayer_eq.
Qed.

Lemma start_game_rejected_witness :
  sent (handlePhase3Message "bob" 7 start_game 20000 (run two_playing))
  = sent (run two_playing) ++ [(2, error_msg "Game already in phase: active")].
Proof.
  rewrite (proj1 (start_game_rejected "bob" 7 20000 (run two_playing))
             (mkGame 7 active (Some 1200%Z) 15000
                [("alice", player "alice" true); ("bob", player "bob" true)]
                ["alice"; "bob"] (Some 16200%Z) None)).
  - cbn [sent with_sent]. by vm_compute.
  - by vm_compute.
  - discriminate.
Defined.


(** [put] of the session already stored changes nothing. *)
Lemma arena_put_same g game s : games s !! g = Some game → put g game s = s.
Proof.
  intros Hg. destruct s. unfold put, with_games. cbn in *. f_equal.
  by apply insert_id.
Qed.

Lemma game_eta (game : GameSession) :
  mkGame (gameId game) (phase game) (countdownStartTime game)
    (countdownDuration game) (players game) (readyPlayers game)
    (startTime game) (winner game) = game.
Proof. by destruct game. Qed.

(** X15: [mark_ready] from a peer that is already in the ready set
    leaves every session as it was, yet it is not a no-op: the room is
    sent its state twice more, once by the state-change callback and
    once by the handler, and in a waiting room one more auto-start
    timer is armed. *)
Theorem mark_ready_again p g now s game :
  games s !! g = Some game →
  p ∈ readyPlayers game →
  let s' := handlePhase3Message p g mark_ready now s in
  games s' = games s
  ∧ sent s' = sent s ++ state_frames g s ++ state_frames g s
  ∧ pending s'
    = (if decide (phase game = waiting)
       then <[nextTimer s := (t_auto_start g, 1000%Z)]> (pending s)
       else pending s).
Proof.
  intros Hg Hin s'. subst s'. cbn [handlePhase3Message handleMessage].
  unfold handleMarkReady. cbv zeta. rewrite markPlayerReady_eq.
  assert (Hsame : ready_game g p s = game).
  { unfold ready_game. rewrite Hg. cbn. unfold Js.set_add.
    rewrite decide_True by done. apply game_eta. }
  rewrite Hsame, (arena_put_same g game s Hg).
  rewrite broadcastGameState_eq. cbn [games with_sent]. rewrite Hg.
  rewrite broadcastGameState_eq.
  unfold checkAutoStart, canStartGame. cbn [games with_sent]. rewrite Hg.
  assert (Hlen : length (readyPlayers game) ≠ 0).
  { destruct (readyPlayers game); [by apply elem_of_nil in Hin|done]. }
  destruct (decide (phase game = waiting)) as [Hph|Hph].
  - rewrite decide_False by (by rewrite Hph; intros ?).
    rewrite decide_False by done.
    unfold state_frames, with_sent. cbn. rewrite Hg.
    case_decide; cbn; split_and!; try done; by rewrite <- app_assoc.
  - rewrite decide_True by done. unfold state_frames, with_sent. cbn.
    rewrite Hg. split_and!; try done. by rewrite <- app_assoc.
Qed.

Lemma mark_ready_again_witness :
  games (handlePhase3Message "alice" 7 mark_ready 250 (run alice_ready))
  = games (run alice_ready)
  ∧ length (sent (handlePhase3Message "alice" 7 mark_ready 250
                    (run alice_ready)))
    = length (sent (run alice_ready)) + 2.
Proof.
  destruct (mark_ready_again "alice" 7 250 (run alice_ready)
              (mkGame 7 waiting None 15000 [] ["alice"] None None))
    as (Hgames & Hsent & _).
  - by vm_compute.
  - cbn. apply list_elem_of_here.
  - split; [exact Hgames|]. rewrite Hsent. by vm_compute.
Defined.

(** X16: when a peer leaves a room whose roster still holds somebody
    else, the session stays: the peer is taken off the roster and the
    ready set, the phase and every timer are as before, the peer's
    connection record is removed, and [player_disconnected] goes to the
    connections that remain registered in the room. *)
Theorem disconnect_keeps_session p g s game :
  games s !! g = Some game →
  Js.map_delete p (players game) ≠ [] →
  let s' := step s (ev_close p g) in
  games s'
  = <[g := mkGame (gameId game) (phase game) (countdownStartTime game)
             (countdownDuration game) (Js.map_delete p (players game))
             (Js.set_delete p (readyPlayers game)) (startTime game)
             (winner game)]> (games s)
  ∧ gameTimers s' = gameTimers s
  ∧ pending s' = pending s
  ∧ connections s' = delete (g, p) (connections s)
  ∧ sent s'
    = sent s ++ room_frames g (player_disconnected p) None
                  (removeConnection p g s).
Proof.
  intros Hg Hne s'. subst s'. cbn [step]. unfold on_close. cbv zeta.
  rewrite broadcastToGame_eq.
  destruct (pend_sub_removeConnection p g s) as (Hgames & Htimers & _).
  assert (Hrm : removePlayer g p (removeConnection p g s)
                = put g (mkGame (gameId game) (phase game)
                           (countdownStartTime game) (countdownDuration game)
                           (Js.map_delete p (players game))
                           (Js.set_delete p (readyPlayers game))
                           (startTime game) (winner game))
                    (removeConnection p g s)).
  { unfold removePlayer. rewrite Hgames, Hg. cbv zeta. cbn [players].
    rewrite decide_False; [done|].
    by destruct (Js.map_delete p (players game)). }
  rewrite Hrm. cbn. rewrite Hgames, Htimers.
  split_and!; try done.
  - unfold removeConnection. cbn.
    destruct (gameConnections s !! g); [by case_decide|done].
  - apply connections_removeConnection.
  - unfold removeConnection. cbn.
    destruct (gameConnections s !! g); [by case_decide|done].
Qed.

Definition alice_on_roster : list Event :=
  two_connected ++ [ev_message "alice" 7 (update_in alice_state) 300;
                    ev_message "bob" 7 (update_in (player "bob" true)) 310].

Lemma disconnect_keeps_session_witness :
  ((λ game, Js.keys (players game))
     <$> games (step (run alice_on_roster) (ev_close "bob" 7)) !! 7%Z)
  = Some ["alice"].
Proof.
  destruct (disconnect_keeps_session "bob" 7 (run alice_on_roster)
              (mkGame 7 waiting None 15000
                 [("alice", alice_state); ("bob", player "bob" true)] []
                 None None)) as (Hgames & _).
  - by vm_compute.
  - by vm_compute.
  - rewrite Hgames. by rewrite lookup_insert_eq.
Defined.

(** X17: a connection with a non-zero [gameId] and a non-empty
    [playerId] is registered under that pair, creates the room's
    session if there is none and leaves an existing one untouched.  The
    newcomer is sent the room state, then, only when the roster is not
    empty, a [sync] with the stored player states; the other open
    connections of the room are sent [player_connected]. *)
Theorem connect_frames w g p now s :
  g ≠ 0%Z →
  p ≠ "" →
  let s0 := addConnection w p g now (ws_open w s) in
  let game := default (new_game g) (games s !! g) in
  let s' := step s (ev_connect w (Some g) p now) in
  games s' = <[g := game]> (games s)
  ∧ connections s' = <[(g, p) := mkConn w p g now true]> (connections s)
  ∧ pending s' = pending s
  ∧ sent s'
    = sent s
      ++ [(w, game_state_update (view game (length (getGamePlayerIds g s0))))]
      ++ (if decide (0 < length (players game))
          then [(w, sync (Js.values (players game)))] else [])
      ++ room_frames g (player_connected p) (Some p) s0.
Proof.
  intros Hg0 Hp s0 game s'. subst s'. cbn [step].
  unfold handlePhase3Connection.
  rewrite bool_decide_eq_false_2 by done.
  unfold Js.truthy. rewrite bool_decide_eq_false_2 by done. cbn [negb orb].
  cbv zeta. fold s0. rewrite broadcastToGame_eq.
  unfold addPlayer, getOrCreateGame, sendInitialGameState.
  assert (Hopen : w ∈ open s0).
  { subst s0. cbn. apply elem_of_union_l, elem_of_singleton. done. }
  assert (Hgs0 : games s0 = games s) by done.
  subst game. rewrite Hgs0.
  destruct (games s !! g) as [game|] eqn:Hgame.
  - rewrite Hgs0, Hgame. cbn [default].
    rewrite (decide_True (P := w ∈ open s0)) by done.
    destruct (decide (0 < length (players game))); cbn [open send with_sent].
    + rewrite (decide_True (P := w ∈ open s0)) by done. cbn.
      rewrite insert_id by done. split_and!; try done.
      rewrite <- !app_assoc.
      by rewrite (decide_True (P := 0 < length (players game))).
    + cbn. rewrite insert_id by done. split_and!; try done.
      rewrite <- !app_assoc.
      by rewrite (decide_False (P := 0 < length (players game))).
  - cbn [default]. cbn [games put with_games]. rewrite lookup_insert_eq.
    cbn [open put with_games].
    rewrite (decide_True (P := w ∈ open s0)) by done.
    cbn [players new_game length].
    rewrite !(decide_False (P := 0 < 0)) by lia.
    cbn. split_and!; try done. by rewrite <- ?app_assoc.
Qed.

Lemma connect_frames_witness :
  connections (step (run alice_on_roster) (ev_connect 3 (Some 7%Z) "carol" 400))
    !! (7%Z, "carol")
  = Some (mkConn 3 "carol" 7 400 true)
  ∧ pending (step (run alice_on_roster)
               (ev_connect 3 (Some 7%Z) "carol" 400))
    = pending (run alice_on_roster).
Proof.
  destruct (connect_frames 3 7 "carol" 400 (run alice_on_roster))
    as (_ & Hconn & Hpend & _); [done..|].
  split; [|exact Hpend]. rewrite Hconn. apply lookup_insert_eq.
Defined.

End ArenaExtras.

(** ** Arena rooms: every stored session is well formed *)

Module ArenaSessionWf.
Import Arena ArenaFacts ArenaFrames ArenaSessions ArenaSteps ArenaClaims.
Import ArenaInvariants ArenaExtras.

Lemma swf_insert m g game :
  sessions_wf m → session_wf g game → sessions_wf (<[g := game]> m).
Proof.
  intros Hm Hg g0 game0 H0. destruct (decide (g = g0)) as [->|Hne].
  - rewrite lookup_insert_eq in H0. by injection H0 as <-.
  - rewrite lookup_insert_ne in H0 by done. eauto.
Qed.

Lemma swf_delete m g : sessions_wf m → sessions_wf (delete g m).
Proof.
  intros Hm g0 game0 H0. apply lookup_delete_Some in H0 as [_ H0]. eauto.
Qed.

Lemma session_wf_new g : session_wf g (new_game g).
Proof. unfold session_wf. cbn. split_and!; try done; constructor. Qed.

Lemma keeps_refl s : keeps s s.
Proof. by intros ?. Qed.

Lemma keeps_trans s1 s2 s3 : keeps s1 s2 → keeps s2 s3 → keeps s1 s3.
Proof. unfold keeps. tauto. Qed.

Lemma pend_sub_keeps s s' : pend_sub s s' → keeps s s'.
Proof.
  intros Hps [Hok Hwf]. split; [by apply (pend_sub_timers_ok s)|].
  destruct Hps as (-> & _). done.
Qed.

(** A game-manager operation keeps the invariants when it keeps the
    sessions well formed. *)
Lemma gm_keeps s s' :
  gm_ok s s' →
  (timers_ok s → sessions_wf (games s) → sessions_wf (games s')) →
  keeps s s'.
Proof. intros Hgm Hwf [Hok Hs]. split; [by apply Hgm|by apply Hwf]. Qed.

Lemma keeps_getOrCreateGame g s : keeps s (getOrCreateGame g s).
Proof.
  apply gm_keeps; [apply getOrCreateGame_ok|]. intros _ Hwf.
  unfold getOrCreateGame. destruct (games s !! g); [done|]. cbn.
  apply swf_insert; [done|apply session_wf_new].
Qed.

Lemma keeps_markPlayerReady g p s : keeps s (markPlayerReady g p s).
Proof.
  apply gm_keeps; [apply markPlayerReady_ok|]. intros _ Hwf.
  rewrite markPlayerReady_eq, broadcastGameState_eq. cbn.
  apply swf_insert; [done|]. unfold ready_game.
  assert (Hg : session_wf g (default (new_game g) (games s !! g))).
  { destruct (games s !! g) eqn:Hg; cbn; [eauto|apply session_wf_new]. }
  destruct Hg as (? & ? & ? & ? & ?). unfold session_wf. cbn.
  split_and!; try done. by apply JsFacts.NoDup_set_add.
Qed.

Lemma keeps_updatePlayerState g p d s : keeps s (updatePlayerState g p d s).
Proof.
  apply gm_keeps; [apply updatePlayerState_ok|]. intros _ Hwf.
  unfold updatePlayerState. destruct (games s !! g) as [game|] eqn:Hg; [|done].
  cbn. apply swf_insert; [done|].
  destruct (Hwf g game Hg) as (? & ? & ? & ? & ?). unfold session_wf. cbn.
  split_and!; try done. by apply JsFacts.NoDup_keys_map_set.
Qed.

Lemma keeps_removePlayer g p s : keeps s (removePlayer g p s).
Proof.
  apply gm_keeps; [apply removePlayer_ok|]. intros _ Hwf.
  unfold removePlayer. destruct (games s !! g) as [game|] eqn:Hg; [|done].
  cbv zeta.
  assert (Hwf' : sessions_wf (games (put g
            (mkGame (gameId game) (phase game) (countdownStartTime game)
               (countdownDuration game) (Js.map_delete p (players game))
               (Js.set_delete p (readyPlayers game)) (startTime game)
               (winner game)) s))).
  { cbn. apply swf_insert; [done|].
    destruct (Hwf g game Hg) as (? & ? & ? & ? & ?). unfold session_wf. cbn.
    split_and!; try done.
    - by apply JsFacts.NoDup_keys_map_delete.
    - by apply JsFacts.NoDup_set_delete. }
  case_decide; [|done]. cbn [games with_games].
  rewrite games_clearGameTimer. by apply swf_delete.
Qed.

Lemma keeps_declareWinner g w s : keeps s (declareWinner g w s).
Proof.
  apply gm_keeps; [apply declareWinner_ok|]. intros _ Hwf.
  unfold declareWinner. destruct (games s !! g) as [game|] eqn:Hg; [|done].
  rewrite games_clearGameTimer. cbn. apply swf_insert; [done|].
  destruct (Hwf g game Hg) as (? & ? & ? & ? & ?). unfold session_wf. cbn.
  by split_and!.
Qed.

Lemma keeps_startGame g now s : keeps s (startGame g now s).2.
Proof.
  apply gm_keeps; [apply startGame_ok|]. intros _ Hwf.
  unfold startGame, canStartGame.
  destruct (games s !! g) as [game|] eqn:Hg; [|done]. cbv zeta.
  destruct (Hwf g game Hg) as (Hid & Hdur & Hndp & Hndr & Hph).
  destruct (decide (phase game ≠ waiting)) as [Hnw|Hw]; [done|].
  assert (Hwait : phase game = waiting).
  { destruct (decide (phase game = waiting)); [done|by destruct Hw]. }
  rewrite Hwait in Hph. destruct Hph as (Hcst & Hst & Hwin).
  destruct (decide (length (readyPlayers game) = 0)); [done|].
  destruct (decide (length (readyPlayers game) = 1)) as [H1|H1]; simpl;
    [|rewrite (decide_False (P := length (readyPlayers game) = 1)) by done;
      simpl];
    (apply swf_insert; [done|]); unfold session_wf; cbn;
    split_and!; try done; try by eexists.
Qed.

Lemma keeps_transitionToActive t g d now s :
  pending s !! t = Some (t_countdown g, d) →
  keeps s (transitionToActive g now (clearTimeout t s)).
Proof.
  intros Hp. apply gm_keeps; [by eapply transitionToActive_ok|].
  intros Hok Hwf. destruct (Hok t g d Hp) as (_ & game & Hg & Hc).
  unfold transitionToActive, onGameStateChange. cbn. rewrite Hg.
  rewrite broadcastGameState_eq. cbn. apply swf_insert; [done|].
  destruct (Hwf g game Hg) as (? & ? & ? & ? & Hph). rewrite Hc in Hph.
  destruct Hph as (? & ? & ?). unfold session_wf. cbn.
  split_and!; try done; by eexists.
Qed.

Ltac keeps_frames := solve [apply pend_sub_keeps; pend_frames].
Ltac keeps_peel :=
  apply pend_sub_keeps; repeat pend_peel1; apply pend_sub_refl.

Lemma keeps_handleMessage p g msg now s : keeps s (handleMessage p g msg now s).
Proof.
  destruct msg as [| | |data| |w|deadline|ty]; cbn [handleMessage].
  - keeps_frames.
  - unfold handleMarkReady. cbv zeta.
    destruct (games (markPlayerReady g p s) !! g).
    + eapply keeps_trans; [apply keeps_markPlayerReady|keeps_frames].
    + apply keeps_markPlayerReady.
  - unfold handleStartGame.
    pose proof (keeps_startGame g now s) as Hst.
    destruct (startGame g now s) as [result s1]. cbn [snd] in Hst.
    destruct (success result), (gameState result) as [gs|];
      try (eapply keeps_trans; [exact Hst|keeps_frames]).
    eapply keeps_trans; [exact Hst|]. case_decide; keeps_frames.
  - unfold handlePlayerUpdate.
    eapply keeps_trans; [apply keeps_updatePlayerState|keeps_frames].
  - unfold handleEliminated. cbv zeta.
    pose proof (pend_sub_keeps _ _
                  (pend_sub_broadcastToGame g (eliminated p) None s)) as Hb.
    destruct (games _ !! g) as [game|]; [|done].
    case_decide; [|done].
    destruct (alive_players _) as [[|w [|w' l]]|]; try done.
    eapply keeps_trans; [exact Hb|].
    destruct (ps_id w) as [winnerId|]; [|apply keeps_declareWinner].
    eapply keeps_trans; [apply keeps_declareWinner|keeps_frames].
  - unfold handleWinner. destruct w as [w|]; [|apply keeps_refl].
    eapply keeps_trans; [apply keeps_declareWinner|keeps_frames].
  - apply keeps_refl.
  - apply keeps_refl.
Qed.

Lemma keeps_step s e : keeps s (step s e).
Proof.
  destruct e as [w g p now|p g msg now|p g|t now|w|now]; cbn [step].
  - unfold handlePhase3Connection.
    destruct g as [g|]; [|keeps_frames].
    destruct (_ || _); [keeps_frames|]. cbv zeta. unfold addPlayer.
    eapply keeps_trans; [|keeps_peel].
    eapply keeps_trans; [|apply keeps_getOrCreateGame].
    keeps_frames.
  - unfold handlePhase3Message.
    destruct msg as [| | |data| |w|deadline|ty];
      try apply keeps_handleMessage.
    + eapply keeps_trans; [apply keeps_handleMessage|keeps_frames].
    + keeps_frames.
  - unfold on_close. cbv zeta.
    eapply keeps_trans; [|keeps_peel].
    eapply keeps_trans; [|apply keeps_removePlayer].
    keeps_frames.
  - destruct (pending s !! t) as [[cb d]|] eqn:Hp; [|apply keeps_refl].
    destruct cb as [g|g|g]; cbn [run_timer].
    + by eapply keeps_transitionToActive.
    + eapply keeps_trans; [apply pend_sub_keeps, (pend_sub_clearTimeout t)|].
      pose proof (keeps_startGame g now (clearTimeout t s)) as Hst.
      destruct (startGame g now (clearTimeout t s)) as [result s1].
      cbn [snd] in Hst. destruct (success result); [|done].
      eapply keeps_trans; [exact Hst|keeps_frames].
    + keeps_frames.
  - keeps_frames.
  - keeps_frames.
Qed.

(** X18: every session the server can hold is stored under its own
    id with a 15 s countdown and lists no peer twice on its roster or
    in its ready set; until it has ended it has no winner and its time
    stamps fit its phase: none while waiting; a countdown start during
    the countdown; both start times while active.  Nothing is said of
    an ended session: it can be without a winner, when the last state
    stored alive carries no [id]. *)
Theorem session_wf_reachable es g game :
  games (run es) !! g = Some game → session_wf g game.
Proof.
  assert (H : timers_ok (run es) ∧ sessions_wf (games (run es))).
  { induction es as [|e es IH] using rev_ind.
    - split; [apply timers_ok_init|]. intros g0 game0 H0.
      unfold run in H0. cbn in H0. by rewrite lookup_empty in H0.
    - rewrite arena_run_snoc. by apply keeps_step. }
  intros Hg. by apply H.
Qed.

Lemma session_wf_reachable_witness :
  session_wf 7 (mkGame 7 active (Some 1200%Z) 15000
                  [("alice", player "alice" true); ("bob", player "bob" true)]
                  ["alice"; "bob"] (Some 16200%Z) None).
Proof. apply (session_wf_reachable two_playing). by vm_compute. Defined.

End ArenaSessionWf.

(** ** Arena rooms: the connection registry *)

Module ArenaRegistry.
Import Arena ArenaFacts ArenaFrames ArenaSessions ArenaSteps ArenaClaims.
Import ArenaInvariants ArenaExtras.

Lemma reg_same_refl s : reg_same s s.
Proof. by split. Qed.

Lemma reg_same_trans s1 s2 s3 :
  reg_same s1 s2 → reg_same s2 s3 → reg_same s1 s3.
Proof. intros [H1 H2] [H3 H4]. split; congruence. Qed.

Lemma reg_same_registry s s' : reg_same s s' → registry_ok s → registry_ok s'.
Proof. intros [Hc Hg]. unfold registry_ok. by rewrite Hc, Hg. Qed.

Ltac reg_tac :=
  unfold reg_same;
  repeat first
    [ rewrite markPlayerReady_eq | rewrite broadcastToGame_eq
    | rewrite broadcastGameState_eq | rewrite sendToPlayer_eq
    | case_match | case_decide
    | progress cbn -[broadcastToGame broadcastGameState sendToPlayer
                     markPlayerReady] ];
  by split.

Lemma reg_broadcastToGame g msg ex s : reg_same s (broadcastToGame g msg ex s).
Proof. reg_tac. Qed.

Lemma reg_broadcastGameState g s : reg_same s (broadcastGameState g s).
Proof. reg_tac. Qed.

Lemma reg_sendToPlayer p g msg s : reg_same s (sendToPlayer p g msg s).
Proof. reg_tac. Qed.

Lemma reg_sendInitialGameState w g s : reg_same s (sendInitialGameState w g s).
Proof. unfold sendInitialGameState. reg_tac. Qed.

Lemma reg_getOrCreateGame g s : reg_same s (getOrCreateGame g s).
Proof. unfold getOrCreateGame. reg_tac. Qed.

Lemma reg_markPlayerReady g p s : reg_same s (markPlayerReady g p s).
Proof. reg_tac. Qed.

Lemma reg_updatePlayerState g p d s : reg_same s (updatePlayerState g p d s).
Proof. unfold updatePlayerState. reg_tac. Qed.

Lemma reg_removePlayer g p s : reg_same s (removePlayer g p s).
Proof. unfold removePlayer, clearGameTimer. reg_tac. Qed.

Lemma reg_declareWinner g w s : reg_same s (declareWinner g w s).
Proof. unfold declareWinner, clearGameTimer. reg_tac. Qed.

Lemma reg_startGame g now s : reg_same s (startGame g now s).2.
Proof.
  unfold startGame, reg_same. destruct (games s !! g); [|done]. cbv zeta.
  destruct (negb _); [done|]. by case_decide.
Qed.

Lemma reg_transitionToActive g now s : reg_same s (transitionToActive g now s).
Proof. unfold transitionToActive, onGameStateChange. reg_tac. Qed.

Lemma reg_checkAutoStart g s : reg_same s (checkAutoStart g s).
Proof. unfold checkAutoStart, reg_same. by destruct (canStart _). Qed.

Lemma reg_startDeadlineMonitor g d now s :
  reg_same s (startDeadlineMonitor g d now s).
Proof.
  unfold startDeadlineMonitor, checkAutoStart, reg_same. cbv zeta.
  destruct (gameDeadlineTimers s !! g); case_decide;
    try destruct (canStart _); by split.
Qed.

Lemma reg_handleMessage p g msg now s :
  msg ≠ heartbeat → reg_same s (handleMessage p g msg now s).
Proof.
  intros Hmsg. destruct msg as [| | |data| |w|deadline|ty]; cbn [handleMessage];
    try done; try apply reg_same_refl.
  - unfold handleMarkReady. cbv zeta.
    destruct (games _ !! g);
      [eapply reg_same_trans; [|apply reg_broadcastGameState]|];
      apply reg_markPlayerReady.
  - unfold handleStartGame.
    pose proof (reg_startGame g now s) as Hst.
    destruct (startGame g now s) as [result s1]. cbn [snd] in Hst.
    destruct (success result), (gameState result) as [gs|];
      try (eapply reg_same_trans; [exact Hst|apply reg_sendToPlayer]).
    eapply reg_same_trans; [exact Hst|].
    case_decide; [eapply reg_same_trans; [|apply reg_broadcastToGame]|];
      apply reg_broadcastGameState.
  - unfold handlePlayerUpdate.
    eapply reg_same_trans; [|apply reg_broadcastToGame].
    apply reg_updatePlayerState.
  - unfold handleEliminated. cbv zeta.
    pose proof (reg_broadcastToGame g (eliminated p) None s) as Hb.
    destruct (games _ !! g) as [game|]; [|done].
    case_decide; [|done].
    destruct (alive_players _) as [[|w [|w' l]]|]; try done.
    eapply reg_same_trans; [exact Hb|].
    destruct (ps_id w) as [winnerId|]; [|apply reg_declareWinner].
    eapply reg_same_trans; [|apply reg_broadcastToGame].
    apply reg_declareWinner.
  - unfold handleWinner. destruct w as [w|]; [|apply reg_same_refl].
    eapply reg_same_trans; [|apply reg_broadcastToGame].
    apply reg_declareWinner.
Qed.

(** The three operations that write the registry. *)

Lemma registry_addConnection w p g now s :
  registry_ok s → registry_ok (addConnection w p g now s).
Proof.
  intros [Hconn Hidx]. unfold addConnection. cbn.
  set (ids0 := default [] (gameConnections s !! g)).
  assert (Hids0 : NoDup ids0
            ∧ ∀ cid, cid ∈ ids0 → cid.1 = g ∧ is_Some (connections s !! cid)).
  { subst ids0. destruct (gameConnections s !! g) as [ids|] eqn:Hg; cbn.
    - destruct (Hidx g ids Hg) as (_ & ? & ?). done.
    - split; [constructor|]. by intros cid ?%elem_of_nil. }
  destruct Hids0 as [Hnd0 Hin0]. split; cbn.
  - intros g' p' c Hc. destruct (decide ((g, p) = (g', p'))) as [[= <- <-]|Hne].
    + rewrite lookup_insert_eq in Hc. injection Hc as <-. cbn.
      split_and!; try done. eexists. rewrite lookup_insert_eq.
      split; [done|]. apply JsFacts.elem_of_set_add. by left.
    + rewrite lookup_insert_ne in Hc by done.
      destruct (Hconn g' p' c Hc) as (? & ? & ids & Hids & Hin).
      split_and!; try done. destruct (decide (g = g')) as [<-|Hg].
      * eexists. rewrite lookup_insert_eq. split; [done|].
        apply JsFacts.elem_of_set_add. right. subst ids0.
        by rewrite Hids.
      * exists ids. by rewrite lookup_insert_ne.
  - intros g' ids Hids. destruct (decide (g = g')) as [<-|Hg].
    + rewrite lookup_insert_eq in Hids. injection Hids as <-.
      split_and!.
      * apply JsFacts.set_add_not_nil.
      * by apply JsFacts.NoDup_set_add.
      * intros cid Hcid. apply JsFacts.elem_of_set_add in Hcid as [->|Hcid].
        -- split; [done|]. rewrite lookup_insert_eq. by eexists.
        -- destruct (Hin0 cid Hcid) as [? Hs]. split; [done|].
           rewrite lookup_insert_is_Some. destruct (decide ((g, p) = cid));
             [by left|by right].
    + rewrite lookup_insert_ne in Hids by done.
      destruct (Hidx g' ids Hids) as (? & ? & Hall). split_and!; try done.
      intros cid Hcid. destruct (Hall cid Hcid) as [? Hs]. split; [done|].
      rewrite lookup_insert_is_Some. destruct (decide ((g, p) = cid));
        [by left|by right].
Qed.

Lemma registry_removeConnection p g s :
  registry_ok s → registry_ok (removeConnection p g s).
Proof.
  intros [Hconn Hidx]. unfold removeConnection. cbn.
  assert (Hkeep : ∀ cid, cid ≠ (g, p) → is_Some (connections s !! cid) →
            is_Some (delete (g, p) (connections s) !! cid)).
  { intros cid Hne. by rewrite lookup_delete_ne. }
  destruct (gameConnections s !! g) as [ids|] eqn:Hg.
  - destruct (Hidx g ids Hg) as (_ & Hnd & Hall).
    assert (Hfilter : ∀ cid, cid ∈ Js.set_delete (g, p) ids →
              cid ≠ (g, p) ∧ cid ∈ ids).
    { intros cid. apply JsFacts.elem_of_set_delete. }
    case_decide as Hlen; split; cbn.
    + intros g' p' c Hc. apply lookup_delete_Some in Hc as [Hne Hc].
      destruct (Hconn g' p' c Hc) as (? & ? & ids' & Hids' & Hin).
      split_and!; try done. destruct (decide (g = g')) as [<-|Hgg].
      * exfalso. rewrite Hg in Hids'. injection Hids' as <-.
        assert (Hin' : (g, p') ∈ Js.set_delete (g, p) ids).
        { apply JsFacts.elem_of_set_delete. split; [congruence|done]. }
        destruct (Js.set_delete (g, p) ids); [by apply elem_of_nil in Hin'|].
        done.
      * exists ids'. by rewrite lookup_delete_ne.
    + intros g' ids' Hids'. apply lookup_delete_Some in Hids' as [Hgg Hids'].
      destruct (Hidx g' ids' Hids') as (? & ? & Hall'). split_and!; try done.
      intros cid Hcid. destruct (Hall' cid Hcid) as [Hfst Hs].
      split; [done|]. apply Hkeep; [|done]. intros ->. by cbn in Hfst.
    + intros g' p' c Hc. apply lookup_delete_Some in Hc as [Hne Hc].
      destruct (Hconn g' p' c Hc) as (? & ? & ids' & Hids' & Hin).
      split_and!; try done. destruct (decide (g = g')) as [<-|Hgg].
      * eexists. rewrite lookup_insert_eq. split; [done|].
        rewrite Hg in Hids'. injection Hids' as <-.
        apply JsFacts.elem_of_set_delete. split; [congruence|done].
      * exists ids'. by rewrite lookup_insert_ne.
    + intros g' ids' Hids'. destruct (decide (g = g')) as [<-|Hgg].
      * rewrite lookup_insert_eq in Hids'. injection Hids' as <-.
        split_and!.
        -- intros Hnil. by rewrite Hnil in Hlen.
        -- by apply JsFacts.NoDup_set_delete.
        -- intros cid Hcid. destruct (Hfilter cid Hcid) as [Hne Hin].
           destruct (Hall cid Hin). split; [done|]. by apply Hkeep.
      * rewrite lookup_insert_ne in Hids' by done.
        destruct (Hidx g' ids' Hids') as (? & ? & Hall').
        split_and!; try done.
        intros cid Hcid. destruct (Hall' cid Hcid) as [Hfst Hs].
        split; [done|]. apply Hkeep; [|done]. intros ->. by cbn in Hfst.
  - split; cbn.
    + intros g' p' c Hc. apply lookup_delete_Some in Hc as [Hne Hc].
      by apply Hconn.
    + intros g' ids' Hids'.
      destruct (Hidx g' ids' Hids') as (? & ? & Hall'). split_and!; try done.
      intros cid Hcid. destruct (Hall' cid Hcid) as [Hfst Hs].
      split; [done|]. apply Hkeep; [|done]. intros ->. cbn in Hfst.
      congruence.
Qed.

Lemma registry_updateHeartbeat p g now s :
  registry_ok s → registry_ok (updateHeartbeat p g now s).
Proof.
  intros [Hconn Hidx]. unfold updateHeartbeat.
  destruct (connections s !! (g, p)) as [conn|] eqn:Hc; [|done].
  destruct (Hconn g p conn Hc) as (Hcg & Hcp & Hids).
  split; cbn.
  - intros g' p' c Hc'. destruct (decide ((g, p) = (g', p'))) as [[= <- <-]|Hne].
    + rewrite lookup_insert_eq in Hc'. by injection Hc' as <-.
    + rewrite lookup_insert_ne in Hc' by done. by apply Hconn.
  - intros g' ids Hg'. destruct (Hidx g' ids Hg') as (? & ? & Hall).
    split_and!; try done. intros cid Hcid.
    destruct (Hall cid Hcid) as [? Hs]. split; [done|].
    rewrite lookup_insert_is_Some. destruct (decide ((g, p) = cid));
      [by left|by right].
Qed.

Lemma registry_checkStaleConnections now s :
  registry_ok s → registry_ok (checkStaleConnections now s).
Proof.
  intros Hs. unfold checkStaleConnections.
  apply (map_fold_weak_ind (λ r _, registry_ok r)); [done|].
  intros cid conn m r _ IH. case_decide; [|done].
  apply registry_removeConnection. by case_decide.
Qed.

Lemma registry_step s e : registry_ok s → registry_ok (step s e).
Proof.
  intros Hs. destruct e as [w g p now|p g msg now|p g|t now|w|now];
    cbn [step].
  - unfold handlePhase3Connection. destruct g as [g|]; [|done].
    destruct (_ || _); [done|]. cbv zeta. unfold addPlayer.
    eapply reg_same_registry;
      [|apply (registry_addConnection w p g now (ws_open w s)); exact Hs].
    eapply reg_same_trans; [|apply reg_broadcastToGame].
    eapply reg_same_trans; [|apply reg_sendInitialGameState].
    apply reg_getOrCreateGame.
  - unfold handlePhase3Message.
    destruct msg as [| | |data| |w|deadline|ty];
      try (eapply reg_same_registry; [|exact Hs];
           by apply reg_handleMessage).
    + by apply registry_updateHeartbeat.
    + eapply reg_same_registry; [|exact Hs].
      eapply reg_same_trans; [|apply reg_checkAutoStart].
      by apply reg_handleMessage.
    + eapply reg_same_registry; [|exact Hs].
      apply reg_startDeadlineMonitor.
  - unfold on_close. cbv zeta.
    eapply reg_same_registry; [|apply (registry_removeConnection p g s Hs)].
    eapply reg_same_trans; [|apply reg_broadcastToGame].
    apply reg_removePlayer.
  - destruct (pending s !! t) as [[cb d]|]; [|done].
    eapply reg_same_registry; [|exact Hs].
    destruct cb as [g|g|g]; cbn [run_timer].
    + apply (reg_transitionToActive g now (clearTimeout t s)).
    + pose proof (reg_startGame g now (clearTimeout t s)) as Hst.
      destruct (startGame g now (clearTimeout t s)) as [result s1].
      cbn [snd] in Hst. destruct (success result); [|done].
      eapply reg_same_trans; [exact Hst|apply reg_broadcastGameState].
    + apply (reg_checkAutoStart g (clearTimeout t s)).
  - done.
  - by apply registry_checkStaleConnections.
Qed.

Lemma registry_ok_run es : registry_ok (run es).
Proof.
  induction es as [|e es IH] using rev_ind.
  - split; [intros g p c|intros g ids]; unfold run; cbn;
      by rewrite lookup_empty.
  - rewrite arena_run_snoc. by apply registry_step.
Qed.

(** X19: in every state the server can reach the connection registry
    is consistent: each record sits under the pair of its own game and
    player id and is listed once in the index of its room, and each
    index entry is non-empty and lists only ids that have a record.
    Hence the [totalPlayers] the server reports for a room is the
    number of ids in the room's index. *)
Theorem registry_ok_reachable es :
  registry_ok (run es)
  ∧ ∀ g, length (getGamePlayerIds g (run es))
         = length (default [] (gameConnections (run es) !! g)).
Proof.
  pose proof (registry_ok_run es) as H.
  split; [done|]. intros g. unfold getGamePlayerIds.
  destruct H as [_ Hidx].
  destruct (gameConnections (run es) !! g) as [ids|] eqn:Hg; [|done].
  destruct (Hidx g ids Hg) as (_ & _ & Hall). cbn.
  clear Hg. induction ids as [|cid ids IH]; [done|]. cbn.
  destruct (Hall cid) as [_ [c Hc]]; [apply list_elem_of_here|].
  rewrite Hc. cbn. f_equal. apply IH. intros cid' Hin.
  apply Hall. by apply list_elem_of_further.
Qed.

Lemma removeConnection_fields p g s :
  open (removeConnection p g s) = open s
  ∧ sent (removeConnection p g s) = sent s
  ∧ games (removeConnection p g s) = games s.
Proof.
  unfold removeConnection. cbn.
  destruct (gameConnections s !! g); [by case_decide|done].
Qed.

(** What the sweep leaves, record by record. *)
Lemma sweep_lookup now s :
  registry_ok s →
  let s' := checkStaleConnections now s in
  (∀ k, connections s' !! k
        = match connections s !! k with
          | Some c => if decide (now - lastHeartbeat c > 60000)%Z then None
                      else connections s !! k
          | None => connections s !! k
          end)
  ∧ (∀ k c, connections s !! k = Some c → stale now c → ws c ∉ open s')
  ∧ sent s' = sent s
  ∧ games s' = games s.
Proof.
  intros [Hconn _] s'. subst s'. unfold checkStaleConnections.
  assert (Hkeys : ∀ k c, connections s !! k = Some c →
                    k = (c_gameId c, playerId c)).
  { intros [g p] c Hc. destruct (Hconn g p c Hc) as (-> & -> & _). done. }
  revert Hkeys.
  apply (map_fold_weak_ind
    (λ r m, (∀ k c, m !! k = Some c → k = (c_gameId c, playerId c)) →
       (∀ k, connections r !! k
             = match m !! k with
               | Some c => if decide (now - lastHeartbeat c > 60000)%Z
                           then None else connections s !! k
               | None => connections s !! k
               end)
       ∧ (∀ k c, m !! k = Some c → stale now c → ws c ∉ open r)
       ∧ sent r = sent s ∧ games r = games s)).
  - intros _. split_and!; try done.
  - intros i x m r Hi IH Hkeys.
    destruct IH as (Hlook & Hclosed & Hsent & Hgames).
    { intros k c Hk. apply Hkeys. rewrite lookup_insert_ne; [done|].
      intros ->. congruence. }
    assert (Hix : i = (c_gameId x, playerId x)).
    { apply Hkeys. apply lookup_insert_eq. }
    unfold stale in *.
    destruct (decide (now - lastHeartbeat x > 60000)%Z) as [Hst|Hst].
    + set (r0 := if decide (ws x ∈ open r) then ws_close (ws x) r else r).
      assert (Hr0 : connections r0 = connections r ∧ sent r0 = sent r
                ∧ games r0 = games r ∧ open r0 = open r ∖ {[ws x]}).
      { subst r0. case_decide; split_and!; try done. cbn.
        apply set_eq. intros y. rewrite elem_of_difference,
          elem_of_singleton. split; [|tauto]. intros Hy. split; [done|].
        intros ->. done. }
      destruct Hr0 as (Hc0 & Hs0 & Hg0 & Ho0).
      destruct (removeConnection_fields (playerId x) (c_gameId x) r0)
        as (Ho & Hs & Hg).
      rewrite connections_removeConnection, Ho, Hs, Hg, Hc0, Hs0, Hg0, Ho0.
      split_and!; try done.
      * intros k. destruct (decide (i = k)) as [<-|Hne].
        -- rewrite lookup_insert_eq, decide_True by done.
           rewrite <- Hix. apply lookup_delete_eq.
        -- rewrite lookup_insert_ne by done. rewrite <- Hix.
           rewrite lookup_delete_ne by done. apply Hlook.
      * intros k c Hk Hstc. rewrite elem_of_difference, elem_of_singleton.
        destruct (decide (i = k)) as [<-|Hne].
        -- rewrite lookup_insert_eq in Hk. injection Hk as <-. tauto.
        -- rewrite lookup_insert_ne in Hk by done.
           specialize (Hclosed k c Hk Hstc). tauto.
    + split_and!; try done.
      * intros k. destruct (decide (i = k)) as [<-|Hne].
        -- rewrite lookup_insert_eq, decide_False by done.
           rewrite Hlook, Hi. done.
        -- rewrite lookup_insert_ne by done. apply Hlook.
      * intros k c Hk Hstc. destruct (decide (i = k)) as [<-|Hne].
        -- rewrite lookup_insert_eq in Hk. injection Hk as <-. done.
        -- rewrite lookup_insert_ne in Hk by done. eauto.
Qed.

(** X20: the health check removes exactly the connection records
    whose last heartbeat is more than 60 s old and closes their
    sockets; every fresher record is kept as it is.  It sends no frame
    and leaves the sessions alone: the evicted peer stays on roster and
    ready set until its socket's close event is handled. *)
Theorem health_check_evicts_stale now s :
  registry_ok s →
  let s' := step s (ev_health_check now) in
  (∀ cid c, connections s !! cid = Some c → stale now c →
     connections s' !! cid = None ∧ ws c ∉ open s')
  ∧ (∀ cid c, connections s !! cid = Some c → ¬ stale now c →
       connections s' !! cid = Some c)
  ∧ games s' = games s
  ∧ sent s' = sent s.
Proof.
  intros Hs s'. subst s'. cbn [step].
  destruct (sweep_lookup now s Hs) as (Hlook & Hclosed & Hsent & Hgames).
  split_and!; try done.
  - intros cid c Hc Hst. split; [|by eapply Hclosed].
    by rewrite Hlook, Hc, decide_True.
  - intros cid c Hc Hst. by rewrite Hlook, Hc, decide_False.
Qed.

Lemma health_check_evicts_stale_witness :
  connections (step (run two_connected) (ev_health_check 60050))
    !! (7%Z, "alice") = None
  ∧ connections (step (run two_connected) (ev_health_check 60050))
      !! (7%Z, "bob") = Some (mkConn 2 "bob" 7 100 true).
Proof.
  destruct (health_check_evicts_stale 60050 (run two_connected))
    as (Hgone & Hkept & _).
  - apply registry_ok_run.
  - split.
    + refine (proj1 (Hgone (7%Z, "alice") (mkConn 1 "alice" 7 0 true) _ _)).
      * by vm_compute.
      * unfold stale. cbn. lia.
    + apply Hkept; [by vm_compute|]. unfold stale. cbn. lia.
Defined.

(** X21: a heartbeat keeps a connection through the health check: a
    registered peer that sent [heartbeat] at time [t] is still
    registered, with that time stamp, after any health check run at
    most 60 s later. *)
Theorem heartbeat_survives_health_check p g t now s c :
  registry_ok s →
  connections s !! (g, p) = Some c →
  (now - t ≤ 60000)%Z →
  connections (step (step s (ev_message p g heartbeat t))
                 (ev_health_check now)) !! (g, p)
  = Some (mkConn (ws c) (playerId c) (c_gameId c) t true).
Proof.
  intros Hs Hc Hnow.
  set (s1 := step s (ev_message p g heartbeat t)).
  assert (Hs1 : registry_ok s1) by by apply registry_step.
  destruct (sweep_lookup now s1 Hs1) as (Hlook & _).
  cbn [step]. rewrite Hlook.
  assert (Hc1 : connections s1 !! (g, p)
            = Some (mkConn (ws c) (playerId c) (c_gameId c) t true)).
  { subst s1. cbn. unfold handleHeartbeat, updateHeartbeat. rewrite Hc. cbn.
    apply lookup_insert_eq. }
  rewrite Hc1. cbn. by rewrite decide_False by lia.
Qed.

Lemma heartbeat_survives_health_check_witness :
  connections (step (step (run two_connected)
                       (ev_message "alice" 7 heartbeat 30000))
                 (ev_health_check 60050)) !! (7%Z, "alice")
  = Some (mkConn 1 "alice" 7 30000 true).
Proof.
  apply (heartbeat_survives_health_check "alice" 7 30000 60050
           (run two_connected) (mkConn 1 "alice" 7 0 true)).
  - apply registry_ok_run.
  - by vm_compute.
  - lia.
Defined.

(** X22: a second connection for a pair of room and peer that is
    already registered replaces the record: the pair now holds the new
    socket, the room's index is unchanged (the id is not listed twice),
    the socket it replaces is not closed, and room broadcasts reach
    that old socket only if some other record still holds it. *)
Theorem second_connection_replaces_record w g p now s c :
  registry_ok s →
  connections s !! (g, p) = Some c →
  let s' := addConnection w p g now s in
  connections s' !! (g, p) = Some (mkConn w p g now true)
  ∧ gameConnections s' = gameConnections s
  ∧ open s' = open s
  ∧ ∀ g' msg ex m,
      (ws c, m) ∈ room_frames g' msg ex s' →
      ws c = w
      ∨ ∃ cid c', cid ≠ (g, p) ∧ connections s !! cid = Some c'
                  ∧ ws c' = ws c.
Proof.
  intros [Hconn Hidx] Hc s'. subst s'.
  destruct (Hconn g p c Hc) as (_ & _ & ids & Hids & Hin).
  unfold addConnection. cbn. rewrite Hids. cbn.
  assert (Hadd : Js.set_add (g, p) ids = ids).
  { unfold Js.set_add. by rewrite decide_True. }
  rewrite Hadd. split_and!.
  - apply lookup_insert_eq.
  - by apply insert_id.
  - done.
  - intros g' msg ex m Hm. apply elem_of_room_frames in Hm
      as (_ & cid & c' & _ & Hc' & Hws & _). cbn in Hc'.
    destruct (decide ((g, p) = cid)) as [<-|Hne].
    + rewrite lookup_insert_eq in Hc'. injection Hc' as <-. by left.
    + rewrite lookup_insert_ne in Hc' by done. right. by exists cid, c'.
Qed.

Lemma second_connection_replaces_record_witness :
  connections (addConnection 5 "alice" 7 900 (run two_connected))
    !! (7%Z, "alice") = Some (mkConn 5 "alice" 7 900 true)
  ∧ gameConnections (addConnection 5 "alice" 7 900 (run two_connected))
    = gameConnections (run two_connected).
Proof.
  destruct (second_connection_replaces_record 5 7 "alice" 900
              (run two_connected) (mkConn 1 "alice" 7 0 true))
    as (Hrec & Hidx & _).
  - apply registry_ok_run.
  - by vm_compute.
  - split; [exact Hrec|exact Hidx].
Defined.

End ArenaRegistry.

(** ** Arena rooms: the timer table *)

Module ArenaTimers.
Import Arena ArenaFacts ArenaFrames ArenaSessions ArenaSteps ArenaClaims.
Import ArenaInvariants ArenaExtras.

Lemma dl_sub_refl s : dl_sub s s.
Proof. split_and!; [done..|]. intros t cb d H. by left. Qed.

Lemma dl_sub_trans s1 s2 s3 : dl_sub s1 s2 → dl_sub s2 s3 → dl_sub s1 s3.
Proof.
  intros (Hd1 & Hn1 & Hp1) (Hd2 & Hn2 & Hp2). split_and!; [congruence|lia|].
  intros t cb d H. destruct (Hp2 t cb d H) as [H2|[Hr Hcb]].
  - destruct (Hp1 t cb d H2) as [H1|[Hr Hcb]]; [by left|].
    right. split; [lia|done].
  - right. split; [lia|done].
Qed.

Lemma dl_sub_ok s s' : dl_sub s s' → deadlines_ok s → deadlines_ok s'.
Proof.
  intros (Hd & Hn & Hp) [Hfresh Hdl]. split.
  - intros t cb d H. destruct (Hp t cb d H) as [H1|[Hr _]]; [|lia].
    specialize (Hfresh t cb d H1). lia.
  - intros t g d H. rewrite Hd. destruct (Hp t _ d H) as [H1|[_ Hcb]].
    + by eapply Hdl.
    + by destruct (Hcb g).
Qed.

(** Operations that leave the timer table alone. *)
Lemma dl_sub_same s s' :
  pending s' = pending s ∧ nextTimer s' = nextTimer s
  ∧ gameDeadlineTimers s' = gameDeadlineTimers s →
  dl_sub s s'.
Proof.
  intros (Hp & Hn & Hd). split_and!; [done|lia|].
  intros t cb d H. left. by rewrite <- Hp.
Qed.

Ltac same_tac :=
  apply dl_sub_same;
  repeat first
    [ rewrite markPlayerReady_eq | rewrite broadcastToGame_eq
    | rewrite broadcastGameState_eq | rewrite sendToPlayer_eq
    | case_match | case_decide
    | progress cbn -[broadcastToGame broadcastGameState sendToPlayer
                     markPlayerReady] ];
  by split_and!.

Lemma dl_broadcastToGame g msg ex s : dl_sub s (broadcastToGame g msg ex s).
Proof. same_tac. Qed.

Lemma dl_broadcastGameState g s : dl_sub s (broadcastGameState g s).
Proof. same_tac. Qed.

Lemma dl_sendToPlayer p g msg s : dl_sub s (sendToPlayer p g msg s).
Proof. same_tac. Qed.

Lemma dl_sendInitialGameState w g s : dl_sub s (sendInitialGameState w g s).
Proof. unfold sendInitialGameState. same_tac. Qed.

Lemma dl_getOrCreateGame g s : dl_sub s (getOrCreateGame g s).
Proof. unfold getOrCreateGame. same_tac. Qed.

Lemma dl_markPlayerReady g p s : dl_sub s (markPlayerReady g p s).
Proof. same_tac. Qed.

Lemma dl_updatePlayerState g p d s : dl_sub s (updatePlayerState g p d s).
Proof. unfold updatePlayerState. same_tac. Qed.

Lemma dl_addConnection w p g now s : dl_sub s (addConnection w p g now s).
Proof. unfold addConnection. same_tac. Qed.

Lemma dl_removeConnection p g s : dl_sub s (removeConnection p g s).
Proof. unfold removeConnection. same_tac. Qed.

Lemma dl_updateHeartbeat p g now s : dl_sub s (updateHeartbeat p g now s).
Proof. unfold updateHeartbeat. same_tac. Qed.

Lemma dl_ws_close w s : dl_sub s (ws_close w s).
Proof. unfold ws_close. same_tac. Qed.

Lemma dl_ws_open w s : dl_sub s (ws_open w s).
Proof. unfold ws_open. same_tac. Qed.

Lemma dl_transitionToActive g now s : dl_sub s (transitionToActive g now s).
Proof. unfold transitionToActive, onGameStateChange. same_tac. Qed.

Lemma dl_checkStaleConnections now s : dl_sub s (checkStaleConnections now s).
Proof.
  unfold checkStaleConnections.
  apply (map_fold_weak_ind (λ r _, dl_sub s r)); [apply dl_sub_refl|].
  intros cid conn m r _ IH. case_decide; [|done].
  eapply dl_sub_trans; [exact IH|].
  eapply dl_sub_trans; [|apply dl_removeConnection].
  case_decide; [apply dl_ws_close|apply dl_sub_refl].
Qed.

(** Operations on the timer table. *)
Lemma dl_clearTimeout t s : dl_sub s (clearTimeout t s).
Proof.
  split_and!; [done..|]. cbn. intros t' cb d H.
  apply lookup_delete_Some in H. tauto.
Qed.

Lemma dl_setTimeout cb d s :
  (∀ g, cb ≠ t_deadline g) → dl_sub s (setTimeout cb d s).2.
Proof.
  intros Hcb. split_and!; [done|cbn; lia|]. cbn. intros t cb' d' H.
  apply lookup_insert_Some in H as [[<- [= <- <-]]|[_ H]]; [|by left].
  right. split; [lia|done].
Qed.

Lemma dl_clearGameTimer g s : dl_sub s (clearGameTimer g s).
Proof.
  unfold clearGameTimer. destruct (gameTimers s !! g) as [t|];
    [|apply dl_sub_refl].
  cbv zeta. eapply dl_sub_trans; [apply (dl_clearTimeout t)|]. same_tac.
Qed.

Lemma dl_with_games m s : dl_sub s (with_games m s).
Proof. same_tac. Qed.

Lemma dl_removePlayer g p s : dl_sub s (removePlayer g p s).
Proof.
  unfold removePlayer. destruct (games s !! g) as [game|];
    [|apply dl_sub_refl].
  cbv zeta. case_decide; [|apply dl_with_games].
  eapply dl_sub_trans; [apply dl_with_games|].
  eapply dl_sub_trans; [apply dl_clearGameTimer|]. apply dl_with_games.
Qed.

Lemma dl_declareWinner g w s : dl_sub s (declareWinner g w s).
Proof.
  unfold declareWinner. destruct (games s !! g) as [game|];
    [|apply dl_sub_refl].
  eapply dl_sub_trans; [apply dl_with_games|]. apply dl_clearGameTimer.
Qed.

Lemma dl_startGame g now s : dl_sub s (startGame g now s).2.
Proof.
  unfold startGame. destruct (games s !! g) as [game|]; [|apply dl_sub_refl].
  cbv zeta. destruct (negb _); [apply dl_sub_refl|].
  case_decide; [apply dl_with_games|]. cbn.
  split_and!; [done|cbn; lia|]. cbn. intros t cb d Ht.
  apply lookup_insert_Some in Ht as [[<- [= <- <-]]|[_ Ht]]; [|by left].
  right. split; [lia|done].
Qed.

Lemma dl_checkAutoStart g s : dl_sub s (checkAutoStart g s).
Proof.
  unfold checkAutoStart. destruct (canStart _); [|apply dl_sub_refl].
  by apply dl_setTimeout.
Qed.

Lemma dl_handleMessage p g msg now s : dl_sub s (handleMessage p g msg now s).
Proof.
  destruct msg as [| | |data| |w|deadline|ty]; cbn [handleMessage];
    try apply dl_sub_refl.
  - apply dl_updateHeartbeat.
  - unfold handleMarkReady. cbv zeta.
    destruct (games _ !! g);
      [eapply dl_sub_trans; [|apply dl_broadcastGameState]|];
      apply dl_markPlayerReady.
  - unfold handleStartGame.
    pose proof (dl_startGame g now s) as Hst.
    destruct (startGame g now s) as [result s1]. cbn [snd] in Hst.
    destruct (success result), (gameState result) as [gs|];
      try (eapply dl_sub_trans; [exact Hst|apply dl_sendToPlayer]).
    eapply dl_sub_trans; [exact Hst|].
    case_decide; [eapply dl_sub_trans; [|apply dl_broadcastToGame]|];
      apply dl_broadcastGameState.
  - unfold handlePlayerUpdate.
    eapply dl_sub_trans; [|apply dl_broadcastToGame].
    apply dl_updatePlayerState.
  - unfold handleEliminated. cbv zeta.
    pose proof (dl_broadcastToGame g (eliminated p) None s) as Hb.
    destruct (games _ !! g) as [game|]; [|done].
    case_decide; [|done].
    destruct (alive_players _) as [[|w [|w' l]]|]; try done.
    eapply dl_sub_trans; [exact Hb|].
    destruct (ps_id w) as [winnerId|]; [|apply dl_declareWinner].
    eapply dl_sub_trans; [|apply dl_broadcastToGame].
    apply dl_declareWinner.
  - unfold handleWinner. destruct w as [w|]; [|apply dl_sub_refl].
    eapply dl_sub_trans; [|apply dl_broadcastToGame].
    apply dl_declareWinner.
Qed.

(** [startDeadlineMonitor] is the one operation that arms a deadline
    timer; it first clears the one on record for the room. *)
Lemma deadlines_startDeadlineMonitor g deadline now s :
  deadlines_ok s → deadlines_ok (startDeadlineMonitor g deadline now s).
Proof.
  intros Hs. unfold startDeadlineMonitor. cbv zeta.
  set (s1 := match gameDeadlineTimers s !! g with
             | Some t => clearTimeout t s
             | None => s
             end).
  assert (H1 : deadlines_ok s1
            ∧ gameDeadlineTimers s1 = gameDeadlineTimers s
            ∧ ∀ t d, pending s1 !! t ≠ Some (t_deadline g, d)).
  { subst s1. destruct (gameDeadlineTimers s !! g) as [t0|] eqn:Ht0.
    - split_and!; [by eapply dl_sub_ok; [apply dl_clearTimeout|]|done|].
      cbn. intros t d H. apply lookup_delete_Some in H as [Hne H].
      destruct Hs as [_ Hdl]. specialize (Hdl t g d H). congruence.
    - split_and!; [done..|]. intros t d H.
      destruct Hs as [_ Hdl]. specialize (Hdl t g d H). congruence. }
  clearbody s1. destruct H1 as ([Hfresh Hdl] & Hd1 & Hnone).
  case_decide.
  - eapply dl_sub_ok; [apply dl_checkAutoStart|done].
  - split; cbn.
    + intros t cb d H0.
      apply lookup_insert_Some in H0 as [[<- _]|[_ H0]]; [lia|].
      specialize (Hfresh t cb d H0). lia.
    + intros t g' d H0.
      apply lookup_insert_Some in H0 as [[<- [= <- <-]]|[Hne H0]].
      * apply lookup_insert_eq.
      * destruct (decide (g = g')) as [<-|Hg]; [by destruct (Hnone t d)|].
        rewrite lookup_insert_ne by done. by eapply Hdl.
Qed.

Lemma deadlines_step s e : deadlines_ok s → deadlines_ok (step s e).
Proof.
  intros Hs. destruct e as [w g p now|p g msg now|p g|t now|w|now];
    cbn [step].
  - eapply dl_sub_ok; [|exact Hs].
    eapply dl_sub_trans; [apply (dl_ws_open w)|].
    unfold handlePhase3Connection. destruct g as [g|]; [|apply dl_ws_close].
    destruct (_ || _); [apply dl_ws_close|]. cbv zeta. unfold addPlayer.
    eapply dl_sub_trans; [|apply dl_broadcastToGame].
    eapply dl_sub_trans; [|apply dl_sendInitialGameState].
    eapply dl_sub_trans; [|apply dl_getOrCreateGame].
    apply dl_addConnection.
  - unfold handlePhase3Message.
    destruct msg as [| | |data| |w|deadline|ty];
      try (eapply dl_sub_ok; [|exact Hs]; apply dl_handleMessage).
    + eapply dl_sub_ok; [|exact Hs].
      eapply dl_sub_trans; [|apply dl_checkAutoStart].
      apply dl_handleMessage.
    + by apply deadlines_startDeadlineMonitor.
  - eapply dl_sub_ok; [|exact Hs]. unfold on_close. cbv zeta.
    eapply dl_sub_trans; [|apply dl_broadcastToGame].
    eapply dl_sub_trans; [|apply dl_removePlayer].
    apply dl_removeConnection.
  - destruct (pending s !! t) as [[cb d]|]; [|done].
    eapply dl_sub_ok; [|exact Hs].
    eapply dl_sub_trans; [apply (dl_clearTimeout t)|].
    destruct cb as [g|g|g]; cbn [run_timer].
    + apply dl_transitionToActive.
    + pose proof (dl_startGame g now (clearTimeout t s)) as Hst.
      destruct (startGame g now (clearTimeout t s)) as [result s1].
      cbn [snd] in Hst. destruct (success result); [|done].
      eapply dl_sub_trans; [exact Hst|apply dl_broadcastGameState].
    + apply dl_checkAutoStart.
  - eapply dl_sub_ok; [apply dl_ws_close|done].
  - eapply dl_sub_ok; [apply dl_checkStaleConnections|done].
Qed.

Definition two_deadlines : list Event :=
  [ev_connect 1 (Some 7%Z) "alice" 0;
   ev_message "alice" 7 (set_deadline 5000) 100;
   ev_message "alice" 7 (set_deadline 9000) 200].

(** X23: in every state the server can reach, timer handles are never
    reused and a room has at most one armed deadline timer, the one
    [gameDeadlineTimers] records for it: a later [set_deadline]
    replaces the earlier deadline instead of adding a second one. *)
Theorem one_deadline_timer_per_room es g t1 d1 t2 d2 :
  pending (run es) !! t1 = Some (t_deadline g, d1) →
  pending (run es) !! t2 = Some (t_deadline g, d2) →
  t1 = t2 ∧ d1 = d2
  ∧ gameDeadlineTimers (run es) !! g = Some t1
  ∧ t1 < nextTimer (run es).
Proof.
  assert (H : deadlines_ok (run es)).
  { induction es as [|e es IH] using rev_ind.
    - split; intros t; intros; unfold run in *; cbn in *;
        by rewrite lookup_empty in *.
    - rewrite arena_run_snoc. by apply deadlines_step. }
  destruct H as [Hfresh Hdl]. intros H1 H2.
  pose proof (Hdl _ _ _ H1) as E1. pose proof (Hdl _ _ _ H2) as E2.
  assert (t1 = t2) as <- by congruence.
  split_and!; [done|congruence|done|by eapply Hfresh].
Qed.

Lemma one_deadline_timer_per_room_witness :
  gameDeadlineTimers (run two_deadlines) !! 7%Z = Some 1
  ∧ 1 < nextTimer (run two_deadlines).
Proof.
  refine (proj2 (proj2
    (one_deadline_timer_per_room two_deadlines 7 1 8800 1 8800 _ _)));
    by vm_compute.
Defined.

(** X24: in every state the server can reach a room has at most one
    armed countdown timer, the one [gameTimers] records for it, and
    that room's session is in the countdown phase. *)
Theorem one_countdown_timer_per_room es g t1 d1 t2 d2 :
  pending (run es) !! t1 = Some (t_countdown g, d1) →
  pending (run es) !! t2 = Some (t_countdown g, d2) →
  t1 = t2 ∧ d1 = d2
  ∧ gameTimers (run es) !! g = Some t1
  ∧ ∃ game, games (run es) !! g = Some game ∧ phase game = countdown.
Proof.
  intros H1 H2. pose proof (timers_ok_run es) as Hok.
  destruct (Hok _ _ _ H1) as [E1 Hgame].
  destruct (Hok _ _ _ H2) as [E2 _].
  assert (t1 = t2) as <- by congruence.
  split_and!; [done|congruence|done..].
Qed.

Lemma one_countdown_timer_per_room_witness :
  gameTimers (run (take 7 two_playing)) !! 7%Z = Some 2
  ∧ ∃ game, games (run (take 7 two_playing)) !! 7%Z = Some game
            ∧ phase game = countdown.
Proof.
  refine (proj2 (proj2
    (one_countdown_timer_per_room (take 7 two_playing) 7 2 15000 2 15000
       _ _))); by vm_compute.
Defined.

End ArenaTimers.

(** ** Arena rooms: the countdown's end and the last peer standing *)

Module ArenaEndings.
Import Arena ArenaFacts ArenaFrames ArenaSessions ArenaSteps ArenaClaims.
Import ArenaInvariants ArenaExtras.






(** X26: when a room's countdown timer fires in a state the server
    can reach, the room has a session in the countdown phase; it
    becomes active with the firing time as start time, everything else
    in it kept, the timer is disarmed while its handle stays on
    record, and every open connection of the room is sent the new
    state. *)
Theorem countdown_fire_activates es t g d now :
  pending (run es) !! t = Some (t_countdown g, d) →
  let s := run es in
  let s' := step s (ev_fire t now) in
  ∃ game,
    games s !! g = Some game ∧ phase game = countdown
    ∧ games s'
      = <[g := mkGame (gameId game) active (countdownStartTime game)
                 (countdownDuration game) (players game)
                 (readyPlayers game) (Some now) (winner game)]> (games s)
    ∧ pending s' = delete t (pending s)
    ∧ gameTimers s' !! g = Some t
    ∧ sent s'
      = sent s
        ++ room_frames g
             (game_state_update
                (mkView active (countdownStartTime game)
                   (countdownDuration game) (length (readyPlayers game))
                   (length (getGamePlayerIds g s)))) None s.
Proof.
  intros Ht s s'. subst s s'.
  destruct (timers_ok_run es _ _ _ Ht) as (Hgt & game & Hg & Hph).
  exists game. split; [done|]. split; [done|].
  cbn [step]. rewrite Ht. cbn [run_timer]. unfold transitionToActive.
  cbn [games clearTimeout with_pending]. rewrite Hg.
  unfold onGameStateChange. rewrite broadcastGameState_eq.
  unfold state_frames. cbn. rewrite lookup_insert_eq. done.
Qed.

Lemma countdown_fire_activates_witness :
  (phase <$> games (step (run (take 7 two_playing)) (ev_fire 2 16200))
     !! 7%Z) = Some active.
Proof.
  destruct (countdown_fire_activates (take 7 two_playing) 2 7 15000 16200)
    as (game & _ & _ & -> & _); [by vm_compute|].
  by rewrite lookup_insert_eq.
Defined.

End ArenaEndings.

(** ** The other revisions: the auto-start gate and the legacy
    broadcast *)

Module VariantExtras.
Import Arena.

(** X27: the compact revision's auto-start check and the main one's
    do the same to the server except in two cases: one ready peer in a
    waiting room, where only the main revision arms the one-second
    timer, and two or more ready peers in a room past waiting, where
    only the compact revision arms it. *)
Theorem auto_start_gate_revisions g s :
  Clean.checkAutoStart g s = checkAutoStart g s
  ↔ match games s !! g with
    | None => True
    | Some game =>
        (length (readyPlayers game) = 1 → phase game ≠ waiting)
        ∧ (2 ≤ length (readyPlayers game) → phase game = waiting)
    end.
Proof.
  assert (Hne : ∀ cb d, (setTimeout cb d s).2 ≠ s).
  { intros cb d H. apply (f_equal nextTimer) in H. cbn in H. lia. }
  unfold Clean.checkAutoStart, Clean.canStartGame, checkAutoStart,
    canStartGame.
  destruct (games s !! g) as [game|]; [|done]. cbn.
  destruct (decide (phase game ≠ waiting)) as [Hph|Hph]; cbn.
  - case_bool_decide as Hn; cbn.
    + split; [by intros ?%Hne|]. intros [_ H]. by specialize (H Hn).
    + split; [|done]. intros _. split; [done|]. intros. lia.
  - apply dec_stable in Hph.
    destruct (decide (length (readyPlayers game) = 0)) as [H0|H0]; cbn.
    + rewrite bool_decide_eq_false_2 by lia. cbn.
      split; [|done]. intros _. split; intros; [lia|done].
    + destruct (decide (length (readyPlayers game) = 1)) as [H1|H1]; cbn.
      * rewrite bool_decide_eq_false_2 by lia. cbn.
        split; [intros H; symmetry in H; by apply Hne in H|].
        intros [H _]. by specialize (H H1).
      * rewrite bool_decide_eq_true_2 by lia. cbn.
        split; [|done]. intros _. split; intros; [lia|done].
Qed.

Lemma legacy_broadcast_loop msg ts ex (l : list nat) s :
  foldl (λ acc client,
           if decide (client ∈ Legacy.open acc) then
             let pid := default "" (Legacy.s_playerId
                                      <$> Legacy.sockets acc !! client) in
             if match ex with
                | None => true
                | Some e => negb (Js.truthy e) || negb (bool_decide (pid = e))
                end
             then Legacy.send client msg ts acc else acc
           else acc) s l
  = Legacy.mkState (Legacy.games s) (Legacy.sockets s) (Legacy.open s)
      (Legacy.sent s
       ++ omap (λ client,
                  if decide (client ∈ Legacy.open s) then
                    if match ex with
                       | None => true
                       | Some e =>
                           negb (Js.truthy e)
                           || negb (bool_decide
                                (default "" (Legacy.s_playerId
                                     <$> Legacy.sockets s !! client) = e))
                       end
                    then Some (client, msg, ts) else None
                  else None) l).
Proof.
  revert s. induction l as [|c l IH]; intros s; cbn.
  - rewrite app_nil_r. by destruct s.
  - rewrite IH. clear IH. destruct (decide (c ∈ Legacy.open s)); [|done].
    cbn. destruct (match ex with None => true | Some _ => _ end); [|done].
    cbn. by rewrite <- app_assoc.
Qed.

(** X28: who receives a broadcast of the legacy server: the frames
    it sends go to the sockets of the room's client set that are open
    and, when a non-empty peer id is excluded, do not carry that id;
    each frame has the broadcast's payload and time stamp. *)
Theorem legacy_broadcast_recipients room msg ts ex s w m t :
  (w, m, t) ∈ drop (length (Legacy.sent s))
                (Legacy.sent (Legacy.broadcast room msg ts ex s))
  ↔ m = msg ∧ t = ts
    ∧ w ∈ Legacy.clients room ∧ w ∈ Legacy.open s
    ∧ match ex with
      | None => True
      | Some e =>
          e = ""
          ∨ default "" (Legacy.s_playerId <$> Legacy.sockets s !! w) ≠ e
      end.
Proof.
  unfold Legacy.broadcast. rewrite legacy_broadcast_loop. cbn [Legacy.sent].
  rewrite drop_app_length, list_elem_of_omap. split.
  - intros (c & Hin & Hf). case_decide as Hop; [|done].
    destruct ex as [e|].
    + destruct (negb (Js.truthy e) || _) eqn:Hex; [|done].
      injection Hf as <- <- <-. split_and!; try done.
      apply orb_true_iff in Hex as [Hex|Hex].
      * left. unfold Js.truthy in Hex. rewrite negb_involutive in Hex.
        by apply bool_decide_eq_true in Hex.
      * right. apply negb_true_iff in Hex.
        by apply bool_decide_eq_false in Hex.
    + by injection Hf as <- <- <-.
  - intros (-> & -> & Hin & Hop & Hex). exists w. split; [done|].
    rewrite decide_True by done. destruct ex as [e|]; [|done].
    destruct Hex as [->|Hex]; [done|].
    rewrite (bool_decide_eq_false_2 _ Hex). cbn. by rewrite orb_true_r.
Qed.

End VariantExtras.
